(** * Rekallhalo narrative engine: fallback invoker, response normalizer,
      chapter tracker, segment versions and auto checkpoints.

    Shallow embedding of [services/geminiService.ts] ([withModelFallback],
    [cleanJson], the chapter post-processing of [autoPlanBlueprint], the
    endpoint of [fetchOpenAICompatibleModels]) and of the [useGameEngine]
    hook: the session handlers ([handleStartGame], [handleAutoPlanBlueprint],
    [handleChoice], [handleRegenerate], [handleSwitchVersion],
    [handleLoadGame]), the checkpoint library ([deleteSaveGame],
    [deleteSession], [handleUndoDelete], [importSaveGame],
    [handleManualSave]) and the editors ([handleUpdateSegmentText],
    [handleGlobalReplace], the scheduled-event handlers).

    The sources hold three states of the hook. The embedding follows the
    one that books chapter progress (its blueprint block is marked FIXED).
    [hooks/useGameEngine.ts] is the state before it: its [handleChoice] and
    [handleStartGame] carry the blueprint over without booking anything and
    are otherwise the same; its [handleRegenerate], [handleSwitchVersion]
    and [handleAutoPlanBlueprint] do what the ones embedded here do.

    Conventions.
    - A JavaScript string is the list of its UTF-16 code units ([list N]);
      [.length] is the length of that list.
    - A JavaScript number that the code uses as a counter, an index or a
      timestamp is an integer ([Z]).
    - An optional field ([x?: T]) is an [option]; [a || b] on such a field is
      written with the truthiness of the JavaScript value.
    - [generateUUID()], [Date.now()], [Math.random()] and the answers of the
      generative backend are inputs of the handlers. *)

From Stdlib Require Import ZArith NArith Bool Lia Ascii String.
From stdpp Require Import base option list gmap.

Local Open Scope Z_scope.

(** ** JavaScript strings *)

Module Js.

Abbreviation str := (list N).

(** An ASCII literal as a JavaScript string. *)
Definition lit (s : string) : str :=
  map N_of_ascii (list_ascii_of_string s).

(** Truthiness of a string: only the empty string is falsy. *)
Definition truthy (s : str) : bool :=
  match s with [] => false | _ :: _ => true end.

(** Truthiness of an optional string field: [undefined] is falsy too. *)
Definition carries (o : option str) : bool :=
  match o with Some s => truthy s | None => false end.

(** [a || b] on strings. *)
Definition or (a b : str) : str := if truthy a then a else b.

(** [a || b] on an optional string. *)
Definition orOpt (a : option str) (b : str) : str :=
  match a with Some s => or s b | None => b end.

(** [a || b] on numbers: [0] is the falsy integer. *)
Definition orNum (a b : Z) : Z := if a =? 0 then b else a.

(** [a || b] on an optional number. *)
Definition orNumOpt (a : option Z) (b : Z) : Z :=
  match a with Some n => orNum n b | None => b end.

(** ECMAScript WhiteSpace and LineTerminator code units: what [\s] matches
    and what [String.prototype.trim] strips. *)
Definition isWhiteSpace (c : N) : bool :=
  (((9 <=? c) && (c <=? 13)) || (c =? 32) || (c =? 160) || (c =? 5760)
   || ((8192 <=? c) && (c <=? 8202)) || (c =? 8232) || (c =? 8233)
   || (c =? 8239) || (c =? 8287) || (c =? 12288) || (c =? 65279))%N.

Fixpoint trimStart (s : str) : str :=
  match s with
  | [] => []
  | c :: r => if isWhiteSpace c then trimStart r else s
  end.

Definition trimEnd (s : str) : str := rev (trimStart (rev s)).

Definition trim (s : str) : str := trimEnd (trimStart s).

(** [s.indexOf(c)] for a one-unit needle: first position, or [-1]. *)
Fixpoint indexOf (c : N) (s : str) : Z :=
  match s with
  | [] => -1
  | x :: r =>
      if (x =? c)%N then 0
      else let k := indexOf c r in if k <? 0 then -1 else k + 1
  end.

(** [s.lastIndexOf(c)] for a one-unit needle: last position, or [-1]. *)
Fixpoint lastIndexOf (c : N) (s : str) : Z :=
  match s with
  | [] => -1
  | x :: r =>
      let k := lastIndexOf c r in
      if 0 <=? k then k + 1 else if (x =? c)%N then 0 else -1
  end.

(** [s.substring(a, b)]: both bounds clamped into [0, length], swapped when
    out of order. *)
Definition substring (s : str) (a b : Z) : str :=
  let len := Z.of_nat (length s) in
  let a' := Z.min (Z.max a 0) len in
  let b' := Z.min (Z.max b 0) len in
  let lo := Z.min a' b' in
  let hi := Z.max a' b' in
  take (Z.to_nat (hi - lo)) (drop (Z.to_nat lo) s).

Fixpoint startsWith (p s : str) : bool :=
  match p, s with
  | [], _ => true
  | _ :: _, [] => false
  | a :: p', b :: s' => (a =? b)%N && startsWith p' s'
  end.

(** [s.includes(sub)]. *)
Fixpoint includes (s sub : str) : bool :=
  startsWith sub s
  || match s with [] => false | _ :: r => includes r sub end.

End Js.

(** ** ResponseNormalizer: [cleanJson] *)

Module Normalizer.

Definition backtick : N := 96.
Definition lbrace : N := 123.
Definition rbrace : N := 125.
Definition lbracket : N := 91.
Definition rbracket : N := 93.

(** One letter of [json] under the [i] flag: the letter or its capital. *)
Definition letterCI (lower upper c : N) : bool :=
  ((c =? lower) || (c =? upper))%N.

Fixpoint leadingWhiteSpace (s : Js.str) : nat :=
  match s with
  | [] => O
  | c :: r => if Js.isWhiteSpace c then S (leadingWhiteSpace r) else O
  end.

(** Length of the match of [/```json\s*|```/i] anchored at the head of [s],
    [0] when there is none. The first alternative is tried first and its
    [\s*] is greedy. *)
Definition fenceMatchLength (s : Js.str) : nat :=
  match s with
  | b1 :: b2 :: b3 :: r =>
      if ((b1 =? backtick) && (b2 =? backtick) && (b3 =? backtick))%N then
        match r with
        | j :: s' :: o :: n :: r' =>
            if letterCI 106 74 j && letterCI 115 83 s'
               && letterCI 111 79 o && letterCI 110 78 n
            then (7 + leadingWhiteSpace r')%nat
            else 3%nat
        | _ => 3%nat
        end
      else O
  | _ => O
  end.

(** [text.replace(/```json\s*|```/gi, '')]: scan from the left; [skip] code
    units of the current match are still to be dropped. *)
Fixpoint stripFencesFrom (skip : nat) (s : Js.str) : Js.str :=
  match s with
  | [] => []
  | c :: r =>
      match skip with
      | S k => stripFencesFrom k r
      | O =>
          match fenceMatchLength s with
          | O => c :: stripFencesFrom O r
          | S k => stripFencesFrom k r
          end
      end
  end.

Definition stripFences (s : Js.str) : Js.str := stripFencesFrom O s.

(** The class [[\x00-\x09\x0B-\x1F\x7F]]. *)
Definition isControl (c : N) : bool :=
  ((c <=? 9) || ((11 <=? c) && (c <=? 31)) || (c =? 127))%N.

Definition stripControl (s : Js.str) : Js.str :=
  List.filter (fun c => negb (isControl c)) s.

(** The bracket search of [cleanJson]: [(startIndex, endIndex, isArray)]. *)
Definition locate (cleaned : Js.str) : Z * Z * bool :=
  let firstBrace := Js.indexOf lbrace cleaned in
  let firstBracket := Js.indexOf lbracket cleaned in
  if negb (firstBrace =? -1)
     && ((firstBracket =? -1) || (firstBrace <? firstBracket))
  then (firstBrace, Js.lastIndexOf rbrace cleaned, false)
  else if negb (firstBracket =? -1)
  then (firstBracket, Js.lastIndexOf rbracket cleaned, true)
  else (-1, -1, false).

(** The guard of the extraction. *)
Definition located (startIndex endIndex : Z) : bool :=
  negb (startIndex =? -1) && negb (endIndex =? -1)
  && (endIndex >=? startIndex).

Definition cleanJson (text : Js.str) : Js.str :=
  if negb (Js.truthy text) then Js.lit "{}"
  else
    let cleaned := Js.trim (stripFences text) in
    let '(startIndex, endIndex, isArray) := locate cleaned in
    if located startIndex endIndex then
      let cleaned := Js.substring cleaned startIndex (endIndex + 1) in
      let cleaned := stripControl cleaned in
      Js.or (Js.trim cleaned) (if isArray then Js.lit "[]" else Js.lit "{}")
    else Js.lit "{}".

End Normalizer.

(** ** FallbackInvoker: [withModelFallback] *)

Module Fallback.

(** The fallback table is a plain object ([Record<string, string[]>], an
    object literal in [geminiService.ts]): the finite map holds its own
    properties, and a read [fallbacksMap[key]] also finds what every such
    object inherits from [Object.prototype]. *)
Definition OBJECT_PROTOTYPE : list Js.str :=
  [Js.lit "constructor"; Js.lit "hasOwnProperty"; Js.lit "isPrototypeOf";
   Js.lit "propertyIsEnumerable"; Js.lit "toLocaleString"; Js.lit "toString";
   Js.lit "valueOf"; Js.lit "__proto__"; Js.lit "__defineGetter__";
   Js.lit "__defineSetter__"; Js.lit "__lookupGetter__";
   Js.lit "__lookupSetter__"].

(** What [fallbacksMap[key]] evaluates to: the array of an own entry, an
    inherited value (a built-in function, or [Object.prototype] itself for
    ["__proto__"]), or [undefined]. *)
Inductive property : Type :=
| Entry (fallbacks : list Js.str)
| Inherited
| Undefined.

Definition get (fallbacksMap : gmap Js.str (list Js.str)) (key : Js.str)
  : property :=
  match fallbacksMap !! key with
  | Some fallbacks => Entry fallbacks
  | None => if bool_decide (key ∈ OBJECT_PROTOTYPE) then Inherited else Undefined
  end.

(** [fallbacksMap[primaryModel] || []]: an array and an inherited value are
    truthy, [undefined] is not. *)
Definition fallbacksOf (primaryModel : Js.str)
    (fallbacksMap : gmap Js.str (list Js.str)) : property :=
  match get fallbacksMap primaryModel with
  | Undefined => Entry []
  | found => found
  end.

(** [[primaryModel, ...fallbacks]]: the spread of an array gives its items;
    an inherited value is not iterable, no more than [undefined] would be,
    and the spread throws a [TypeError] ([None]). *)
Definition modelsToTry (primaryModel : Js.str)
    (fallbacksMap : gmap Js.str (list Js.str)) : option (list Js.str) :=
  match fallbacksOf primaryModel fallbacksMap with
  | Entry fallbacks => Some (primaryModel :: fallbacks)
  | Inherited | Undefined => None
  end.

Section WithTypes.
(** [T]: what a successful operation resolves to. [E]: the values an
    operation can reject with ([catch (error: any)]). *)
Context {T E : Type}.

(** Truthiness of a rejection value; any [Error] object is truthy. *)
Variable truthy : E -> bool.

(** [new Error(`All models failed for ${primaryModel}`)]. *)
Variable allModelsFailed : Js.str -> E.

(** The [TypeError] of a spread of what is not iterable. *)
Variable notIterable : E.

Inductive outcome : Type :=
| Resolved (t : T)
| Rejected (e : E).

(** The operation acts on the outside world [W] (network, quotas), so
    two calls with one model need not agree. *)
Context {W : Type}.
Definition operation : Type := Js.str -> W -> outcome * W.

(** One run: the settled promise, the calls made (model and what the
    call settled to, in order) and the world afterwards. *)
Record run : Type := Run {
  settled : outcome;
  attempts : list (Js.str * outcome);
  world : W
}.

(** The [for (const model of modelsToTry)] loop; the result is [inl] for
    the early [return], [inr lastError] when the loop runs out. *)
Fixpoint tryModels (op : operation) (models : list Js.str)
    (lastError : option E) (w : W)
  : (T + option E) * list (Js.str * outcome) * W :=
  match models with
  | [] => (inr lastError, [], w)
  | model :: rest =>
      match op model w with
      | (Resolved t, w') => (inl t, [(model, Resolved t)], w')
      | (Rejected e, w') =>
          let '(r, att, w'') := tryModels op rest (Some e) w' in
          (r, (model, Rejected e) :: att, w'')
      end
  end.

(** [lastError || new Error(...)]; [lastError] starts as [null]. *)
Definition lastErrorOr (lastError : option E) (primaryModel : Js.str) : E :=
  match lastError with
  | Some e => if truthy e then e else allModelsFailed primaryModel
  | None => allModelsFailed primaryModel
  end.

(** The function is [async]: the [TypeError] of the spread, thrown before
    the loop, rejects the promise it returns. *)
Definition withModelFallback (primaryModel : Js.str)
    (fallbacksMap : gmap Js.str (list Js.str)) (op : operation) (w : W)
  : run :=
  match modelsToTry primaryModel fallbacksMap with
  | None => Run (Rejected notIterable) [] w
  | Some models =>
      match tryModels op models None w with
      | (inl t, att, w') => Run (Resolved t) att w'
      | (inr lastError, att, w') =>
          Run (Rejected (lastErrorOr lastError primaryModel)) att w'
      end
  end.

(** In the words of the specification: the operation is called with each
    model of a list, in order and once, whatever the calls settle to, each
    call acting on the world that the call before it left. The result is
    what the calls settled to, in order, and the world after the last. *)
Fixpoint callEach (op : operation) (models : list Js.str) (w : W)
  : list (Js.str * outcome) * W :=
  match models with
  | [] => ([], w)
  | model :: rest =>
      let '(o, w') := op model w in
      let '(calls, w'') := callEach op rest w' in
      ((model, o) :: calls, w'')
  end.

(** The operation fails for every model of [models], whatever the state of
    the world: it rejects with an error value, and an error value (an
    [Error] object) is truthy. *)
Definition failsFor (models : list Js.str) (op : operation) : Prop :=
  forall model w,
    model ∈ models ->
    exists e w', op model w = (Rejected e, w') /\ truthy e = true.

End WithTypes.

Arguments outcome : clear implicits.
Arguments run : clear implicits.
Arguments operation : clear implicits.

(** The tables of [geminiService.ts]. *)
Definition TEXT_MODEL_FALLBACKS : gmap Js.str (list Js.str) :=
  <[Js.lit "gemini-2.5-pro" := [Js.lit "gemini-2.5-flash"]]>
  (<[Js.lit "gemini-3-pro-preview" := [Js.lit "gemini-2.5-flash"]]>
  (<[Js.lit "gemini-2.5-flash" := [Js.lit "gemini-flash-lite-latest"]]> ∅)).

Definition IMAGE_MODEL_FALLBACKS : gmap Js.str (list Js.str) :=
  <[Js.lit "gemini-2.5-flash-image-preview" :=
      [Js.lit "gemini-2.5-flash-image"]]> ∅.

(** An operation that fails whatever the model, with the error [503], and
    that records in the world the models it was called with. *)
Definition unavailable : operation unit Js.str (list Js.str) :=
  fun model calls => (Rejected (Js.lit "503"), calls ++ [model]).

(** An operation that is out of quota for [gemini-2.5-pro] and answers for
    every other model with the name of the model, recording its calls. *)
Definition proOutOfQuota : operation Js.str Js.str (list Js.str) :=
  fun model calls =>
    if bool_decide (model = Js.lit "gemini-2.5-pro")
    then (Rejected (Js.lit "429"), calls ++ [model])
    else (Resolved model, calls ++ [model]).

(** The errors of the examples: any non-empty text is truthy. *)
Definition ALL_MODELS_FAILED (primaryModel : Js.str) : Js.str :=
  (Js.lit "All models failed for " ++ primaryModel)%list.
Definition NOT_ITERABLE : Js.str := Js.lit "TypeError: fallbacks is not iterable".

End Fallback.


(** ** Data model

    [types.ts] is not part of the sources at hand; each record below lists
    the fields that the handlers read or write, under the names they use. *)

(** Modelled from the spec: the [MemoryState] type of the missing [types.ts],
    a fixed set of named string buffers. *)
Module MemoryState.
Record t : Type := Make {
  memoryZone : Js.str;
  storyMemory : Js.str;
  longTermMemory : Js.str;
  coreMemory : Js.str;
  characterRecord : Js.str;
  inventory : Js.str
}.
End MemoryState.

(** [DEFAULT_MEMORY]; the inventory text (a Chinese phrase for "no items
    yet") is written as its code units. *)
Definition DEFAULT_MEMORY : MemoryState.t :=
  MemoryState.Make [] [] [] [] [] [26242; 26080; 29289; 21697]%N.

(** Modelled from the spec: one entry of [StorySegment.versions] in the
    missing [types.ts], a snapshot of text, choices, visual prompt, mood and
    location. *)
Module Version.
Record t : Type := Make {
  text : Js.str;
  choices : list Js.str;
  visualPrompt : Js.str;
  mood : Js.str;
  location : option Js.str
}.
End Version.

(** Modelled from the spec: the [StorySegment] type of the missing
    [types.ts]. *)
Module StorySegment.
Record t : Type := Make {
  id : Js.str;
  text : Js.str;
  choices : list Js.str;
  visualPrompt : Js.str;
  mood : Js.str;
  activeCharacterName : option Js.str;
  location : option Js.str;
  triggeredEventId : option Js.str;
  affinityChanges : option (gmap Js.str Z);
  newMemories : option MemoryState.t;
  causedBy : option Js.str;
  chapterId : option Js.str;
  backgroundImage : option Js.str;
  storyName : option Js.str;
  versions : option (list Version.t);
  currentVersionIndex : option Z
}.

(** [{ ...s, choices }] *)
Definition withChoices (choices' : list Js.str) (s : t) : t :=
  Make (id s) (text s) choices' (visualPrompt s) (mood s)
    (activeCharacterName s) (location s) (triggeredEventId s)
    (affinityChanges s) (newMemories s) (causedBy s) (chapterId s)
    (backgroundImage s) (storyName s) (versions s) (currentVersionIndex s).

(** [{ ...s, causedBy, chapterId }] *)
Definition withCause (causedBy' chapterId' : option Js.str) (s : t) : t :=
  Make (id s) (text s) (choices s) (visualPrompt s) (mood s)
    (activeCharacterName s) (location s) (triggeredEventId s)
    (affinityChanges s) (newMemories s) causedBy' chapterId'
    (backgroundImage s) (storyName s) (versions s) (currentVersionIndex s).

(** [{ ...s, id, backgroundImage }] *)
Definition withIdAndBackground (id' : Js.str) (bg : option Js.str) (s : t)
  : t :=
  Make id' (text s) (choices s) (visualPrompt s) (mood s)
    (activeCharacterName s) (location s) (triggeredEventId s)
    (affinityChanges s) (newMemories s) (causedBy s) (chapterId s)
    bg (storyName s) (versions s) (currentVersionIndex s).

(** The segment after its version list and active index are set and its
    live fields are overwritten with those of version [v]. *)
Definition showVersion (vs : list Version.t) (idx : Z) (v : Version.t)
    (s : t) : t :=
  Make (id s) (Version.text v) (Version.choices v) (Version.visualPrompt v)
    (Version.mood v) (activeCharacterName s) (Version.location v)
    (triggeredEventId s) (affinityChanges s) (newMemories s) (causedBy s)
    (chapterId s) (backgroundImage s) (storyName s) (Some vs) (Some idx).
End StorySegment.

(** Modelled from the spec: [PlotChapter.trackedStats] of the missing
    [types.ts]. *)
Module TrackedStats.
Record t : Type := Make {
  currentWordCount : Z;
  eventsTriggered : Z;
  interactionsCount : Z
}.
(** [{ currentWordCount: 0, eventsTriggered: 0, interactionsCount: 0 }] *)
Definition zero : t := Make 0 0 0.
End TrackedStats.

(** Modelled from the spec: [PlotChapter.completionCriteria] of the missing
    [types.ts]. *)
Module CompletionCriteria.
Record t : Type := Make {
  minKeyEvents : Z;
  minInteractions : Z
}.
(** [{ minKeyEvents: 1, minInteractions: 1 }] *)
Definition one : t := Make 1 1.
End CompletionCriteria.

(** The lifecycle of a chapter: ['pending' | 'active' | 'completed']. *)
Inductive ChapterStatus : Type := pending | active | completed.

#[global] Instance ChapterStatus_eq_dec : EqDecision ChapterStatus.
Proof. solve_decision. Defined.

(** Modelled from the spec: the [PlotChapter] type of the missing
    [types.ts]. *)
Module PlotChapter.
Record t : Type := Make {
  id : Js.str;
  title : Js.str;
  summary : Js.str;
  targetWordCount : Z;
  keyEvents : Js.str;
  keyCharacters : option (list Js.str);
  pacing : Js.str;
  status : ChapterStatus;
  trackedStats : option TrackedStats.t;
  completionCriteria : option CompletionCriteria.t;
  prerequisites : list Js.str;
  finishedTurnCount : option Z
}.

(** [{ ...c, status }] *)
Definition withStatus (st : ChapterStatus) (c : t) : t :=
  Make (id c) (title c) (summary c) (targetWordCount c) (keyEvents c)
    (keyCharacters c) (pacing c) st (trackedStats c) (completionCriteria c)
    (prerequisites c) (finishedTurnCount c).

(** [{ ...c, trackedStats }] *)
Definition withTrackedStats (stats : TrackedStats.t) (c : t) : t :=
  Make (id c) (title c) (summary c) (targetWordCount c) (keyEvents c)
    (keyCharacters c) (pacing c) (status c) (Some stats)
    (completionCriteria c) (prerequisites c) (finishedTurnCount c).

(** [c.finishedTurnCount = n] *)
Definition withFinishedTurnCount (n : Z) (c : t) : t :=
  Make (id c) (title c) (summary c) (targetWordCount c) (keyEvents c)
    (keyCharacters c) (pacing c) (status c) (trackedStats c)
    (completionCriteria c) (prerequisites c) (Some n).
End PlotChapter.

(** Modelled from the spec: the [ScheduledEvent] type of the missing
    [types.ts]. *)
Module ScheduledEvent.
Inductive Status : Type := pending | completed.
Record t : Type := Make {
  id : Js.str;
  description : Js.str;
  status : Status;
  createdTurn : Z
}.
Definition withStatus (st : Status) (e : t) : t :=
  Make (id e) (description e) st (createdTurn e).
End ScheduledEvent.

(** Modelled from the spec: the [SupportingCharacter] type of the missing
    [types.ts]; [affinity] may be missing ([c.affinity || 0]). *)
Module SupportingCharacter.
Record t : Type := Make {
  id : Js.str;
  name : Js.str;
  role : Js.str;
  affinity : option Z;
  initialAffinity : option Z;
  avatar : option Js.str
}.
Definition withAffinity (a : Z) (c : t) : t :=
  Make (id c) (name c) (role c) (Some a) (initialAffinity c) (avatar c).
Definition withAvatar (img : Js.str) (c : t) : t :=
  Make (id c) (name c) (role c) (affinity c) (initialAffinity c) (Some img).
End SupportingCharacter.

(** Modelled from the spec: the protagonist ([Character]) of the missing
    [types.ts]; a skill is kept as its level. *)
Module Character.
Record t : Type := Make {
  name : Js.str;
  trait : Js.str;
  avatar : option Js.str;
  skills : list Z
}.
Definition withAvatar (img : Js.str) (c : t) : t :=
  Make (name c) (trait c) (Some img) (skills c).
(** [skills.reduce((acc, s) => acc + s.level, 0)] *)
Definition totalSkillLevel (c : t) : Z :=
  fold_left (fun acc level => acc + level) (skills c) 0.
End Character.

(** Modelled from the spec: the [GameContext] type of the missing
    [types.ts], the aggregate root of a session. *)
Module GameContext.
Record t : Type := Make {
  sessionId : Js.str;
  storyName : option Js.str;
  genre : Js.str;
  character : Character.t;
  supportingCharacters : list SupportingCharacter.t;
  history : list StorySegment.t;
  currentSegment : option StorySegment.t;
  lastUpdated : Z;
  memories : MemoryState.t;
  scheduledEvents : option (list ScheduledEvent.t);
  plotBlueprint : option (list PlotChapter.t)
}.

(** [context.plotBlueprint || []] *)
Definition blueprint (c : t) : list PlotChapter.t :=
  default [] (plotBlueprint c).

(** [context.scheduledEvents || []] *)
Definition events (c : t) : list ScheduledEvent.t :=
  default [] (scheduledEvents c).
End GameContext.

(** [DEFAULT_CONTEXT]; [StoryGenre.FANTASY] is written as its name. *)
Definition DEFAULT_CONTEXT : GameContext.t :=
  GameContext.Make [] None (Js.lit "FANTASY")
    (Character.Make [] [] None []) [] [] None 0 DEFAULT_MEMORY
    (Some []) (Some []).

(** [SaveType] *)
Inductive SaveType : Type := AUTO | MANUAL | SETUP.

#[global] Instance SaveType_eq_dec : EqDecision SaveType.
Proof. solve_decision. Defined.

(** Modelled from the spec: the [SavedGame] checkpoint record of the missing
    [types.ts]. *)
Module SavedGame.
Record t : Type := Make {
  id : Js.str;
  sessionId : Js.str;
  storyName : option Js.str;
  storyId : option Js.str;
  parentId : option Js.str;
  timestamp : Z;
  genre : Js.str;
  characterName : Js.str;
  summary : Js.str;
  location : option Js.str;
  context : GameContext.t;
  type : SaveType;
  choiceText : option Js.str;
  turnCount : Z;
  totalSkillLevel : Z
}.
End SavedGame.

(** ** The hook state and its collaborators *)

Inductive GameState : Type := LANDING | SETUP_SCREEN | LOADING | PLAYING.

(** The texts passed to [setError], by the place that sets them. *)
Inductive Message : Type :=
| NameAndTraitRequired      (* handleStartGame, blank name or trait *)
| ProtagonistNameRequired   (* handleAutoPlanBlueprint, blank name *)
| GenreRequired             (* handleAutoPlanBlueprint, no genre *)
| AdvanceFailed             (* handleChoice, catch *)
| CannotRegenerateNode      (* handleRegenerate, node without a cause *)
| RegenerateFailed          (* handleRegenerate, catch *)
| OpeningFailed             (* handleStartGame, catch, no message *)
| PlanFailed                (* handleAutoPlanBlueprint, catch, no message *)
| Thrown (message : Js.str) (* [e.message] of a caught error *).

(** What an awaited promise settles to; a rejection carries [e.message]. *)
Inductive settled (A : Type) : Type :=
| Fulfilled (a : A)
| Failed (message : Js.str).
Arguments Fulfilled {A} a.
Arguments Failed {A} message.

(** [setError(e.message || fallback)] *)
Definition messageOr (message : Js.str) (fallback : Message) : Message :=
  if Js.truthy message then Thrown message else fallback.

Module Mode.
(** [regenerationMode: 'full' | 'text' | 'choices'] *)
Inductive t : Type := full | text | choices.
Definition isChoices (m : t) : bool :=
  match m with choices => true | _ => false end.
End Mode.

(** The arguments of [GeminiService.advanceStory] that vary between the
    calls of the hook. *)
Module AdvanceStoryArgs.
Record t : Type := Make {
  history : list StorySegment.t;
  userChoice : Js.str;
  plotBlueprint : list PlotChapter.t;
  regenerationMode : Mode.t
}.
End AdvanceStoryArgs.

(** One chapter of the parsed reply of the planning call (the properties of
    its response schema). *)
Module RawChapter.
Record t : Type := Make {
  title : Js.str;
  summary : Js.str;
  targetWordCount : option Z;
  keyEvents : Js.str;
  keyCharacters : option (list Js.str);
  pacing : option Js.str
}.
End RawChapter.

Module RawCharacter.
Record t : Type := Make {
  name : Js.str;
  role : Js.str
}.
End RawCharacter.

(** [JSON.parse(cleanJson(response.text || "{}"))] of the planning call:
    an array of chapters, or an object with optional [chapters] and
    [newCharacters]. *)
Inductive RawPlan : Type :=
| RawArray (chapters : list RawChapter.t)
| RawObject (chapters : option (list RawChapter.t))
    (newCharacters : option (list RawCharacter.t)).

Module PlanConfig.
Record t : Type := Make {
  chapterCount : Z;
  wordCountRange : Z * Z;
  newCharCount : Z;
  newOrgCount : Z;
  customGuidance : option Js.str
}.
(** The default value of the [config] parameter of [autoPlanBlueprint]. *)
Definition default : t := Make 3 (3000, 5000) 3 1 None.
End PlanConfig.

(** The collaborators of one handler call: the generative backend, the
    identifier and clock sources, the random source and the abort signal.
    [generateUUID k], [dateNow k] and [aborted k] are the results of the
    [k]-th call, respectively check, inside the handler. *)
Module Env.
Record t : Type := Make {
  advanceStory : AdvanceStoryArgs.t -> settled StorySegment.t;
  generateOpening : list PlotChapter.t -> settled StorySegment.t;
  planReply : settled RawPlan;
  generateCharacterAvatar : settled Js.str;
  generateSceneImage : settled Js.str;
  generateSupportingAvatar : SupportingCharacter.t -> settled Js.str;
  generateUUID : nat -> Js.str;
  dateNow : nat -> Z;
  randomBelow21 : nat -> Z;
  aborted : nat -> bool
}.
End Env.

(** The state of [useGameEngine] that the handlers below touch, and the
    calls they made to [GeminiService.advanceStory] and to
    [StorageService.saveGame], oldest first. *)
Module Hook.
Record t : Type := Make {
  gameState : GameState;
  context : GameContext.t;
  savedGames : list SavedGame.t;
  isLoading : bool;
  error : option Message;
  lastAutoSaveId : option Js.str;
  currentLoadedSaveId : option Js.str;
  advanceStoryCalls : list AdvanceStoryArgs.t;
  storageSaves : list SavedGame.t
}.

Definition setGameState (g : GameState) (h : t) : t :=
  Make g (context h) (savedGames h) (isLoading h) (error h)
    (lastAutoSaveId h) (currentLoadedSaveId h) (advanceStoryCalls h)
    (storageSaves h).

Definition setContext (c : GameContext.t) (h : t) : t :=
  Make (gameState h) c (savedGames h) (isLoading h) (error h)
    (lastAutoSaveId h) (currentLoadedSaveId h) (advanceStoryCalls h)
    (storageSaves h).

(** [setSavedGames(prev => f(prev))] *)
Definition setSavedGames (f : list SavedGame.t -> list SavedGame.t) (h : t)
  : t :=
  Make (gameState h) (context h) (f (savedGames h)) (isLoading h) (error h)
    (lastAutoSaveId h) (currentLoadedSaveId h) (advanceStoryCalls h)
    (storageSaves h).

Definition setIsLoading (b : bool) (h : t) : t :=
  Make (gameState h) (context h) (savedGames h) b (error h)
    (lastAutoSaveId h) (currentLoadedSaveId h) (advanceStoryCalls h)
    (storageSaves h).

Definition setError (e : option Message) (h : t) : t :=
  Make (gameState h) (context h) (savedGames h) (isLoading h) e
    (lastAutoSaveId h) (currentLoadedSaveId h) (advanceStoryCalls h)
    (storageSaves h).

Definition setLastAutoSaveId (i : option Js.str) (h : t) : t :=
  Make (gameState h) (context h) (savedGames h) (isLoading h) (error h)
    i (currentLoadedSaveId h) (advanceStoryCalls h) (storageSaves h).

Definition setCurrentLoadedSaveId (i : option Js.str) (h : t) : t :=
  Make (gameState h) (context h) (savedGames h) (isLoading h) (error h)
    (lastAutoSaveId h) i (advanceStoryCalls h) (storageSaves h).

(** A call of [GeminiService.advanceStory] is made. *)
Definition callAdvanceStory (a : AdvanceStoryArgs.t) (h : t) : t :=
  Make (gameState h) (context h) (savedGames h) (isLoading h) (error h)
    (lastAutoSaveId h) (currentLoadedSaveId h) (advanceStoryCalls h ++ [a])
    (storageSaves h).

(** [StorageService.saveGame(save)] *)
Definition saveGame (s : SavedGame.t) (h : t) : t :=
  Make (gameState h) (context h) (savedGames h) (isLoading h) (error h)
    (lastAutoSaveId h) (currentLoadedSaveId h) (advanceStoryCalls h)
    (storageSaves h ++ [s]).
End Hook.

(** ** ChapterTracker: the bookkeeping shared by [handleStartGame] and
    [handleChoice] *)

Module Tracker.

(** [activeCharName && chapter.keyCharacters?.some(kc =>
    activeCharName.includes(kc))] *)
Definition isKeyInteraction (chapter : PlotChapter.t) (seg : StorySegment.t)
  : bool :=
  match StorySegment.activeCharacterName seg with
  | Some activeCharName =>
      Js.truthy activeCharName
      && match PlotChapter.keyCharacters chapter with
         | Some keyCharacters =>
             existsb (fun kc => Js.includes activeCharName kc) keyCharacters
         | None => false
         end
  | None => false
  end.

(** The three updates of [stats], a copy of [chapter.trackedStats] or of the
    zero record. *)
Definition trackSegment (chapter : PlotChapter.t) (seg : StorySegment.t)
  : TrackedStats.t :=
  let stats := default TrackedStats.zero (PlotChapter.trackedStats chapter) in
  let currentWordCount :=
    TrackedStats.currentWordCount stats
    + Z.of_nat (length (StorySegment.text seg)) in
  let eventsTriggered :=
    if Js.carries (StorySegment.triggeredEventId seg)
    then TrackedStats.eventsTriggered stats + 1
    else TrackedStats.eventsTriggered stats in
  let interactionsCount :=
    if isKeyInteraction chapter seg
    then TrackedStats.interactionsCount stats + 1
    else TrackedStats.interactionsCount stats in
  TrackedStats.Make currentWordCount eventsTriggered interactionsCount.

(** [chapter.completionCriteria || { minKeyEvents: 1, minInteractions: 1 }] *)
Definition criteriaOf (chapter : PlotChapter.t) : CompletionCriteria.t :=
  default CompletionCriteria.one (PlotChapter.completionCriteria chapter).

(** [isWordGoalReached && isEventGoalReached && isInteractGoalReached] *)
Definition goalsReached (chapter : PlotChapter.t) (stats : TrackedStats.t)
  : bool :=
  let criteria := criteriaOf chapter in
  let isWordGoalReached :=
    TrackedStats.currentWordCount stats >=? PlotChapter.targetWordCount chapter in
  let isEventGoalReached :=
    TrackedStats.eventsTriggered stats
    >=? Js.orNum (CompletionCriteria.minKeyEvents criteria) 0 in
  let isInteractGoalReached :=
    TrackedStats.interactionsCount stats
    >=? Js.orNum (CompletionCriteria.minInteractions criteria) 0 in
  isWordGoalReached && isEventGoalReached && isInteractGoalReached.

(** [updatedBlueprint.findIndex(c => c.status === 'active')] together with
    the chapter found; [None] stands for [-1]. *)
Definition findActive (blueprint : list PlotChapter.t)
  : option (nat * PlotChapter.t) :=
  list_find (fun c => PlotChapter.status c = active) blueprint.

(** The blueprint block of [handleChoice]: [updatedBlueprint] after the
    turn that produced [nextSegment]. *)
Definition advanceBlueprint (nextSegment : StorySegment.t)
    (blueprint : list PlotChapter.t) : list PlotChapter.t :=
  match findActive blueprint with
  | None => blueprint
  | Some (activeChapterIndex, found) =>
      let stats := trackSegment found nextSegment in
      let chapter := PlotChapter.withTrackedStats stats found in
      if goalsReached chapter stats then
        let chapter :=
          PlotChapter.withFinishedTurnCount
            (Js.orNumOpt (PlotChapter.finishedTurnCount chapter) 0 + 1)
            (PlotChapter.withStatus completed chapter) in
        let updatedBlueprint :=
          match blueprint !! (activeChapterIndex + 1)%nat with
          | Some next =>
              (* activeChapterIndex + 1 < updatedBlueprint.length *)
              <[(activeChapterIndex + 1)%nat :=
                  PlotChapter.withStatus active next]> blueprint
          | None => blueprint
          end in
        <[activeChapterIndex := chapter]> updatedBlueprint
      else <[activeChapterIndex := chapter]> blueprint
  end.

(** [context.plotBlueprint.map((c, i) => i === 0 ? { ...c, status: 'active' }
    : c)] *)
Definition activateFirst (blueprint : list PlotChapter.t)
  : list PlotChapter.t :=
  imap (fun i c => if (i =? 0)%nat then PlotChapter.withStatus active c else c)
    blueprint.

(** The statistics of the opening segment, booked on every active chapter
    ([startingBlueprint] of [handleStartGame]). *)
Definition trackOpening (openingSegment : StorySegment.t)
    (initialBlueprint : list PlotChapter.t) : list PlotChapter.t :=
  map (fun chapter =>
         if bool_decide (PlotChapter.status chapter = active)
         then PlotChapter.withTrackedStats
                (trackSegment chapter openingSegment) chapter
         else chapter)
    initialBlueprint.

(** One entry of [processedChapters] in [autoPlanBlueprint]. *)
Definition processChapter (config : PlanConfig.t) (uuid : Js.str)
    (c : RawChapter.t) : PlotChapter.t :=
  PlotChapter.Make uuid (RawChapter.title c) (RawChapter.summary c)
    (Z.max (fst (PlanConfig.wordCountRange config))
       (Z.min (Js.orNumOpt (RawChapter.targetWordCount c) 3000)
          (snd (PlanConfig.wordCountRange config))))
    (RawChapter.keyEvents c) (RawChapter.keyCharacters c)
    (Js.orOpt (RawChapter.pacing c) (Js.lit "standard"))
    pending (Some TrackedStats.zero) (Some CompletionCriteria.one) [] None.

(** [GeminiService.autoPlanBlueprint], from the parsed reply on. *)
Definition autoPlanBlueprint (env : Env.t) (config : option PlanConfig.t)
  : settled (list PlotChapter.t * list RawCharacter.t) :=
  let config := default PlanConfig.default config in
  match Env.planReply env with
  | Failed m => Failed m
  | Fulfilled rawData =>
      let rawChapters :=
        match rawData with
        | RawArray cs => cs
        | RawObject cs _ => default [] cs
        end in
      let newChars :=
        match rawData with
        | RawArray _ => []
        | RawObject _ ncs => default [] ncs
        end in
      Fulfilled
        (imap (fun i c => processChapter config (Env.generateUUID env i) c)
           rawChapters,
         newChars)
  end.

(** Number of chapters whose status is ['active']. *)
Definition activeCount (blueprint : list PlotChapter.t) : nat :=
  length (filter (fun c => PlotChapter.status c = active) blueprint).


(** The chapter that a completed active chapter becomes. *)
Definition finished (stats : TrackedStats.t) (chapter : PlotChapter.t)
  : PlotChapter.t :=
  PlotChapter.withFinishedTurnCount
    (Js.orNumOpt (PlotChapter.finishedTurnCount chapter) 0 + 1)
    (PlotChapter.withStatus completed
       (PlotChapter.withTrackedStats stats chapter)).

(** [1] for an active chapter, [0] otherwise. *)
Definition isActiveNat (c : PlotChapter.t) : nat :=
  if decide (PlotChapter.status c = active) then 1%nat else 0%nat.

(** In the words of the specification: the segment carries a triggered
    event identifier. *)
Definition carriesEventId (seg : StorySegment.t) : Prop :=
  exists eventId,
    StorySegment.triggeredEventId seg = Some eventId /\ eventId <> [].

(** In the words of the specification: the segment carries an active
    character name in which some key character name of the chapter occurs. *)
Definition meetsKeyCharacter (chapter : PlotChapter.t) (seg : StorySegment.t)
  : Prop :=
  exists activeCharName keyCharacters kc pre post,
    StorySegment.activeCharacterName seg = Some activeCharName
    /\ activeCharName <> []
    /\ PlotChapter.keyCharacters chapter = Some keyCharacters
    /\ kc ∈ keyCharacters
    /\ activeCharName = pre ++ kc ++ post.

End Tracker.

(** ** SessionEngine: the handlers of [useGameEngine] *)

Module Engine.

(** [arr.slice(0, e)]: a negative end counts from the end of the array. *)
Definition slice0 {A} (arr : list A) (e : Z) : list A :=
  let len := Z.of_nat (length arr) in
  let final := if e <? 0 then Z.max (len + e) 0 else Z.min e len in
  take (Z.to_nat final) arr.

(** [text.substring(0, 50) + "..."] *)
Definition summaryOf (text : Js.str) : Js.str :=
  Js.substring text 0 50 ++ Js.lit "...".

(** The updater passed to [setSavedGames] by [handleChoice]. *)
Definition autoSaveUpdater (saveObj : SavedGame.t)
    (prevSaves : list SavedGame.t) : list SavedGame.t :=
  let alreadySaved :=
    existsb (fun s =>
               bool_decide (SavedGame.storyId s = SavedGame.storyId saveObj)
               && bool_decide
                    (SavedGame.sessionId s = SavedGame.sessionId saveObj))
      prevSaves in
  if alreadySaved then prevSaves else saveObj :: prevSaves.

(** [updatedSupportingChars] of [handleChoice]. *)
Definition applyAffinity (nextSegment : StorySegment.t)
    (cs : list SupportingCharacter.t) : list SupportingCharacter.t :=
  match StorySegment.affinityChanges nextSegment with
  | Some changes =>
      map (fun c =>
             match changes !! SupportingCharacter.name c with
             | Some delta =>
                 if delta =? 0 then c
                 else SupportingCharacter.withAffinity
                        (Js.orNumOpt (SupportingCharacter.affinity c) 0 + delta)
                        c
             | None => c
             end) cs
  | None => cs
  end.

(** [updatedEvents]: the triggered event, if any, becomes completed. *)
Definition completeEvent (triggeredEventId : option Js.str)
    (events : list ScheduledEvent.t) : list ScheduledEvent.t :=
  if Js.carries triggeredEventId then
    map (fun e =>
           if bool_decide (Some (ScheduledEvent.id e) = triggeredEventId)
           then ScheduledEvent.withStatus ScheduledEvent.completed e
           else e) events
  else events.

(** The history a turn starts from: [context.history], or its prefix when
    the choice is replayed from an earlier segment. *)
Definition baseHistory (context : GameContext.t) (fromIndex : option Z)
  : list StorySegment.t :=
  match fromIndex with
  | Some i =>
      if i <? Z.of_nat (length (GameContext.history context)) - 1
      then slice0 (GameContext.history context) (i + 1)
      else GameContext.history context
  | None => GameContext.history context
  end.

(** [segmentWithChoice] of [handleChoice]: the generated segment with the
    choice that caused it and the identifier of the chapter found active. *)
Definition segmentWithChoice (context : GameContext.t) (choice : Js.str)
    (nextSegment : StorySegment.t) : StorySegment.t :=
  let updatedBlueprint :=
    Tracker.advanceBlueprint nextSegment (GameContext.blueprint context) in
  let activeChapterIndex :=
    fst <$> Tracker.findActive (GameContext.blueprint context) in
  StorySegment.withCause (Some choice)
    (i ← activeChapterIndex; PlotChapter.id <$> updatedBlueprint !! i)
    nextSegment.

(** [newContext] of [handleChoice]. *)
Definition turnContext (env : Env.t) (context : GameContext.t)
    (history : list StorySegment.t) (choice : Js.str)
    (nextSegment : StorySegment.t) : GameContext.t :=
  let updatedBlueprint :=
    Tracker.advanceBlueprint nextSegment (GameContext.blueprint context) in
  let updatedSupportingChars :=
    applyAffinity nextSegment (GameContext.supportingCharacters context) in
  let updatedEvents :=
    completeEvent (StorySegment.triggeredEventId nextSegment)
      (GameContext.events context) in
  let segmentWithChoice := segmentWithChoice context choice nextSegment in
  GameContext.Make
    (Js.or (GameContext.sessionId context) (Env.generateUUID env 0))
    (GameContext.storyName context)
    (GameContext.genre context)
    (GameContext.character context)
    updatedSupportingChars
    (history ++ [segmentWithChoice])
    (Some segmentWithChoice)
    (Env.dateNow env 0)
    (default (GameContext.memories context)
       (StorySegment.newMemories nextSegment))
    (Some updatedEvents)
    (Some updatedBlueprint).

(** [saveObj] of [handleChoice]: the auto checkpoint of the turn. *)
Definition turnSave (env : Env.t) (history : list StorySegment.t)
    (choice : Js.str) (segment : StorySegment.t) (newContext : GameContext.t)
  : SavedGame.t :=
  SavedGame.Make (Env.generateUUID env 1)
    (GameContext.sessionId newContext)
    (GameContext.storyName newContext)
    (Some (StorySegment.id segment))
    (StorySegment.id <$> last history)
    (Env.dateNow env 1)
    (GameContext.genre newContext)
    (Character.name (GameContext.character newContext))
    (summaryOf (StorySegment.text segment))
    (StorySegment.location segment)
    newContext AUTO (Some choice)
    (Z.of_nat (length (GameContext.history newContext)))
    (Character.totalSkillLevel (GameContext.character newContext)).

(** The auto-checkpoint path that ends a turn: the checkpoint list is
    updated, the identifier of the last auto save is recorded and the record
    is handed to the storage service. *)
Definition autoCheckpoint (saveObj : SavedGame.t) (h : Hook.t) : Hook.t :=
  let h := Hook.setSavedGames (autoSaveUpdater saveObj) h in
  let h :=
    Hook.setLastAutoSaveId
      (if Js.carries (SavedGame.storyId saveObj)
       then SavedGame.storyId saveObj else None) h in
  Hook.saveGame saveObj h.

(** The call that [handleChoice] makes to the backend. *)
Definition turnArgs (context : GameContext.t) (choice : Js.str)
    (fromIndex : option Z) : AdvanceStoryArgs.t :=
  AdvanceStoryArgs.Make (baseHistory context fromIndex) choice
    (GameContext.blueprint context) Mode.full.

(** [handleChoice(choice, fromIndex)], the version with chapter tracking. *)
Definition handleChoice (env : Env.t) (choice : Js.str)
    (fromIndex : option Z) (h : Hook.t) : Hook.t :=
  if Hook.isLoading h then h
  else
    let context := Hook.context h in
    let history := baseHistory context fromIndex in
    let h := Hook.setIsLoading true h in
    let args := turnArgs context choice fromIndex in
    let h := Hook.callAdvanceStory args h in
    let h :=
      match Env.advanceStory env args with
      | Failed _ => Hook.setError (Some AdvanceFailed) h
      | Fulfilled nextSegment =>
          let newContext :=
            turnContext env context history choice nextSegment in
          let saveObj :=
            turnSave env history choice
              (segmentWithChoice context choice nextSegment) newContext in
          let h := Hook.setContext newContext h in
          autoCheckpoint saveObj h
      end in
    Hook.setIsLoading false h.

(** The segment after a [full] or [text] regeneration produced
    [newSegment]: the first regeneration snapshots the live fields as
    version 0, the new rendering is pushed and shown. (In the source [push]
    extends in place an array that the superseded segment object shares;
    the model follows the new segment.) *)
Definition pushVersion (newSegment : StorySegment.t) (currentSeg : StorySegment.t)
  : StorySegment.t :=
  let versions :=
    match StorySegment.versions currentSeg with
    | Some vs => vs
    | None =>
        [Version.Make (StorySegment.text currentSeg)
           (StorySegment.choices currentSeg)
           (StorySegment.visualPrompt currentSeg)
           (StorySegment.mood currentSeg) None]
    end in
  let newVersion :=
    Version.Make (StorySegment.text newSegment)
      (StorySegment.choices newSegment)
      (StorySegment.visualPrompt newSegment)
      (StorySegment.mood newSegment)
      (StorySegment.location newSegment) in
  let versions := versions ++ [newVersion] in
  StorySegment.showVersion versions (Z.of_nat (length versions) - 1)
    newVersion currentSeg.

(** [handleRegenerate(mode)]. The updater given to [setContext] runs on the
    context the handler was called with (one writer at a time). *)
Definition handleRegenerate (env : Env.t) (mode : Mode.t) (h : Hook.t)
  : Hook.t :=
  let context := Hook.context h in
  let lastIdx := Z.of_nat (length (GameContext.history context)) - 1 in
  match last (GameContext.history context) with
  | None => h (* lastIdx < 0 *)
  | Some lastSegment =>
      if negb (Mode.isChoices mode) && (lastIdx >? 0)
         && negb (Js.carries (StorySegment.causedBy lastSegment))
      then Hook.setError (Some CannotRegenerateNode) h
      else
        let h := Hook.setError None (Hook.setIsLoading true h) in
        let h :=
          if Mode.isChoices mode then
            let args :=
              AdvanceStoryArgs.Make (GameContext.history context) []
                (GameContext.blueprint context) Mode.choices in
            let h := Hook.callAdvanceStory args h in
            match Env.advanceStory env args with
            | Failed _ => Hook.setError (Some RegenerateFailed) h
            | Fulfilled newSegment =>
                let updated :=
                  StorySegment.withChoices (StorySegment.choices newSegment)
                    lastSegment in
                Hook.setContext
                  (GameContext.Make
                     (GameContext.sessionId context)
                     (GameContext.storyName context)
                     (GameContext.genre context)
                     (GameContext.character context)
                     (GameContext.supportingCharacters context)
                     (<[Z.to_nat lastIdx := updated]>
                        (GameContext.history context))
                     (Some updated)
                     (Env.dateNow env 0)
                     (GameContext.memories context)
                     (GameContext.scheduledEvents context)
                     (GameContext.plotBlueprint context))
                  h
            end
          else
            let historyContext := slice0 (GameContext.history context) lastIdx in
            let causedBy := Js.orOpt (StorySegment.causedBy lastSegment) [] in
            let args :=
              AdvanceStoryArgs.Make historyContext causedBy
                (GameContext.blueprint context) mode in
            let h := Hook.callAdvanceStory args h in
            match Env.advanceStory env args with
            | Failed _ => Hook.setError (Some RegenerateFailed) h
            | Fulfilled newSegment =>
                let currentSeg := pushVersion newSegment lastSegment in
                Hook.setContext
                  (GameContext.Make
                     (GameContext.sessionId context)
                     (GameContext.storyName context)
                     (GameContext.genre context)
                     (GameContext.character context)
                     (GameContext.supportingCharacters context)
                     (<[Z.to_nat lastIdx := currentSeg]>
                        (GameContext.history context))
                     (Some currentSeg)
                     (Env.dateNow env 0)
                     (default (GameContext.memories context)
                        (StorySegment.newMemories newSegment))
                     (GameContext.scheduledEvents context)
                     (GameContext.plotBlueprint context))
                  h
            end in
        Hook.setIsLoading false h
  end.

Inductive Direction : Type := prev | next.

(** The updater of [handleSwitchVersion(segmentId, direction)]. *)
Definition switchVersion (now : Z) (segmentId : Js.str) (direction : Direction)
    (context : GameContext.t) : GameContext.t :=
  match list_find (fun s => StorySegment.id s = segmentId)
          (GameContext.history context) with
  | None => context (* idx === -1 *)
  | Some (idx, seg) =>
      match StorySegment.versions seg with
      | None => context
      | Some versions =>
          let len := Z.of_nat (length versions) in
          if len <? 2 then context
          else
            let newIdx :=
              Js.orNumOpt (StorySegment.currentVersionIndex seg) 0
              + match direction with next => 1 | prev => -1 end in
            let newIdx := if newIdx <? 0 then len - 1 else newIdx in
            let newIdx := if newIdx >=? len then 0 else newIdx in
            if bool_decide (Some newIdx = StorySegment.currentVersionIndex seg)
            then context
            else
              match versions !! Z.to_nat newIdx with
              | None => context (* not reached: 0 <= newIdx < len *)
              | Some v =>
                  let seg' := StorySegment.showVersion versions newIdx v seg in
                  let isCurrent :=
                    bool_decide
                      (StorySegment.id <$> GameContext.currentSegment context
                       = Some segmentId) in
                  GameContext.Make
                    (GameContext.sessionId context)
                    (GameContext.storyName context)
                    (GameContext.genre context)
                    (GameContext.character context)
                    (GameContext.supportingCharacters context)
                    (<[idx := seg']> (GameContext.history context))
                    (if isCurrent then Some seg'
                     else GameContext.currentSegment context)
                    now
                    (GameContext.memories context)
                    (GameContext.scheduledEvents context)
                    (GameContext.plotBlueprint context)
              end
      end
  end.

Definition handleSwitchVersion (env : Env.t) (segmentId : Js.str)
    (direction : Direction) (h : Hook.t) : Hook.t :=
  Hook.setContext
    (switchVersion (Env.dateNow env 0) segmentId direction (Hook.context h)) h.

(** [handleStartNewGameSetup] *)
Definition handleStartNewGameSetup (h : Hook.t) : Hook.t :=
  Hook.setGameState SETUP_SCREEN (Hook.setContext DEFAULT_CONTEXT h).

(** [handleLoadGame(save, forceSetup)]: the saved context, with an empty
    list for missing events or blueprint, on the setup screen or in play. *)
Definition handleLoadGame (save : SavedGame.t) (forceSetup : bool)
    (h : Hook.t) : Hook.t :=
  let saved := SavedGame.context save in
  let safeContext :=
    GameContext.Make
      (GameContext.sessionId saved) (GameContext.storyName saved)
      (GameContext.genre saved) (GameContext.character saved)
      (GameContext.supportingCharacters saved) (GameContext.history saved)
      (GameContext.currentSegment saved) (GameContext.lastUpdated saved)
      (GameContext.memories saved)
      (Some (GameContext.events saved))
      (Some (GameContext.blueprint saved)) in
  let h := Hook.setContext safeContext h in
  let h :=
    if forceSetup || bool_decide (SavedGame.type save = SETUP)
    then Hook.setGameState SETUP_SCREEN h
    else Hook.setGameState PLAYING h in
  Hook.setCurrentLoadedSaveId (Some (SavedGame.id save)) h.

(** The [catch] of [handleStartGame]: an abort is silent, anything else
    returns to the setup screen with the error shown. *)
Definition startFailed (message : Js.str) (h : Hook.t) : Hook.t :=
  if bool_decide (message = Js.lit "Aborted") then h
  else
    Hook.setError (Some (messageOr message OpeningFailed))
      (Hook.setGameState SETUP_SCREEN h).

(** [supportingCharPromises]: a character without avatar gets one when its
    generation succeeds and is kept as it is otherwise. *)
Definition backfillAvatars (env : Env.t) (cs : list SupportingCharacter.t)
  : list SupportingCharacter.t :=
  map (fun sc =>
         if Js.carries (SupportingCharacter.avatar sc) then sc
         else
           match Env.generateSupportingAvatar env sc with
           | Fulfilled scAvatar => SupportingCharacter.withAvatar scAvatar sc
           | Failed _ => sc
           end) cs.

(** The code units of the default story name and of the choice text of the
    opening checkpoint (two Chinese phrases). *)
Definition UNNAMED_STORY : Js.str := [26410; 21629; 21517; 25925; 20107]%N.
Definition START_JOURNEY : Js.str := [24320; 21551; 26053; 31243]%N.

(** [handleStartGame]. *)
Definition handleStartGame (env : Env.t) (h : Hook.t) : Hook.t :=
  let context := Hook.context h in
  if negb (Js.truthy (Character.name (GameContext.character context)))
     || negb (Js.truthy (Character.trait (GameContext.character context)))
  then Hook.setError (Some NameAndTraitRequired) h
  else
    let h := Hook.setCurrentLoadedSaveId None (Hook.setError None h) in
    let newSessionId :=
      Js.or (GameContext.sessionId context) (Env.generateUUID env 0) in
    let initialBlueprint :=
      match GameContext.plotBlueprint context with
      | Some blueprint => Tracker.activateFirst blueprint
      | None => []
      end in
    let h := Hook.setGameState LOADING h in
    match Env.generateOpening env initialBlueprint with
    | Failed m => startFailed m h
    | Fulfilled opening =>
        if Env.aborted env 0 then h
        else
          match Env.generateCharacterAvatar env, Env.generateSceneImage env with
          | Failed m, _ => startFailed m h
          | Fulfilled _, Failed m => startFailed m h
          | Fulfilled avatarBase64, Fulfilled sceneBase64 =>
              let updatedSupportingChars :=
                backfillAvatars env (GameContext.supportingCharacters context) in
              if Env.aborted env 1 || Env.aborted env 2 then h
              else
                let openingSegment :=
                  StorySegment.withIdAndBackground
                    (Js.or (StorySegment.id opening) (Env.generateUUID env 1))
                    (Some sceneBase64) opening in
                let startingBlueprint :=
                  Tracker.trackOpening openingSegment initialBlueprint in
                let startingScheduledEvents :=
                  completeEvent (StorySegment.triggeredEventId openingSegment)
                    (GameContext.events context) in
                let newContext :=
                  GameContext.Make newSessionId
                    (Some (Js.orOpt (StorySegment.storyName opening)
                             (Js.orOpt (GameContext.storyName context)
                                UNNAMED_STORY)))
                    (GameContext.genre context)
                    (Character.withAvatar avatarBase64
                       (GameContext.character context))
                    updatedSupportingChars
                    [openingSegment]
                    (Some openingSegment)
                    (Env.dateNow env 0)
                    (default DEFAULT_MEMORY (StorySegment.newMemories opening))
                    (Some startingScheduledEvents)
                    (Some startingBlueprint) in
                let saveObj :=
                  SavedGame.Make (Env.generateUUID env 2) newSessionId
                    (GameContext.storyName newContext)
                    (Some (StorySegment.id openingSegment))
                    None
                    (Env.dateNow env 1)
                    (GameContext.genre newContext)
                    (Character.name (GameContext.character newContext))
                    (summaryOf (StorySegment.text openingSegment))
                    (StorySegment.location openingSegment)
                    newContext AUTO (Some START_JOURNEY) 1
                    (Character.totalSkillLevel
                       (GameContext.character newContext)) in
                let h := Hook.setContext newContext h in
                let h := Hook.setGameState PLAYING h in
                let h := Hook.setSavedGames (cons saveObj) h in
                Hook.saveGame saveObj h
          end
    end.

(** [mappedNewChars] of [handleAutoPlanBlueprint]: every new character gets
    a fresh identifier and a random affinity in [-10, 10]. *)
Definition mapNewCharacters (env : Env.t) (offset : nat)
    (newCharacters : list RawCharacter.t) : list SupportingCharacter.t :=
  imap (fun i nc =>
          let randomAffinity := Env.randomBelow21 env i - 10 in
          SupportingCharacter.Make (Env.generateUUID env (offset + i)%nat)
            (RawCharacter.name nc) (RawCharacter.role nc)
            (Some randomAffinity) (Some randomAffinity) None)
    newCharacters.

(** [handleAutoPlanBlueprint(config)]. *)
Definition handleAutoPlanBlueprint (env : Env.t) (config : option PlanConfig.t)
    (h : Hook.t) : Hook.t :=
  let context := Hook.context h in
  if negb (Js.truthy (Character.name (GameContext.character context)))
  then Hook.setError (Some ProtagonistNameRequired) h
  else if negb (Js.truthy (GameContext.genre context))
  then Hook.setError (Some GenreRequired) h
  else
    let h := Hook.setError None (Hook.setIsLoading true h) in
    let h :=
      match Tracker.autoPlanBlueprint env config with
      | Failed m => Hook.setError (Some (messageOr m PlanFailed)) h
      | Fulfilled (chapters, newCharacters) =>
          let mappedNewChars :=
            mapNewCharacters env (length chapters) newCharacters in
          let existing := GameContext.supportingCharacters context in
          Hook.setContext
            (GameContext.Make
               (GameContext.sessionId context)
               (GameContext.storyName context)
               (GameContext.genre context)
               (GameContext.character context)
               (existing
                ++ List.filter
                     (fun nc =>
                        negb (existsb
                                (fun ec =>
                                   bool_decide
                                     (SupportingCharacter.name ec
                                      = SupportingCharacter.name nc))
                                existing))
                     mappedNewChars)
               (GameContext.history context)
               (GameContext.currentSegment context)
               (GameContext.lastUpdated context)
               (GameContext.memories context)
               (GameContext.scheduledEvents context)
               (Some
                  (match config, GameContext.plotBlueprint context with
                   | Some _, Some (c :: cs) => (c :: cs) ++ chapters
                   | _, _ => chapters
                   end)))
            h
      end in
    Hook.setIsLoading false h.

(** *** New stories

    [newSetup]: the setup screen of a new story. It is opened from
    [DEFAULT_CONTEXT] by [handleStartNewGameSetup]; the form edits the
    protagonist, the genre and the other fields outside the blueprint, and
    chapters come from the planner. A checkpoint that [handleLoadGame]
    puts on the setup screen is not a new setup: it brings the blueprint of
    the checkpoint, with the progress booked on it.

    [newStory]: a new setup that is started, and then played by turns,
    planned, regenerated and switched, with no checkpoint loaded in
    between. The hook runs other sessions as well: a checkpoint can be
    loaded at any time, in play or onto the setup screen, and a session
    started from there. *)
Inductive newSetup : Hook.t -> Prop :=
| setup_new h :
    newSetup (handleStartNewGameSetup h)
| setup_edit h context' :
    newSetup h ->
    GameContext.plotBlueprint context'
    = GameContext.plotBlueprint (Hook.context h) ->
    newSetup (Hook.setContext context' h)
| setup_plan env config h :
    newSetup h ->
    newSetup (handleAutoPlanBlueprint env config h)
| setup_retry env h :
    (* a start that did not go through leaves the setup as it was *)
    newSetup h ->
    Hook.context (handleStartGame env h) = Hook.context h ->
    newSetup (handleStartGame env h).

Inductive newStory : Hook.t -> Prop :=
| story_start env h :
    newSetup h ->
    newStory (handleStartGame env h)
| story_turn env choice fromIndex h :
    newStory h ->
    newStory (handleChoice env choice fromIndex h)
| story_plan env config h :
    newStory h ->
    newStory (handleAutoPlanBlueprint env config h)
| story_regenerate env mode h :
    newStory h ->
    newStory (handleRegenerate env mode h)
| story_switch env segmentId direction h :
    newStory h ->
    newStory (handleSwitchVersion env segmentId direction h).

End Engine.

(** ** A sample session, used to exercise the statements below *)

Module Scenario.
Local Open Scope string_scope.

(** [n] code units of prose. *)
Definition prose (n : nat) : Js.str := repeat 97%N n.

Definition segment (id : string) (words : nat) (event name : option string)
    (cause : option string) : StorySegment.t :=
  StorySegment.Make (Js.lit id) (prose words)
    [(Js.lit "go on from " ++ Js.lit id)%list; Js.lit "turn back"]
    (Js.lit "a road at dusk")
    (Js.lit "PEACEFUL") (Js.lit <$> name) None (Js.lit <$> event) None None
    (Js.lit <$> cause) None None None None None.

Definition chapter (id : string) (status : ChapterStatus) (target : Z)
    (who : string) : PlotChapter.t :=
  PlotChapter.Make (Js.lit id) (Js.lit id) [] target [] (Some [Js.lit who])
    (Js.lit "standard") status (Some TrackedStats.zero)
    (Some CompletionCriteria.one) [] None.

Definition protagonist : Character.t :=
  Character.Make (Js.lit "Ash") (Js.lit "bold") None [2; 3].

(** The answers of the backend: the turn played on a history of one, two
    or more segments brings 100, 150 and 60 code units; the second carries
    a triggered event, the third an active character. *)
Definition env : Env.t :=
  Env.Make
    (fun args =>
       match length (AdvanceStoryArgs.history args) with
       | 1%nat => Fulfilled (segment "s1" 100 None None None)
       | 2%nat => Fulfilled (segment "s2" 150 (Some "evt-1") None None)
       | _ => Fulfilled (segment "s3" 60 None (Some "Captain Mira") None)
       end)
    (fun _ => Fulfilled (segment "s0" 40 None None None))
    (Fulfilled
       (RawArray
          [RawChapter.Make (Js.lit "Departure") [] (Some 300) []
             (Some [Js.lit "Mira"]) None;
           RawChapter.Make (Js.lit "Arrival") [] (Some 400) []
             (Some [Js.lit "Oren"]) None]))
    (Fulfilled (Js.lit "avatar")) (Fulfilled (Js.lit "scene"))
    (fun _ => Failed (Js.lit "no avatar"))
    (fun k => (Js.lit "uuid-" ++ [N.of_nat (48 + k)])%list)
    (fun k => 1000 + Z.of_nat k)
    (fun _ => 10)
    (fun _ => false).


Definition blank : Hook.t :=
  Hook.Make LANDING DEFAULT_CONTEXT [] false None None None [] [].

(** A session in play: the opening segment, a first chapter that is active
    with nothing booked yet, and a second chapter that waits. *)
Definition started : Hook.t :=
  Hook.Make PLAYING
    (GameContext.Make (Js.lit "session-1") (Some (Js.lit "Dusk Road"))
       (Js.lit "FANTASY") protagonist []
       [segment "s0" 40 None None None]
       (Some (segment "s0" 40 None None None)) 1000 DEFAULT_MEMORY
       (Some [])
       (Some [chapter "c1" active 300 "Mira"; chapter "c2" pending 400 "Oren"]))
    [] false None None None [] [].

(** The same session made on the setup screen: a new setup, the protagonist
    filled in, two chapters planned with targets kept within [100, 1000]. *)
Definition prepared : Hook.t :=
  Engine.handleAutoPlanBlueprint env
    (Some (PlanConfig.Make 2 (100, 1000) 0 0 None))
    (Hook.setContext
       (GameContext.Make [] None (Js.lit "FANTASY") protagonist [] [] None 0
          DEFAULT_MEMORY (Some []) (Some []))
       (Engine.handleStartNewGameSetup blank)).

(** A history of two segments whose last one records no cause. *)
Definition causeless : Hook.t :=
  Hook.Make PLAYING
    (GameContext.Make (Js.lit "session-1") (Some (Js.lit "Dusk Road"))
       (Js.lit "FANTASY") protagonist []
       [segment "s0" 40 None None None; segment "s1" 100 None None None]
       (Some (segment "s1" 100 None None None)) 1000 DEFAULT_MEMORY
       (Some []) (Some []))
    [] false None None None [] [].

(** A segment with three versions, the second one shown. *)
Definition versions3 : list Version.t :=
  [Version.Make (prose 1) [] [] (Js.lit "PEACEFUL") None;
   Version.Make (prose 2) [] [] (Js.lit "TENSE") None;
   Version.Make (prose 3) [] [] (Js.lit "BATTLE") None].

Definition versioned : Hook.t :=
  Hook.Make PLAYING
    (GameContext.Make (Js.lit "session-1") None (Js.lit "FANTASY")
       protagonist []
       [segment "s0" 40 None None None;
        StorySegment.showVersion versions3 1
          (Version.Make (prose 2) [] [] (Js.lit "TENSE") None)
          (segment "s1" 2 None None (Some "go on"))]
       None 1000 DEFAULT_MEMORY (Some []) (Some []))
    [] false None None None [] [].

End Scenario.

(** ** The checkpoint library: deleting, undoing, importing, saving by hand *)

Module Library.

(** The calls made to [StorageService] by the handlers of this module
    ([saveGame] is logged by the hook state). *)
Inductive StorageCall : Type :=
| DeleteGame (id : Js.str)
| DeleteGames (ids : list Js.str)
| SaveGames (saves : list SavedGame.t).

(** The hook state together with the undo stack of deleted checkpoints, the
    storage calls made (oldest first) and the open flags of the modals. *)
Record t : Type := Make {
  hook : Hook.t;
  deletedSavesStack : list (list SavedGame.t);
  storageCalls : list StorageCall;
  modals : gmap Js.str bool
}.

Definition setHook (f : Hook.t -> Hook.t) (s : t) : t :=
  Make (f (hook s)) (deletedSavesStack s) (storageCalls s) (modals s).

(** [setDeletedSavesStack(prev => f(prev))] *)
Definition setDeletedSavesStack
    (f : list (list SavedGame.t) -> list (list SavedGame.t)) (s : t) : t :=
  Make (hook s) (f (deletedSavesStack s)) (storageCalls s) (modals s).

Definition callStorage (c : StorageCall) (s : t) : t :=
  Make (hook s) (deletedSavesStack s) (storageCalls s ++ [c]) (modals s).

(** [toggleModal(modal, show)]; the timer that closes a notification two
    seconds later is a later event. *)
Definition toggleModal (modal : Js.str) (show : bool) (s : t) : t :=
  Make (hook s) (deletedSavesStack s) (storageCalls s)
    (<[modal := show]> (modals s)).

(** [deleteSaveGame(id)] *)
Definition deleteSaveGame (id : Js.str) (s : t) : t :=
  let savedGames := Hook.savedGames (hook s) in
  match List.find (fun x => bool_decide (SavedGame.id x = id)) savedGames with
  | Some saveToDelete =>
      let s := setDeletedSavesStack (fun prev => prev ++ [[saveToDelete]]) s in
      let newSaves := filter (fun x => SavedGame.id x <> id) savedGames in
      let s := setHook (Hook.setSavedGames (fun _ => newSaves)) s in
      callStorage (DeleteGame id) s
  | None => s
  end.

(** [deleteSession(sessionId)] *)
Definition deleteSession (sessionId : Js.str) (s : t) : t :=
  let savedGames := Hook.savedGames (hook s) in
  let sessionSaves :=
    filter (fun x => SavedGame.sessionId x = sessionId) savedGames in
  if (0 <? length sessionSaves)%nat then
    let s := setDeletedSavesStack (fun prev => prev ++ [sessionSaves]) s in
    let idsToDelete := map SavedGame.id sessionSaves in
    let newSaves :=
      filter (fun x => SavedGame.sessionId x <> sessionId) savedGames in
    let s := setHook (Hook.setSavedGames (fun _ => newSaves)) s in
    callStorage (DeleteGames idsToDelete) s
  else s.

(** [handleUndoDelete] *)
Definition handleUndoDelete (s : t) : t :=
  match last (deletedSavesStack s) with
  | None => s (* deletedSavesStack.length === 0 *)
  | Some lastDeletedGroup =>
      let s := setDeletedSavesStack (fun prev => Engine.slice0 prev (-1)) s in
      let s :=
        setHook (Hook.setSavedGames (fun prev => prev ++ lastDeletedGroup)) s in
      callStorage (SaveGames lastDeletedGroup) s
  end.

(** The [forEach] of [importSaveGame]: [(newSaves, savesToAdd, count)]. *)
Definition importOne (acc : list SavedGame.t * list SavedGame.t * Z)
    (x : SavedGame.t) : list SavedGame.t * list SavedGame.t * Z :=
  let '(newSaves, savesToAdd, count) := acc in
  if negb (existsb (fun exist =>
                      bool_decide (SavedGame.id exist = SavedGame.id x))
             newSaves)
  then (newSaves ++ [x], savesToAdd ++ [x], count + 1)
  else acc.

(** [importSaveGame(saves)], with the count it returns; a single record is
    the list of that record. *)
Definition importSaveGame (toImport : list SavedGame.t) (s : t) : Z * t :=
  let '(newSaves, savesToAdd, count) :=
    fold_left importOne toImport (Hook.savedGames (hook s), [], 0) in
  if count >? 0 then
    let s := setHook (Hook.setSavedGames (fun _ => newSaves)) s in
    (count, callStorage (SaveGames savesToAdd) s)
  else (count, s).

Definition SAVE_NOTIFICATION : Js.str := Js.lit "saveNotification".
Definition SAVE_EXISTING_NOTIFICATION : Js.str :=
  Js.lit "saveExistingNotification".

(** [handleManualSave] *)
Definition handleManualSave (env : Env.t) (s : t) : t :=
  let context := Hook.context (hook s) in
  match GameContext.currentSegment context with
  | None => s
  | Some currentSegment =>
      let alreadySaved :=
        existsb (fun x =>
                   bool_decide
                     (SavedGame.sessionId x = GameContext.sessionId context)
                   && bool_decide
                        (SavedGame.storyId x
                         = Some (StorySegment.id currentSegment)))
          (Hook.savedGames (hook s)) in
      if alreadySaved then toggleModal SAVE_EXISTING_NOTIFICATION true s
      else
        let history := GameContext.history context in
        let save :=
          SavedGame.Make (Env.generateUUID env 0)
            (GameContext.sessionId context)
            (GameContext.storyName context)
            (Some (StorySegment.id currentSegment))
            (if (1 <? length history)%nat
             then StorySegment.id <$> history !! (length history - 2)%nat
             else None)
            (Env.dateNow env 0)
            (GameContext.genre context)
            (Character.name (GameContext.character context))
            (Engine.summaryOf (StorySegment.text currentSegment))
            (StorySegment.location currentSegment)
            context MANUAL
            (StorySegment.causedBy currentSegment)
            (Z.of_nat (length history))
            (Character.totalSkillLevel (GameContext.character context)) in
        let s := setHook (Hook.setSavedGames (cons save)) s in
        let s := setHook (Hook.saveGame save) s in
        toggleModal SAVE_NOTIFICATION true s
  end.

End Library.

(** ** Editing the story in place: segment text and scheduled events *)

Module Editor.

(** [{ ...seg, text: newText }] *)
Definition withText (newText : Js.str) (s : StorySegment.t) : StorySegment.t :=
  StorySegment.Make (StorySegment.id s) newText (StorySegment.choices s)
    (StorySegment.visualPrompt s) (StorySegment.mood s)
    (StorySegment.activeCharacterName s) (StorySegment.location s)
    (StorySegment.triggeredEventId s) (StorySegment.affinityChanges s)
    (StorySegment.newMemories s) (StorySegment.causedBy s)
    (StorySegment.chapterId s) (StorySegment.backgroundImage s)
    (StorySegment.storyName s) (StorySegment.versions s)
    (StorySegment.currentVersionIndex s).

(** [seg.id === segmentId ? { ...seg, text: newText } : seg] *)
Definition retext (segmentId newText : Js.str) (seg : StorySegment.t)
  : StorySegment.t :=
  if bool_decide (StorySegment.id seg = segmentId) then withText newText seg
  else seg.

(** The updater of [handleUpdateSegmentText(segmentId, newText)]. *)
Definition updateSegmentText (now : Z) (segmentId newText : Js.str)
    (prev : GameContext.t) : GameContext.t :=
  let newHistory := map (retext segmentId newText) (GameContext.history prev) in
  let newCurrent := retext segmentId newText <$> GameContext.currentSegment prev in
  GameContext.Make (GameContext.sessionId prev) (GameContext.storyName prev)
    (GameContext.genre prev) (GameContext.character prev)
    (GameContext.supportingCharacters prev) newHistory newCurrent now
    (GameContext.memories prev) (GameContext.scheduledEvents prev)
    (GameContext.plotBlueprint prev).

Definition handleUpdateSegmentText (env : Env.t) (segmentId newText : Js.str)
    (h : Hook.t) : Hook.t :=
  Hook.setContext
    (updateSegmentText (Env.dateNow env 0) segmentId newText (Hook.context h))
    h.

(** [{ ...prev, scheduledEvents }] *)
Definition withScheduledEvents (events : list ScheduledEvent.t)
    (prev : GameContext.t) : GameContext.t :=
  GameContext.Make (GameContext.sessionId prev) (GameContext.storyName prev)
    (GameContext.genre prev) (GameContext.character prev)
    (GameContext.supportingCharacters prev) (GameContext.history prev)
    (GameContext.currentSegment prev) (GameContext.lastUpdated prev)
    (GameContext.memories prev) (Some events) (GameContext.plotBlueprint prev).

(** [handleAddScheduledEvent(event)]; [description] is what the event
    carries besides the three fields set here. *)
Definition handleAddScheduledEvent (env : Env.t) (description : Js.str)
    (h : Hook.t) : Hook.t :=
  let context := Hook.context h in
  let newEvent :=
    ScheduledEvent.Make (Env.generateUUID env 0) description
      ScheduledEvent.pending
      (Z.of_nat (length (GameContext.history context))) in
  Hook.setContext
    (withScheduledEvents (GameContext.events context ++ [newEvent]) context) h.

(** [handleUpdateScheduledEvent(updatedEvent)] *)
Definition handleUpdateScheduledEvent (updatedEvent : ScheduledEvent.t)
    (h : Hook.t) : Hook.t :=
  let context := Hook.context h in
  Hook.setContext
    (withScheduledEvents
       (map (fun e =>
               if bool_decide
                    (ScheduledEvent.id e = ScheduledEvent.id updatedEvent)
               then updatedEvent else e)
          (GameContext.events context))
       context) h.

(** [handleDeleteScheduledEvent(id)] *)
Definition handleDeleteScheduledEvent (id : Js.str) (h : Hook.t) : Hook.t :=
  let context := Hook.context h in
  Hook.setContext
    (withScheduledEvents
       (filter (fun e => ScheduledEvent.id e <> id)
          (GameContext.events context))
       context) h.

End Editor.

(** ** Sample data for the checkpoint library and the service *)

Module Samples.
Local Open Scope string_scope.

(** A checkpoint of story node [story] in session [session]. *)
Definition checkpoint (id session story : string) : SavedGame.t :=
  SavedGame.Make (Js.lit id) (Js.lit session) None (Some (Js.lit story)) None
    1000 (Js.lit "FANTASY") (Js.lit "Ash") [] None
    (Hook.context Scenario.started) AUTO None 1 5.

(** Three checkpoints, two of them of the session in play. *)
Definition shelf : Hook.t :=
  Hook.Make PLAYING (Hook.context Scenario.started)
    [checkpoint "a" "session-1" "s0"; checkpoint "b" "session-2" "s0";
     checkpoint "c" "session-1" "s1"]
    false None None None [] [].

(** A session whose only chapter is completed when a second one is planned
    behind it: no chapter is active. *)
Definition stalled : Hook.t :=
  Hook.Make PLAYING
    (GameContext.Make (Js.lit "session-1") (Some (Js.lit "Dusk Road"))
       (Js.lit "FANTASY") Scenario.protagonist
       [SupportingCharacter.Make (Js.lit "sc-1") (Js.lit "Mira")
          (Js.lit "captain") None (Some 3) None;
        SupportingCharacter.Make (Js.lit "sc-2") (Js.lit "Oren")
          (Js.lit "smith") (Some 4) (Some 4) None]
       [Scenario.segment "s0" 40 None None None]
       (Some (Scenario.segment "s0" 40 None None None)) 1000 DEFAULT_MEMORY
       (Some [ScheduledEvent.Make (Js.lit "evt-1") (Js.lit "a storm")
                ScheduledEvent.pending 0])
       (Some [Scenario.chapter "c1" completed 300 "Mira";
              Scenario.chapter "c2" pending 400 "Oren"]))
    [] false None None None [] [].


(** A generated segment in which Mira appears: it moves her affinity by 2
    and leaves Oren's where it is, triggers the storm and is attributed by
    the backend to a chapter of its own choosing. *)
Definition meeting : StorySegment.t :=
  StorySegment.Make (Js.lit "s1") (Scenario.prose 80) [Js.lit "greet her"]
    (Js.lit "a harbour") (Js.lit "PEACEFUL") (Some (Js.lit "Mira"))
    (Some (Js.lit "harbour")) (Some (Js.lit "evt-1"))
    (Some (<[Js.lit "Mira" := 2]> (<[Js.lit "Oren" := 0]> ∅)))
    None None (Some (Js.lit "elsewhere")) None None None None.

(** Collaborators whose backend answers every turn with [meeting]. *)
Definition fond : Env.t :=
  Env.Make (fun _ => Fulfilled meeting)
    (Env.generateOpening Scenario.env) (Env.planReply Scenario.env)
    (Env.generateCharacterAvatar Scenario.env)
    (Env.generateSceneImage Scenario.env)
    (Env.generateSupportingAvatar Scenario.env)
    (Env.generateUUID Scenario.env) (Env.dateNow Scenario.env)
    (Env.randomBelow21 Scenario.env) (Env.aborted Scenario.env).

End Samples.

(** ** Statements about sessions *)

Module Invariant.

(** Chapters are worked through in order: of two chapters, the earlier one
    is completed or the later one still waits. *)
Definition ordered (blueprint : list PlotChapter.t) : Prop :=
  forall i j ci cj,
    blueprint !! i = Some ci -> blueprint !! j = Some cj -> (i < j)%nat ->
    PlotChapter.status ci = completed \/ PlotChapter.status cj = pending.

(** The current segment is the last segment of the history. *)
Definition inStep (context : GameContext.t) : Prop :=
  GameContext.currentSegment context = last (GameContext.history context).

(** The snapshot of the live fields of a segment. *)
Definition shown (seg : StorySegment.t) : Version.t :=
  Version.Make (StorySegment.text seg) (StorySegment.choices seg)
    (StorySegment.visualPrompt seg) (StorySegment.mood seg)
    (StorySegment.location seg).

(** The live fields of a versioned segment are those of the version that
    its index points at. *)
Definition mirrors (seg : StorySegment.t) : Prop :=
  exists versions idx,
    StorySegment.versions seg = Some versions
    /\ StorySegment.currentVersionIndex seg = Some idx
    /\ 0 <= idx
    /\ versions !! Z.to_nat idx = Some (shown seg).

(** At most one segment of the history carries the identifier. *)
Definition identifies (segmentId : Js.str) (history : list StorySegment.t)
  : Prop :=
  forall i j a b,
    history !! i = Some a -> history !! j = Some b ->
    StorySegment.id a = segmentId -> StorySegment.id b = segmentId -> i = j.

End Invariant.

(** ** Playing several turns *)

Module Play.

(** One call of [handleChoice]: the collaborators of the call, the choice
    and the index that the choice is replayed from. *)
Definition turn : Type := Env.t * Js.str * option Z.

(** The calls of [handleChoice] made one after the other. *)
Definition turns (ts : list turn) (h : Hook.t) : Hook.t :=
  fold_left (fun h '(env, choice, fromIndex) =>
               Engine.handleChoice env choice fromIndex h) ts h.

End Play.

(** ** Statements about the normalizer *)

Module Envelope.

(** The two bracket pairs that [cleanJson] looks for. *)
Definition brackets (opener closer : N) : Prop :=
  (opener = Normalizer.lbrace /\ closer = Normalizer.rbrace)
  \/ (opener = Normalizer.lbracket /\ closer = Normalizer.rbracket).

(** A text that [cleanJson] has nothing to strip from: no backtick and no
    control character of the stripped class. *)
Definition plain (s : Js.str) : Prop :=
  Forall (fun c => c <> Normalizer.backtick
                   /\ Normalizer.isControl c = false) s.

(** White space only. *)
Definition blank (s : Js.str) : Prop :=
  Forall (fun c => Js.isWhiteSpace c = true) s.

End Envelope.

(** ** Listing the models of an OpenAI-compatible endpoint *)

Module Models.

(** [s.endsWith(suffix)] *)
Definition endsWith (suffix s : Js.str) : bool :=
  Js.startsWith (rev suffix) (rev s).

(** [s] without its last [n] code units. *)
Definition dropEnd (n : nat) (s : Js.str) : Js.str :=
  take (length s - n) s.

(** [s.replace(/\/$/, '')] *)
Definition stripSlash (s : Js.str) : Js.str :=
  if endsWith (Js.lit "/") s then dropEnd 1 s else s.

(** [s.replace(/\/(chat\/completions|completions|models)$/, '')]: the
    match is the leftmost one, hence the longest of the three routes that
    the text ends with. *)
Definition stripRoute (s : Js.str) : Js.str :=
  if endsWith (Js.lit "/chat/completions") s
  then dropEnd (length (Js.lit "/chat/completions")) s
  else if endsWith (Js.lit "/completions") s
  then dropEnd (length (Js.lit "/completions")) s
  else if endsWith (Js.lit "/models") s
  then dropEnd (length (Js.lit "/models")) s
  else s.

(** [baseUrl] of [fetchOpenAICompatibleModels]. *)
Definition baseUrl (url : Js.str) : Js.str :=
  stripRoute (stripSlash (Js.trim url)).

(** [endpointUrl] of [fetchOpenAICompatibleModels]. *)
Definition endpointUrl (url : Js.str) : Js.str :=
  let baseUrl := baseUrl url in
  if endsWith (Js.lit "/v1") baseUrl
  then baseUrl ++ Js.lit "/models"
  else baseUrl ++ Js.lit "/v1/models".

(** [data.data?.map(m => m.id).filter(id => id && !id.includes('embed'))
    || []]; a model without [id] has [None]. *)
Definition listedModels (data : option (list (option Js.str)))
  : list Js.str :=
  match data with
  | Some models =>
      omap (fun id =>
              match id with
              | Some id =>
                  if Js.truthy id && negb (Js.includes id (Js.lit "embed"))
                  then Some id else None
              | None => None
              end) models
  | None => []
  end.

(** What [fetch] and [response.json()] come to: a rejection, or a response
    with its [ok] flag, its status and the identifiers under [data]. *)
Inductive Reply : Type :=
| Rejects (message : Js.str)
| Responds (ok : bool) (status : Js.str) (data : option (list (option Js.str))).

(** [fetchOpenAICompatibleModels(url, apiKey)] against a backend that
    answers the request to [endpoint] with [fetch endpoint]; [status] is the
    status code as it is printed in the error text. *)
Definition fetchOpenAICompatibleModels (fetch : Js.str -> Reply)
    (url : Js.str) : settled (list Js.str) :=
  match fetch (endpointUrl url) with
  | Rejects message => Failed message
  | Responds false status _ => Failed (Js.lit "Error " ++ status)
  | Responds true _ data => Fulfilled (listedModels data)
  end.

End Models.

(** ** Replacing a text everywhere: [handleGlobalReplace] *)

Module Replace.

(** The replacement text of [String.prototype.replace] for one match of a
    pattern without capture groups: [$$] is a dollar sign, [$&] the matched
    text, [$`] the text before the match and [$'] the text after it; any
    other dollar sign stands for itself. *)
Fixpoint expand (matched before after replacement : Js.str) : Js.str :=
  match replacement with
  | [] => []
  | c :: r =>
      if (c =? 36)%N then
        match r with
        | d :: r' =>
            if (d =? 36)%N then 36%N :: expand matched before after r'
            else if (d =? 38)%N then matched ++ expand matched before after r'
            else if (d =? 96)%N then before ++ expand matched before after r'
            else if (d =? 39)%N then after ++ expand matched before after r'
            else c :: expand matched before after r
        | [] => [c]
        end
      else c :: expand matched before after r
  end.

(** [(s.match(regex) || []).length] for the global pattern that matches the
    non-empty text [find] literally: the matches are taken from the left
    and do not overlap; [skip] code units of the current match are still to
    be passed. *)
Fixpoint countFrom (find : Js.str) (skip : nat) (s : Js.str) : Z :=
  match s with
  | [] => 0
  | _ :: r =>
      match skip with
      | S k => countFrom find k r
      | O =>
          if Js.startsWith find s
          then 1 + countFrom find (length find - 1) r
          else countFrom find O r
      end
  end.

(** [countIn] of [handleGlobalReplace]. *)
Definition countIn (find s : Js.str) : Z := countFrom find O s.

(** [whole.replace(regex, replacement)] from position [pos] of [whole] on,
    where [s] is what is left of [whole]. *)
Fixpoint replaceFrom (find replacement whole : Js.str) (pos skip : nat)
    (s : Js.str) : Js.str :=
  match s with
  | [] => []
  | c :: r =>
      match skip with
      | S k => replaceFrom find replacement whole (S pos) k r
      | O =>
          if Js.startsWith find s
          then expand find (take pos whole)
                 (drop (pos + length find) whole) replacement
               ++ replaceFrom find replacement whole (S pos)
                    (length find - 1) r
          else c :: replaceFrom find replacement whole (S pos) O r
      end
  end.

(** [s.replace(regex, replacement)] *)
Definition replaceAll (find replacement s : Js.str) : Js.str :=
  replaceFrom find replacement s O O s.

(** The string values of [context.memories], in the order of its keys. *)
Definition memoryTexts (m : MemoryState.t) : list Js.str :=
  [MemoryState.memoryZone m; MemoryState.storyMemory m;
   MemoryState.longTermMemory m; MemoryState.coreMemory m;
   MemoryState.characterRecord m; MemoryState.inventory m].

Definition replaceMemories (find replacement : Js.str) (m : MemoryState.t)
  : MemoryState.t :=
  MemoryState.Make
    (replaceAll find replacement (MemoryState.memoryZone m))
    (replaceAll find replacement (MemoryState.storyMemory m))
    (replaceAll find replacement (MemoryState.longTermMemory m))
    (replaceAll find replacement (MemoryState.coreMemory m))
    (replaceAll find replacement (MemoryState.characterRecord m))
    (replaceAll find replacement (MemoryState.inventory m)).

(** The texts of a segment that are searched: its text and its choices. *)
Definition segmentTexts (seg : StorySegment.t) : list Js.str :=
  StorySegment.text seg :: StorySegment.choices seg.

(** [{ ...seg, text: seg.text.replace(...), choices: seg.choices.map(...) }] *)
Definition replaceSegment (find replacement : Js.str) (seg : StorySegment.t)
  : StorySegment.t :=
  StorySegment.withChoices
    (map (replaceAll find replacement) (StorySegment.choices seg))
    (Editor.withText (replaceAll find replacement (StorySegment.text seg)) seg).

(** The segments from [Math.max(0, history.length - 5)] on. *)
Definition recent (history : list StorySegment.t) : list StorySegment.t :=
  drop (length history - 5) history.

(** The texts that the count of [handleGlobalReplace] runs over. *)
Definition searched (context : GameContext.t) : list Js.str :=
  memoryTexts (GameContext.memories context)
  ++ concat (map segmentTexts (recent (GameContext.history context))).

(** [count] of [handleGlobalReplace]. *)
Definition occurrences (find : Js.str) (context : GameContext.t) : Z :=
  fold_left (fun count s => count + countIn find s) (searched context) 0.

(** The updater of [handleGlobalReplace]. *)
Definition replaceContext (now : Z) (find replacement : Js.str)
    (prev : GameContext.t) : GameContext.t :=
  let history := GameContext.history prev in
  GameContext.Make (GameContext.sessionId prev) (GameContext.storyName prev)
    (GameContext.genre prev) (GameContext.character prev)
    (GameContext.supportingCharacters prev)
    (take (length history - 5) history
     ++ map (replaceSegment find replacement) (recent history))
    (replaceSegment find replacement <$> GameContext.currentSegment prev)
    now
    (replaceMemories find replacement (GameContext.memories prev))
    (GameContext.scheduledEvents prev) (GameContext.plotBlueprint prev).

(** [handleGlobalReplace(findText, replaceText)], with the count that it
    returns. *)
Definition handleGlobalReplace (env : Env.t) (findText replaceText : Js.str)
    (h : Hook.t) : Z * Hook.t :=
  if negb (Js.truthy findText) || negb (Js.truthy replaceText) then (0, h)
  else
    let count := occurrences findText (Hook.context h) in
    if count =? 0 then (0, h)
    else
      (count,
       Hook.setContext
         (replaceContext (Env.dateNow env 0) findText replaceText
            (Hook.context h)) h).


End Replace.

(** * Properties *)

(** ** ResponseNormalizer *)

Module NormalizerFacts.
Import Normalizer.

(** Whatever the input, a failed bracket search yields the empty object. *)
Lemma cleanJson_not_located text startIndex endIndex isArray :
  locate (Js.trim (stripFences text)) = (startIndex, endIndex, isArray) ->
  located startIndex endIndex = false ->
  cleanJson text = Js.lit "{}".
Proof.
  intros Hloc Hguard. unfold cleanJson.
  destruct (negb (Js.truthy text)); [reflexivity|].
  rewrite Hloc. cbn beta iota. rewrite Hguard. reflexivity.
Qed.

(** An array opener that is found, with no closing bracket after it, is such
    a failure, and the flag [isArray] is set when it happens. *)
Lemma cleanJson_unclosed_array_general text startIndex endIndex :
  locate (Js.trim (stripFences text)) = (startIndex, endIndex, true) ->
  endIndex < startIndex ->
  cleanJson text = Js.lit "{}" /\ cleanJson text <> Js.lit "[]".
Proof.
  intros Hloc Hlt.
  assert (H : cleanJson text = Js.lit "{}").
  { eapply cleanJson_not_located; [exact Hloc|].
    unfold located.
    assert (Hge : (endIndex >=? startIndex) = false)
      by (rewrite Z.geb_leb; apply Z.leb_gt; lia).
    rewrite Hge. apply andb_false_r. }
  split; [exact H|]. rewrite H. discriminate.
Qed.

(** [indexOf] answers [-1] or a position that holds the needle. *)
Lemma indexOf_found c s :
  Js.indexOf c s = -1
  \/ (0 <= Js.indexOf c s /\ s !! Z.to_nat (Js.indexOf c s) = Some c).
Proof.
  induction s as [|x r IH]; simpl; [left; reflexivity|].
  destruct (N.eqb_spec x c) as [->|Hne]; [right; split; [lia|reflexivity]|].
  destruct IH as [IH|[Hpos Hget]].
  - rewrite IH. left. reflexivity.
  - destruct (Z.ltb_spec (Js.indexOf c r) 0) as [Hlt|_]; [lia|].
    right. split; [lia|].
    replace (Z.to_nat (Js.indexOf c r + 1)) with (S (Z.to_nat (Js.indexOf c r)))
      by lia.
    exact Hget.
Qed.

Lemma trimStart_keeps_last l c :
  Js.isWhiteSpace c = false -> Js.trimStart (l ++ [c]) <> [].
Proof.
  intros Hc. induction l as [|x l IH]; simpl.
  - rewrite Hc. discriminate.
  - destruct (Js.isWhiteSpace x); [exact IH | discriminate].
Qed.

Lemma trim_keeps_head c r :
  Js.isWhiteSpace c = false -> Js.trim (c :: r) <> [].
Proof.
  intros Hc. unfold Js.trim, Js.trimEnd. simpl Js.trimStart. rewrite Hc.
  intros Hnil. apply (f_equal (@rev N)) in Hnil.
  rewrite rev_involutive in Hnil. simpl in Hnil.
  destruct (list_eq_nil_dec (rev r)) as [Hr|Hr].
  - rewrite Hr in Hnil. simpl in Hnil. rewrite Hc in Hnil. discriminate.
  - revert Hnil. generalize (rev r). intros l.
    apply trimStart_keeps_last. exact Hc.
Qed.

(** Once a bracket pair is located, the extracted text starts with its
    opening bracket and is not empty: the choice between ["[]"] and ["{}"]
    behind [cleaned.trim() ||] is never taken. *)
Lemma cleanJson_located_not_empty text startIndex endIndex isArray :
  locate (Js.trim (stripFences text)) = (startIndex, endIndex, isArray) ->
  located startIndex endIndex = true ->
  Js.trim
    (stripControl
       (Js.substring (Js.trim (stripFences text)) startIndex (endIndex + 1)))
  <> [].
Proof.
  set (cleaned := Js.trim (stripFences text)).
  intros Hloc Hguard.
  assert (Hopen : exists c, (c = lbrace \/ c = lbracket)
                   /\ 0 <= startIndex
                   /\ cleaned !! Z.to_nat startIndex = Some c).
  { unfold locate in Hloc. fold cleaned in Hloc.
    destruct (indexOf_found lbrace cleaned) as [Hb|[Hb1 Hb2]];
      destruct (indexOf_found lbracket cleaned) as [Hk|[Hk1 Hk2]].
    - rewrite Hb, Hk in Hloc. simpl in Hloc. inversion Hloc; subst.
      discriminate Hguard.
    - rewrite Hb in Hloc. simpl in Hloc.
      destruct (Z.eqb_spec (Js.indexOf lbracket cleaned) (-1)) as [E|_];
        [lia|]. simpl in Hloc. inversion Hloc; subst. eauto.
    - destruct (Z.eqb_spec (Js.indexOf lbrace cleaned) (-1)) as [E|_];
        [lia|]. rewrite Hk in Hloc. simpl in Hloc.
      inversion Hloc; subst. eauto.
    - destruct (Z.eqb_spec (Js.indexOf lbrace cleaned) (-1)) as [E|_];
        [lia|].
      destruct (Z.eqb_spec (Js.indexOf lbracket cleaned) (-1)) as [E|_];
        [lia|]. simpl in Hloc.
      destruct (Js.indexOf lbrace cleaned <? Js.indexOf lbracket cleaned);
        inversion Hloc; subst; eauto. }
  destruct Hopen as (c & Hc & Hpos & Hget).
  unfold located in Hguard.
  apply andb_prop in Hguard as [_ Hge].
  rewrite Z.geb_leb in Hge. apply Z.leb_le in Hge.
  pose proof (lookup_lt_Some _ _ _ Hget) as Hlen.
  unfold Js.substring.
  set (len := Z.of_nat (length cleaned)).
  assert (Hlen' : startIndex < len) by (unfold len; lia).
  replace (Z.min (Z.min (Z.max startIndex 0) len)
             (Z.min (Z.max (endIndex + 1) 0) len)) with startIndex by lia.
  set (n := Z.to_nat
              (Z.max (Z.min (Z.max startIndex 0) len)
                 (Z.min (Z.max (endIndex + 1) 0) len) - startIndex)).
  assert (Hn : (0 < n)%nat) by (unfold n; lia).
  rewrite (drop_S _ _ _ Hget).
  destruct n as [|n']; [lia|]. simpl take.
  assert (Hcontrol : isControl c = false)
    by (destruct Hc as [->| ->]; reflexivity).
  assert (Hspace : Js.isWhiteSpace c = false)
    by (destruct Hc as [->| ->]; reflexivity).
  unfold stripControl. simpl List.filter. rewrite Hcontrol. simpl negb.
  cbn iota. apply trim_keeps_head. exact Hspace.
Qed.

(** So [cleanJson] answers ["{}"] or the extracted, non-empty text. *)
Lemma cleanJson_cases text :
  cleanJson text = Js.lit "{}"
  \/ exists startIndex endIndex isArray,
       locate (Js.trim (stripFences text)) = (startIndex, endIndex, isArray)
       /\ cleanJson text
          = Js.trim
              (stripControl
                 (Js.substring (Js.trim (stripFences text))
                    startIndex (endIndex + 1))).
Proof.
  unfold cleanJson. destruct (negb (Js.truthy text)); [left; reflexivity|].
  destruct (locate (Js.trim (stripFences text))) as [[s e] isArray] eqn:Hloc.
  cbn beta iota.
  destruct (located s e) eqn:Hguard; [|left; reflexivity].
  right. exists s, e, isArray. split; [reflexivity|].
  pose proof (cleanJson_located_not_empty text s e isArray Hloc Hguard) as Hne.
  revert Hne.
  generalize (Js.trim
                (stripControl
                   (Js.substring (Js.trim (stripFences text)) s (e + 1)))).
  intros out Hne. unfold Js.or.
  destruct out; [contradiction|reflexivity].
Qed.

(** C4 (the code at the failing input). The input [[1, 2] opens an array
    that is never closed: no bracket pair can be located although an array
    opener was found first, and [cleanJson] answers with the empty object,
    not with the empty array. *)
Theorem cleanJson_unclosed_array_returns_object :
  Normalizer.locate
    (Js.trim (Normalizer.stripFences (Js.lit "[1, 2"))) = (0, -1, true)
  /\ Normalizer.cleanJson (Js.lit "[1, 2") = Js.lit "{}"
  /\ Normalizer.cleanJson (Js.lit "[1, 2") <> Js.lit "[]".
Proof.
  split; [vm_compute; reflexivity|].
  split; [vm_compute; reflexivity|].
  vm_compute. discriminate.
Qed.

End NormalizerFacts.

(** ** FallbackInvoker *)

Module FallbackFacts.
Import Fallback.

(** The candidate sequence, when there is one, starts with the preferred
    model. *)
Lemma modelsToTry_Some primaryModel fallbacksMap models :
  modelsToTry primaryModel fallbacksMap = Some models ->
  exists fallbacks,
    models = primaryModel :: fallbacks
    /\ (fallbacksMap !! primaryModel = Some fallbacks
        \/ fallbacksMap !! primaryModel = None /\ fallbacks = []
           /\ primaryModel ∉ OBJECT_PROTOTYPE).
Proof.
  unfold modelsToTry, fallbacksOf, get.
  destruct (fallbacksMap !! primaryModel) as [fallbacks|].
  - intros [= <-]. exists fallbacks. split; [reflexivity|now left].
  - case_bool_decide as Hin; [discriminate|].
    intros [= <-]. exists []. split; [reflexivity|]. right. auto.
Qed.

(** There is no candidate sequence exactly for the inherited names that
    the table has no entry of its own for. *)
Lemma modelsToTry_None primaryModel fallbacksMap :
  modelsToTry primaryModel fallbacksMap = None
  <-> fallbacksMap !! primaryModel = None /\ primaryModel ∈ OBJECT_PROTOTYPE.
Proof.
  unfold modelsToTry, fallbacksOf, get.
  destruct (fallbacksMap !! primaryModel) as [fallbacks|].
  - split; [discriminate|]. intros [Hnone _]. discriminate Hnone.
  - case_bool_decide as Hin; split; auto; try discriminate.
    intros [_ Hin']. contradiction.
Qed.

Section Calls.
Context {T E W : Type}.
Variable truthy : E -> bool.
Variable op : operation T E W.

Lemma callEach_models models w :
  map fst (callEach op models w).1 = models.
Proof.
  revert w. induction models as [|model rest IH]; intros w; [reflexivity|].
  simpl. destruct (op model w) as [o w1]. specialize (IH w1).
  destruct (callEach op rest w1) as [calls w2]. simpl in *. now rewrite IH.
Qed.

(** The calls of the loop are those of the specification over the models
    up to the first one that resolves, or over all of them when none does;
    [lastError] ends as the rejection of the last call. *)
Lemma tryModels_calls models lastError w :
  match tryModels op models lastError w with
  | (inl t, att, w') =>
      exists failed model later,
        models = map fst failed ++ model :: later
        /\ att = failed ++ [(model, Resolved t)]
        /\ Forall (fun a => exists e, a.2 = Rejected e) failed
        /\ callEach op (map fst failed ++ [model]) w = (att, w')
  | (inr lastError', att, w') =>
      Forall (fun a => exists e, a.2 = Rejected e) att
      /\ callEach op models w = (att, w')
      /\ lastError'
         = match last att with
           | Some (_, Rejected e) => Some e
           | _ => lastError
           end
  end.
Proof.
  revert lastError w.
  induction models as [|model rest IH]; intros lastError w.
  - simpl. repeat split. constructor.
  - simpl. destruct (op model w) as [[t|e] w1] eqn:Hop.
    + exists [], model, rest. repeat split; [constructor|].
      simpl. now rewrite Hop.
    + specialize (IH (Some e) w1).
      destruct (tryModels op rest (Some e) w1) as [[[t|le] att] w2].
      * destruct IH as (failed & m & later & -> & -> & Hfailed & Hcalls).
        exists ((model, Rejected e) :: failed), m, later.
        repeat split.
        -- constructor; [now exists e | exact Hfailed].
        -- simpl. rewrite Hop, Hcalls. reflexivity.
      * destruct IH as (Hall & Hcalls & ->). repeat split.
        -- constructor; [now exists e | exact Hall].
        -- rewrite Hcalls. reflexivity.
        -- destruct att as [|a att]; [reflexivity|].
           change (last ((model, Rejected e) :: a :: att))
             with (last (a :: att)).
           destruct (last (a :: att)) as [[m [t|e']]|] eqn:Hl.
           ++ rewrite Forall_forall in Hall.
              destruct (Hall (m, Resolved t)) as [e' He'];
                [now apply last_Some_elem_of in Hl | discriminate He'].
           ++ reflexivity.
           ++ now apply last_None in Hl.
Qed.

(** The loop under an operation that fails for each of the models: every
    model is tried once, in order, and [lastError] ends as the rejection of
    the last call. *)
Lemma tryModels_all_fail models lastError w :
  failsFor truthy models op ->
  exists att w' lastError',
    tryModels op models lastError w = (inr lastError', att, w')
    /\ map fst att = models
    /\ match last att with
       | Some (_, Rejected e) => lastError' = Some e /\ truthy e = true
       | Some (_, Resolved _) => False
       | None => lastError' = lastError
       end.
Proof.
  revert lastError w.
  induction models as [|model rest IH]; intros lastError w Hfails.
  - exists [], w, lastError. repeat split.
  - destruct (Hfails model w) as (e & w1 & Hop & He); [left|].
    destruct (IH (Some e) w1) as (att & w' & le' & Hrun & Hmodels & Hlast).
    { intros m w0 Hm. apply Hfails. now right. }
    exists ((model, Rejected e) :: att), w', le'.
    split; [simpl; rewrite Hop, Hrun; reflexivity|].
    split; [simpl; now rewrite Hmodels|].
    destruct att as [|a att'].
    + simpl in *. split; [exact Hlast | exact He].
    + change (last ((model, Rejected e) :: a :: att')) with (last (a :: att')).
      destruct (last (a :: att')) as [[m o]|] eqn:Hl; [exact Hlast|].
      apply last_None in Hl. discriminate Hl.
Qed.

End Calls.

(** When there is a candidate sequence and the operation fails for every
    candidate, the operation is called exactly once per candidate, in the
    order [primaryModel :: fallbacksMap[primaryModel]] (no fallbacks when
    the table has no property of that name), each call on the world the
    call before left, and the invoker fails with the failure of the last
    call; with no property of that name there is exactly one call, with the
    preferred model. *)
Lemma withModelFallback_all_candidates_fail
    {T E W : Type} (truthy : E -> bool) (allModelsFailed : Js.str -> E)
    (notIterable : E)
    (primaryModel : Js.str) (fallbacksMap : gmap Js.str (list Js.str))
    (op : operation T E W) (w : W) (models : list Js.str) :
  modelsToTry primaryModel fallbacksMap = Some models ->
  failsFor truthy models op ->
  let r := withModelFallback truthy allModelsFailed notIterable primaryModel
             fallbacksMap op w in
  callEach op models w = (attempts r, world r)
  /\ map fst (attempts r) = models
  /\ (exists e, snd <$> last (attempts r) = Some (Rejected e)
                /\ settled r = Rejected e)
  /\ (get fallbacksMap primaryModel = Undefined ->
      exists e w',
        op primaryModel w = (Rejected e, w')
        /\ attempts r = [(primaryModel, Rejected e)]
        /\ world r = w'
        /\ settled r = Rejected e).
Proof.
  intros Hmodels Hfails r.
  destruct (tryModels_all_fail truthy op models None w Hfails)
    as (att & w' & le' & Hrun & Hnames & Hlast).
  pose proof (tryModels_calls op models None w) as Hcalls.
  rewrite Hrun in Hcalls. destruct Hcalls as (_ & Hcalls & _).
  assert (Hr : r = Run (Rejected (lastErrorOr truthy allModelsFailed le'
                                    primaryModel)) att w').
  { unfold r, withModelFallback. rewrite Hmodels, Hrun. reflexivity. }
  destruct (modelsToTry_Some _ _ _ Hmodels) as (fallbacks & -> & Hentry).
  assert (Hfinal : exists m e, last att = Some (m, Rejected e)
                               /\ settled r = Rejected e).
  { rewrite Hr. simpl settled.
    destruct (last att) as [[m [t|e]]|] eqn:Hl.
    - contradiction.
    - destruct Hlast as [-> He]. exists m, e. split; [reflexivity|].
      simpl. now rewrite He.
    - apply last_None in Hl. subst att. discriminate Hnames. }
  destruct Hfinal as (m & e & Hl & Hsettled).
  split; [rewrite Hr; exact Hcalls|].
  split; [rewrite Hr; exact Hnames|].
  split.
  - exists e. split; [|exact Hsettled].
    rewrite Hr. simpl attempts. now rewrite Hl.
  - intros Hundefined.
    assert (fallbacks = []) as ->.
    { unfold get in Hundefined.
      destruct Hentry as [Hsome|(_ & -> & _)]; [|reflexivity].
      rewrite Hsome in Hundefined. discriminate Hundefined. }
    simpl in Hcalls. destruct (op primaryModel w) as [o w1] eqn:Hop.
    injection Hcalls as <- <-.
    simpl in Hl. injection Hl as <- ->.
    exists e, w1. rewrite Hr in *. repeat split. exact Hsettled.
Qed.

(** C5. The claim fails for a preferred model that bears the name of a
    property every object inherits. With the empty table and an operation
    that fails for every model, [withModelFallback("constructor", {},
    operation)] reads the inherited [Object] function as the list of
    fallbacks, the spread throws, and the run is rejected with that
    [TypeError]: the operation is not called at all, where the claim has
    one call with the preferred model and a failure with the error of that
    call. The tables of [geminiService.ts] behave the same. *)
Theorem withModelFallback_inherited_name_no_call :
  let constructor := Js.lit "constructor" in
  let run fallbacksMap :=
    withModelFallback Js.truthy ALL_MODELS_FAILED NOT_ITERABLE constructor
      fallbacksMap unavailable [] in
  failsFor Js.truthy [constructor] unavailable
  /\ get ∅ constructor = Inherited
  /\ modelsToTry constructor ∅ = None
  /\ attempts (run ∅) = []
  /\ world (run ∅) = []
  /\ settled (run ∅) = Rejected NOT_ITERABLE
  /\ unavailable constructor []
     = (Rejected (Js.lit "503"), [constructor])
  /\ world (run TEXT_MODEL_FALLBACKS) = []
  /\ settled (run TEXT_MODEL_FALLBACKS) = Rejected NOT_ITERABLE
  /\ world (run IMAGE_MODEL_FALLBACKS) = []
  /\ settled (run IMAGE_MODEL_FALLBACKS) = Rejected NOT_ITERABLE.
Proof.
  intros constructor run. split.
  { intros model calls _. exists (Js.lit "503"), (calls ++ [model]).
    split; reflexivity. }
  vm_compute. repeat split.
Qed.

(** The same operation and table with a preferred model that names no
    property: one call, with the preferred model, and the run fails with
    the error of that call. *)
Example withModelFallback_no_entry :
  let r := withModelFallback Js.truthy ALL_MODELS_FAILED NOT_ITERABLE
             (Js.lit "gemini-2.5-flash-lite") ∅ unavailable [] in
  attempts r = [(Js.lit "gemini-2.5-flash-lite", Rejected (Js.lit "503"))]
  /\ world r = [Js.lit "gemini-2.5-flash-lite"]
  /\ settled r = Rejected (Js.lit "503").
Proof. vm_compute. repeat split. Qed.

(** The lemma at work on the table of the text models: a failing backend is
    called with the preferred model and then with its substitute, and that
    is all. *)
Example withModelFallback_text_table :
  let r := withModelFallback Js.truthy ALL_MODELS_FAILED NOT_ITERABLE
             (Js.lit "gemini-2.5-pro") TEXT_MODEL_FALLBACKS unavailable [] in
  map fst (attempts r) = [Js.lit "gemini-2.5-pro"; Js.lit "gemini-2.5-flash"]
  /\ world r = [Js.lit "gemini-2.5-pro"; Js.lit "gemini-2.5-flash"]
  /\ settled r = Rejected (Js.lit "503").
Proof.
  intros r.
  assert (Hfails : failsFor Js.truthy
                     [Js.lit "gemini-2.5-pro"; Js.lit "gemini-2.5-flash"]
                     unavailable).
  { intros model calls _. exists (Js.lit "503"), (calls ++ [model]).
    split; reflexivity. }
  destruct (withModelFallback_all_candidates_fail Js.truthy ALL_MODELS_FAILED
              NOT_ITERABLE (Js.lit "gemini-2.5-pro") TEXT_MODEL_FALLBACKS
              unavailable [] _ eq_refl Hfails)
    as (Hcalls & Hnames & _ & _).
  fold r in Hcalls, Hnames.
  split; [exact Hnames|].
  split; [|reflexivity].
  apply (f_equal snd) in Hcalls. simpl in Hcalls. rewrite <- Hcalls.
  reflexivity.
Qed.

(** What [lastError || new Error(...)] does with a rejection value that is
    falsy (an operation that rejects with [undefined], say): the synthetic
    error takes its place. *)
Remark lastErrorOr_falsy {E : Type} (truthy : E -> bool)
    (allModelsFailed : Js.str -> E) (e : E) (primaryModel : Js.str) :
  truthy e = false ->
  lastErrorOr truthy allModelsFailed (Some e) primaryModel
  = allModelsFailed primaryModel.
Proof. intros He. unfold lastErrorOr. now rewrite He. Qed.

End FallbackFacts.

(** ** JavaScript strings: containment *)

Module JsFacts.

Lemma startsWith_prefix p s :
  Js.startsWith p s = true <-> exists post, s = p ++ post.
Proof.
  revert s. induction p as [|a p IH]; intros s; simpl.
  - split; [intros _; exists s; reflexivity | reflexivity].
  - destruct s as [|b s].
    + split; [discriminate | intros [post H]; discriminate H].
    + rewrite andb_true_iff, N.eqb_eq, IH. split.
      * intros [-> [post ->]]. exists post. reflexivity.
      * intros [post H]. injection H as -> ->. split; [reflexivity|eauto].
Qed.

(** [s.includes(sub)] holds exactly when [sub] occurs inside [s]. *)
Lemma includes_substring s sub :
  Js.includes s sub = true <-> exists pre post, s = pre ++ sub ++ post.
Proof.
  induction s as [|x s IH].
  - simpl. rewrite orb_false_r, startsWith_prefix. split.
    + intros [post H]. exists [], post. exact H.
    + intros (pre & post & H). destruct pre; [|discriminate H].
      exists post. exact H.
  - cbn [Js.includes]. rewrite orb_true_iff, startsWith_prefix, IH. split.
    + intros [[post H]|(pre & post & H)].
      * exists [], post. exact H.
      * exists (x :: pre), post. rewrite H. reflexivity.
    + intros (pre & post & H). destruct pre as [|y pre].
      * left. exists post. exact H.
      * right. injection H as -> ->. eauto.
Qed.

End JsFacts.

(** ** ChapterTracker *)

Module TrackerFacts.
Import Tracker.

Lemma carries_spec (o : option Js.str) :
  Js.carries o = true <-> exists s, o = Some s /\ s <> [].
Proof.
  destruct o as [[|c s]|]; simpl; split; try discriminate.
  - intros (s & H & Hne). injection H as <-. contradiction.
  - intros _. eexists. split; [reflexivity|discriminate].
  - reflexivity.
  - intros (s & H & _). discriminate H.
Qed.

Lemma isKeyInteraction_spec chapter seg :
  isKeyInteraction chapter seg = true <-> meetsKeyCharacter chapter seg.
Proof.
  unfold isKeyInteraction, meetsKeyCharacter.
  destruct (StorySegment.activeCharacterName seg) as [name|]; cycle 1.
  { split; [discriminate|]. intros (?&?&?&?&?&H&_). discriminate H. }
  destruct (PlotChapter.keyCharacters chapter) as [kcs|]; cycle 1.
  { rewrite andb_false_r. split; [discriminate|].
    intros (?&?&?&?&?&_&_&H&_). discriminate H. }
  rewrite andb_true_iff, existsb_exists. split.
  - intros [Hname (kc & Hin & Hinc)].
    apply JsFacts.includes_substring in Hinc as (pre & post & Hcat).
    exists name, kcs, kc, pre, post. repeat split; try assumption.
    + intros ->. discriminate Hname.
    + apply list_elem_of_In. exact Hin.
  - intros (name' & kcs' & kc & pre & post & H1 & Hne & H2 & Hin & Hcat).
    injection H1 as <-. injection H2 as <-. split.
    + destruct name; [contradiction|reflexivity].
    + exists kc. split; [apply list_elem_of_In; exact Hin|].
      apply JsFacts.includes_substring. eauto.
Qed.

(** *** The active chapter found by [findIndex] *)

Lemma findActive_Some blueprint i chapter :
  findActive blueprint = Some (i, chapter) ->
  blueprint !! i = Some chapter
  /\ PlotChapter.status chapter = active
  /\ forall j c, blueprint !! j = Some c -> (j < i)%nat ->
                 PlotChapter.status c <> active.
Proof. intros H. apply list_find_Some in H. exact H. Qed.

Lemma findActive_None blueprint :
  findActive blueprint = None ->
  Forall (fun c => PlotChapter.status c <> active) blueprint.
Proof. intros H. apply list_find_None in H. exact H. Qed.

(** *** Counting active chapters *)

Lemma activeCount_cons c l :
  activeCount (c :: l) = (isActiveNat c + activeCount l)%nat.
Proof.
  unfold activeCount, isActiveNat. rewrite filter_cons.
  destruct (decide (PlotChapter.status c = active)); reflexivity.
Qed.

Lemma activeCount_app l1 l2 :
  activeCount (l1 ++ l2) = (activeCount l1 + activeCount l2)%nat.
Proof. unfold activeCount. now rewrite filter_app, length_app. Qed.

Lemma activeCount_insert l i x y :
  l !! i = Some y ->
  (activeCount (<[i:=x]> l) + isActiveNat y
   = activeCount l + isActiveNat x)%nat.
Proof.
  revert i. induction l as [|c l IH]; intros [|i] H; try discriminate.
  - injection H as ->. simpl. rewrite !activeCount_cons. lia.
  - simpl in H. simpl. rewrite !activeCount_cons.
    specialize (IH i H). lia.
Qed.

Lemma activeCount_zero l :
  Forall (fun c => PlotChapter.status c <> active) l <->
  activeCount l = O.
Proof.
  induction l as [|c l IH]; [split; [reflexivity|constructor]|].
  rewrite activeCount_cons, Forall_cons, IH. unfold isActiveNat.
  destruct (decide (PlotChapter.status c = active)); split;
    try lia; tauto.
Qed.

Lemma activeCount_lookup l i c :
  l !! i = Some c -> PlotChapter.status c = active ->
  (1 <= activeCount l)%nat.
Proof.
  revert i. induction l as [|x l IH]; intros [|i] H Hc; try discriminate.
  - injection H as ->. rewrite activeCount_cons. unfold isActiveNat.
    destruct (decide _); [lia|contradiction].
  - rewrite activeCount_cons. specialize (IH i H Hc). lia.
Qed.

(** Counting at most one is the same as: two active chapters are one. *)
Lemma activeCount_le_1 l :
  (activeCount l <= 1)%nat <->
  forall i j ci cj,
    l !! i = Some ci -> l !! j = Some cj ->
    PlotChapter.status ci = active -> PlotChapter.status cj = active ->
    i = j.
Proof.
  induction l as [|c l IH].
  - split; [intros _ i j ci cj H; discriminate H | intros _; cbn; lia].
  - rewrite activeCount_cons. unfold isActiveNat.
    destruct (decide (PlotChapter.status c = active)) as [Hc|Hc].
    + split.
      * intros Hle. assert (Hz : activeCount l = O) by lia.
        apply activeCount_zero in Hz.
        intros [|i] [|j] ci cj Hi Hj Hci Hcj; [reflexivity| | |].
        -- simpl in Hj. apply list_elem_of_lookup_2 in Hj.
           rewrite Forall_forall in Hz. now apply Hz in Hj.
        -- simpl in Hi. apply list_elem_of_lookup_2 in Hi.
           rewrite Forall_forall in Hz. now apply Hz in Hi.
        -- simpl in Hi. apply list_elem_of_lookup_2 in Hi.
           rewrite Forall_forall in Hz. now apply Hz in Hi.
      * intros Huniq.
        assert (Hz : activeCount l = O).
        { apply activeCount_zero, Forall_lookup_2. intros k x Hk Hx.
          specialize (Huniq O (S k) c x eq_refl Hk Hc Hx). discriminate. }
        lia.
    + rewrite Nat.add_0_l, IH. split.
      * intros Huniq [|i] [|j] ci cj Hi Hj Hci Hcj.
        -- reflexivity.
        -- injection Hi as ->. contradiction.
        -- injection Hj as ->. contradiction.
        -- f_equal. exact (Huniq i j ci cj Hi Hj Hci Hcj).
      * intros Huniq i j ci cj Hi Hj Hci Hcj.
        specialize (Huniq (S i) (S j) ci cj Hi Hj Hci Hcj). lia.
Qed.

(** *** One turn on the blueprint *)

Lemma goalsReached_spec chapter stats :
  goalsReached chapter stats = true <->
  TrackedStats.currentWordCount stats >= PlotChapter.targetWordCount chapter
  /\ TrackedStats.eventsTriggered stats
     >= CompletionCriteria.minKeyEvents (criteriaOf chapter)
  /\ TrackedStats.interactionsCount stats
     >= CompletionCriteria.minInteractions (criteriaOf chapter).
Proof.
  unfold goalsReached.
  assert (Hor : forall z, Js.orNum z 0 = z).
  { intros z. unfold Js.orNum. destruct (Z.eqb_spec z 0); congruence. }
  rewrite !Hor, !andb_true_iff, !Z.geb_leb, !Z.leb_le. lia.
Qed.

Lemma advanceBlueprint_found seg blueprint i chapter :
  findActive blueprint = Some (i, chapter) ->
  advanceBlueprint seg blueprint
  = if goalsReached chapter (trackSegment chapter seg) then
      <[i := finished (trackSegment chapter seg) chapter]>
        (match blueprint !! (i + 1)%nat with
         | Some next =>
             <[(i + 1)%nat := PlotChapter.withStatus active next]> blueprint
         | None => blueprint
         end)
    else
      <[i := PlotChapter.withTrackedStats (trackSegment chapter seg) chapter]>
        blueprint.
Proof. intros H. unfold advanceBlueprint. rewrite H. reflexivity. Qed.

Lemma advanceBlueprint_length seg blueprint :
  length (advanceBlueprint seg blueprint) = length blueprint.
Proof.
  unfold advanceBlueprint.
  destruct (findActive blueprint) as [[i chapter]|]; [|reflexivity].
  destruct (goalsReached _ _); [|now rewrite length_insert].
  destruct (blueprint !! (i + 1)%nat); now rewrite ?length_insert.
Qed.

(** The active chapter receives the updated statistics. *)
Lemma advanceBlueprint_tracks seg blueprint i chapter :
  findActive blueprint = Some (i, chapter) ->
  exists chapter',
    advanceBlueprint seg blueprint !! i = Some chapter'
    /\ PlotChapter.trackedStats chapter' = Some (trackSegment chapter seg).
Proof.
  intros Hfind. rewrite (advanceBlueprint_found _ _ _ _ Hfind).
  apply findActive_Some in Hfind as (Hi & _ & _).
  apply lookup_lt_Some in Hi.
  destruct (goalsReached _ _).
  - exists (finished (trackSegment chapter seg) chapter).
    split; [|reflexivity]. apply list_lookup_insert_eq.
    destruct (blueprint !! (i + 1)%nat); now rewrite ?length_insert.
  - exists (PlotChapter.withTrackedStats (trackSegment chapter seg) chapter).
    split; [|reflexivity]. now apply list_lookup_insert_eq.
Qed.

(** Every other chapter keeps its statistics; it is the chapter it was, or
    that chapter made active. *)
Lemma advanceBlueprint_others seg blueprint i chapter j c' :
  findActive blueprint = Some (i, chapter) ->
  j <> i ->
  advanceBlueprint seg blueprint !! j = Some c' ->
  exists c,
    blueprint !! j = Some c
    /\ (c' = c \/ c' = PlotChapter.withStatus active c)
    /\ PlotChapter.trackedStats c' = PlotChapter.trackedStats c.
Proof.
  intros Hfind Hne. rewrite (advanceBlueprint_found _ _ _ _ Hfind).
  destruct (goalsReached _ _).
  - rewrite list_lookup_insert_ne by congruence.
    destruct (blueprint !! (i + 1)%nat) as [next|] eqn:Hnext.
    + rewrite list_lookup_insert. case_decide as Hj.
      * destruct Hj as [<- _]. intros [= <-]. exists next. auto.
      * intros Hc. exists c'. auto.
    + intros Hc. exists c'. auto.
  - rewrite list_lookup_insert_ne by congruence.
    intros Hc. exists c'. auto.
Qed.

(** What completion does to the blueprint. *)
Lemma advanceBlueprint_completes seg blueprint i chapter :
  findActive blueprint = Some (i, chapter) ->
  goalsReached chapter (trackSegment chapter seg) = true ->
  advanceBlueprint seg blueprint !! i
  = Some (finished (trackSegment chapter seg) chapter)
  /\ (forall next,
        blueprint !! (i + 1)%nat = Some next ->
        advanceBlueprint seg blueprint !! (i + 1)%nat
        = Some (PlotChapter.withStatus active next))
  /\ (blueprint !! (i + 1)%nat = None ->
      Forall (fun c => PlotChapter.status c <> active)
        (advanceBlueprint seg blueprint)).
Proof.
  intros Hfind Hgoals. rewrite (advanceBlueprint_found _ _ _ _ Hfind), Hgoals.
  apply findActive_Some in Hfind as (Hi & Hactive & Hfirst).
  pose proof (lookup_lt_Some _ _ _ Hi) as Hlt.
  split; [|split].
  - apply list_lookup_insert_eq.
    destruct (blueprint !! (i + 1)%nat); now rewrite ?length_insert.
  - intros next Hnext. rewrite Hnext.
    rewrite list_lookup_insert_ne by lia.
    apply list_lookup_insert_eq. now apply lookup_lt_Some in Hnext.
  - intros Hnone. rewrite Hnone. apply Forall_lookup_2. intros j c.
    rewrite list_lookup_insert. case_decide as Hj.
    + intros [= <-]. discriminate.
    + intros Hc. apply (Hfirst j c Hc).
      apply lookup_ge_None in Hnone. apply lookup_lt_Some in Hc.
      assert (j <> i) by (intros ->; apply Hj; auto). lia.
Qed.

(** A turn keeps the number of active chapters at most one. *)
Lemma advanceBlueprint_activeCount seg blueprint :
  (activeCount blueprint <= 1)%nat ->
  (activeCount (advanceBlueprint seg blueprint) <= 1)%nat.
Proof.
  intros Hle.
  destruct (findActive blueprint) as [[i chapter]|] eqn:Hfind;
    [|unfold advanceBlueprint; now rewrite Hfind].
  rewrite (advanceBlueprint_found _ _ _ _ Hfind).
  apply findActive_Some in Hfind as (Hi & Hactive & _).
  assert (Hchapter : isActiveNat chapter = 1%nat).
  { unfold isActiveNat. destruct (decide _); [reflexivity|contradiction]. }
  destruct (goalsReached _ _).
  - assert (Hdone : isActiveNat
                      (finished (trackSegment chapter seg) chapter) = O)
      by reflexivity.
    destruct (blueprint !! (i + 1)%nat) as [next|] eqn:Hnext.
    + assert (Hnext0 : isActiveNat next = O).
      { unfold isActiveNat. destruct (decide _) as [Hn|]; [|reflexivity].
        pose proof (proj1 (activeCount_le_1 blueprint) Hle) as Huniq.
        specialize (Huniq _ _ _ _ Hi Hnext Hactive Hn). lia. }
      pose proof (activeCount_insert blueprint (i + 1)
                    (PlotChapter.withStatus active next) next Hnext) as H1.
      assert (Hi' : <[(i + 1)%nat := PlotChapter.withStatus active next]>
                      blueprint !! i = Some chapter)
        by (rewrite list_lookup_insert_ne by lia; exact Hi).
      pose proof (activeCount_insert _ i
                    (finished (trackSegment chapter seg) chapter)
                    chapter Hi') as H2.
      change (isActiveNat (PlotChapter.withStatus active next))
        with 1%nat in H1.
      lia.
    + pose proof (activeCount_insert blueprint i
                    (finished (trackSegment chapter seg) chapter)
                    chapter Hi) as H2.
      lia.
  - pose proof (activeCount_insert blueprint i
                  (PlotChapter.withTrackedStats (trackSegment chapter seg)
                     chapter) chapter Hi) as H2.
    assert (isActiveNat
              (PlotChapter.withTrackedStats (trackSegment chapter seg) chapter)
            = 1%nat).
    { unfold isActiveNat. simpl. destruct (decide _); [reflexivity|contradiction]. }
    lia.
Qed.

(** *** Session start and planning on the blueprint *)

Lemma processed_pending (f : nat -> RawChapter.t -> PlotChapter.t)
    (rawChapters : list RawChapter.t) :
  (forall i c, PlotChapter.status (f i c) = pending) ->
  Forall (fun c => PlotChapter.status c = pending) (imap f rawChapters).
Proof.
  intros Hf. apply Forall_lookup_2. intros i c.
  rewrite list_lookup_imap. destruct (rawChapters !! i); [|discriminate].
  intros [= <-]. apply Hf.
Qed.

Lemma autoPlanBlueprint_pending env config chapters newCharacters :
  autoPlanBlueprint env config = Fulfilled (chapters, newCharacters) ->
  Forall (fun c => PlotChapter.status c = pending) chapters.
Proof.
  unfold autoPlanBlueprint. destruct (Env.planReply env); [|discriminate].
  intros [= <- _]. apply processed_pending. reflexivity.
Qed.

Lemma pending_activeCount l :
  Forall (fun c => PlotChapter.status c = pending) l -> activeCount l = O.
Proof.
  intros H. apply activeCount_zero. eapply Forall_impl; [exact H|].
  intros c Hc. simpl in Hc. rewrite Hc. discriminate.
Qed.

Lemma activateFirst_activeCount l :
  Forall (fun c => PlotChapter.status c = pending) l ->
  (activeCount (activateFirst l) <= 1)%nat.
Proof.
  intros H. destruct l as [|c l]; [cbn; lia|].
  unfold activateFirst. rewrite imap_cons, activeCount_cons.
  apply Forall_cons in H as [_ Hl].
  assert (Htail : imap ((fun (i : nat) (c0 : PlotChapter.t) =>
                           if (i =? 0)%nat
                           then PlotChapter.withStatus active c0 else c0) ∘ S)
                    l = l).
  { clear. induction l as [|x l IH] using rev_ind; [reflexivity|].
    rewrite imap_app, IH. reflexivity. }
  rewrite Htail, (pending_activeCount l Hl).
  unfold isActiveNat. destruct (decide _); lia.
Qed.

Lemma trackOpening_activeCount seg l :
  activeCount (trackOpening seg l) = activeCount l.
Proof.
  induction l as [|c l IH]; [reflexivity|].
  unfold trackOpening in *. simpl map. rewrite !activeCount_cons, IH.
  f_equal. unfold isActiveNat. case_bool_decide; reflexivity.
Qed.

End TrackerFacts.

(** ** SessionEngine: turns *)

Module TurnFacts.
Import Engine.

(** A turn whose generation succeeds. *)
Lemma handleChoice_fulfilled env choice fromIndex h nextSegment :
  Hook.isLoading h = false ->
  Env.advanceStory env (turnArgs (Hook.context h) choice fromIndex)
  = Fulfilled nextSegment ->
  Hook.context (handleChoice env choice fromIndex h)
  = turnContext env (Hook.context h)
      (baseHistory (Hook.context h) fromIndex) choice nextSegment
  /\ Hook.error (handleChoice env choice fromIndex h) = Hook.error h
  /\ Hook.isLoading (handleChoice env choice fromIndex h) = false.
Proof.
  intros Hidle Hnext. unfold handleChoice. rewrite Hidle, Hnext.
  repeat split.
Qed.

Lemma handleChoice_blueprint env choice fromIndex h nextSegment :
  Hook.isLoading h = false ->
  Env.advanceStory env (turnArgs (Hook.context h) choice fromIndex)
  = Fulfilled nextSegment ->
  GameContext.blueprint (Hook.context (handleChoice env choice fromIndex h))
  = Tracker.advanceBlueprint nextSegment
      (GameContext.blueprint (Hook.context h)).
Proof.
  intros Hidle Hnext.
  destruct (handleChoice_fulfilled _ _ _ _ _ Hidle Hnext) as (-> & _).
  reflexivity.
Qed.

(** C2. On a turn with an active chapter, that chapter's tracked
    statistics change as follows: the word count grows by the length of the
    generated text; the event count grows by one exactly when the segment
    carries a triggered event identifier; the interaction count grows by one
    exactly when the segment carries an active character name that contains
    a key character name of the chapter; the statistics of every other
    chapter stay as they were. *)
Theorem handleChoice_updates_tracked_stats
    env choice fromIndex h nextSegment i chapter :
  Hook.isLoading h = false ->
  Env.advanceStory env (turnArgs (Hook.context h) choice fromIndex)
  = Fulfilled nextSegment ->
  Tracker.findActive (GameContext.blueprint (Hook.context h))
  = Some (i, chapter) ->
  let before :=
    default TrackedStats.zero (PlotChapter.trackedStats chapter) in
  let blueprint := GameContext.blueprint (Hook.context h) in
  let blueprint' :=
    GameContext.blueprint
      (Hook.context (handleChoice env choice fromIndex h)) in
  (exists chapter' after,
     blueprint' !! i = Some chapter'
     /\ PlotChapter.trackedStats chapter' = Some after
     /\ TrackedStats.currentWordCount after
        = TrackedStats.currentWordCount before
          + Z.of_nat (length (StorySegment.text nextSegment))
     /\ (Tracker.carriesEventId nextSegment ->
         TrackedStats.eventsTriggered after
         = TrackedStats.eventsTriggered before + 1)
     /\ (~ Tracker.carriesEventId nextSegment ->
         TrackedStats.eventsTriggered after
         = TrackedStats.eventsTriggered before)
     /\ (Tracker.meetsKeyCharacter chapter nextSegment ->
         TrackedStats.interactionsCount after
         = TrackedStats.interactionsCount before + 1)
     /\ (~ Tracker.meetsKeyCharacter chapter nextSegment ->
         TrackedStats.interactionsCount after
         = TrackedStats.interactionsCount before))
  /\ length blueprint' = length blueprint
  /\ (forall j c',
        j <> i -> blueprint' !! j = Some c' ->
        exists c,
          blueprint !! j = Some c
          /\ PlotChapter.trackedStats c' = PlotChapter.trackedStats c).
Proof.
  intros Hidle Hnext Hfind before blueprint blueprint'.
  unfold blueprint'. rewrite (handleChoice_blueprint _ _ _ _ _ Hidle Hnext).
  fold blueprint. split; [|split].
  - destruct (TrackerFacts.advanceBlueprint_tracks nextSegment _ _ _ Hfind)
      as (chapter' & Hi & Hstats).
    exists chapter', (Tracker.trackSegment chapter nextSegment).
    split; [exact Hi|]. split; [exact Hstats|].
    unfold Tracker.trackSegment. fold before. simpl.
    split; [reflexivity|].
    pose proof (TrackerFacts.carries_spec
                  (StorySegment.triggeredEventId nextSegment)) as Hev.
    pose proof (TrackerFacts.isKeyInteraction_spec chapter nextSegment) as Hin.
    fold (Tracker.carriesEventId nextSegment) in Hev.
    destruct (Js.carries (StorySegment.triggeredEventId nextSegment));
      destruct (Tracker.isKeyInteraction chapter nextSegment);
      repeat split; intros H; try reflexivity;
      try (apply Hev in H; discriminate H);
      try (apply Hin in H; discriminate H);
      try (exfalso; apply H; apply Hev; reflexivity);
      try (exfalso; apply H; apply Hin; reflexivity).
  - apply TrackerFacts.advanceBlueprint_length.
  - intros j c' Hne Hj.
    destruct (TrackerFacts.advanceBlueprint_others _ _ _ _ _ _ Hfind Hne Hj)
      as (c & Hc & _ & Hstats).
    exists c. split; assumption.
Qed.

(** C1. On a turn with an active chapter, once the updated statistics
    reach the word target and both minimum criteria, the chapter is
    completed and its finished-turn counter is one more than before; the
    chapter that follows it in the blueprint, when there is one, becomes
    active; when the completed chapter is the last one, no chapter is active
    afterwards, and no error is raised. *)
Theorem handleChoice_completes_chapter
    env choice fromIndex h nextSegment i chapter :
  Hook.isLoading h = false ->
  Env.advanceStory env (turnArgs (Hook.context h) choice fromIndex)
  = Fulfilled nextSegment ->
  Tracker.findActive (GameContext.blueprint (Hook.context h))
  = Some (i, chapter) ->
  let stats := Tracker.trackSegment chapter nextSegment in
  let criteria := Tracker.criteriaOf chapter in
  TrackedStats.currentWordCount stats >= PlotChapter.targetWordCount chapter ->
  TrackedStats.eventsTriggered stats
  >= CompletionCriteria.minKeyEvents criteria ->
  TrackedStats.interactionsCount stats
  >= CompletionCriteria.minInteractions criteria ->
  let blueprint := GameContext.blueprint (Hook.context h) in
  let h' := handleChoice env choice fromIndex h in
  let blueprint' := GameContext.blueprint (Hook.context h') in
  (exists chapter',
     blueprint' !! i = Some chapter'
     /\ PlotChapter.status chapter' = completed
     /\ PlotChapter.trackedStats chapter' = Some stats
     /\ PlotChapter.finishedTurnCount chapter'
        = Some (Js.orNumOpt (PlotChapter.finishedTurnCount chapter) 0 + 1))
  /\ (forall next,
        blueprint !! (i + 1)%nat = Some next ->
        exists next',
          blueprint' !! (i + 1)%nat = Some next'
          /\ PlotChapter.status next' = active
          /\ next' = PlotChapter.withStatus active next)
  /\ (blueprint !! (i + 1)%nat = None ->
      Forall (fun c => PlotChapter.status c <> active) blueprint'
      /\ Hook.error h' = Hook.error h).
Proof.
  intros Hidle Hnext Hfind stats criteria Hwords Hevents Hinter
    blueprint h' blueprint'.
  assert (Hgoals : Tracker.goalsReached chapter stats = true)
    by (apply TrackerFacts.goalsReached_spec; auto).
  unfold blueprint', h'.
  rewrite (handleChoice_blueprint _ _ _ _ _ Hidle Hnext). fold blueprint.
  destruct (TrackerFacts.advanceBlueprint_completes nextSegment _ _ _
              Hfind Hgoals) as (Hi & Hsucc & Hlast).
  split; [|split].
  - eexists. split; [exact Hi|]. repeat split.
  - intros next Hn. eexists. split; [exact (Hsucc next Hn)|].
    split; reflexivity.
  - intros Hnone. split; [exact (Hlast Hnone)|].
    apply (handleChoice_fulfilled _ _ _ _ _ Hidle Hnext).
Qed.

(** C10. A turn replayed from the segment at [fromIndex], an index before
    the last one of the history, leaves the history made of the segments up
    to and including [fromIndex] followed by the generated segment, which
    is the current segment: the segments after [fromIndex] are gone. *)
Theorem handleChoice_replays_from_index
    env choice (fromIndex : Z) h nextSegment :
  Hook.isLoading h = false ->
  0 <= fromIndex ->
  fromIndex < Z.of_nat (length (GameContext.history (Hook.context h))) - 1 ->
  Env.advanceStory env (turnArgs (Hook.context h) choice (Some fromIndex))
  = Fulfilled nextSegment ->
  let history := GameContext.history (Hook.context h) in
  let context' := Hook.context (handleChoice env choice (Some fromIndex) h) in
  let newSegment := segmentWithChoice (Hook.context h) choice nextSegment in
  GameContext.history context'
  = take (Z.to_nat fromIndex + 1) history ++ [newSegment]
  /\ GameContext.currentSegment context' = Some newSegment
  /\ last (GameContext.history context') = Some newSegment
  /\ length (GameContext.history context') = (Z.to_nat fromIndex + 2)%nat
  /\ (forall j, (j <= Z.to_nat fromIndex)%nat ->
                GameContext.history context' !! j = history !! j)
  /\ StorySegment.id newSegment = StorySegment.id nextSegment
  /\ StorySegment.text newSegment = StorySegment.text nextSegment
  /\ StorySegment.causedBy newSegment = Some choice.
Proof.
  intros Hidle Hpos Hlt Hnext history context' newSegment.
  destruct (handleChoice_fulfilled _ _ _ _ _ Hidle Hnext) as (Hctx & _).
  unfold context'. rewrite Hctx. unfold turnContext.
  cbn [GameContext.history GameContext.currentSegment].
  assert (Hbase : baseHistory (Hook.context h) (Some fromIndex)
                  = take (Z.to_nat fromIndex + 1) history).
  { unfold baseHistory, history.
    destruct (Z.ltb_spec fromIndex
                (Z.of_nat (length (GameContext.history (Hook.context h))) - 1));
      [|lia].
    unfold slice0.
    destruct (Z.ltb_spec (fromIndex + 1) 0); [lia|].
    f_equal. lia. }
  rewrite Hbase. fold newSegment.
  assert (Hlen : length (take (Z.to_nat fromIndex + 1) history)
                 = (Z.to_nat fromIndex + 1)%nat)
    by (rewrite length_take; unfold history; lia).
  split; [reflexivity|]. split; [reflexivity|].
  split; [apply last_snoc|].
  split; [rewrite length_app, Hlen; simpl; lia|].
  split; [|repeat split].
  intros j Hj. rewrite lookup_app_l by lia.
  apply lookup_take_lt. lia.
Qed.

(** The sample session after one and after two turns. *)
Lemma handleChoice_updates_tracked_stats_witness :
  let h' := handleChoice Scenario.env (Js.lit "go on") None Scenario.started in
  exists chapter' after,
    GameContext.blueprint (Hook.context h') !! 0%nat = Some chapter'
    /\ PlotChapter.trackedStats chapter' = Some after
    /\ TrackedStats.currentWordCount after = 100
    /\ TrackedStats.eventsTriggered after = 0
    /\ TrackedStats.interactionsCount after = 0.
Proof.
  intros h'.
  assert (Hidle : Hook.isLoading Scenario.started = false) by reflexivity.
  assert (Hnext :
    Env.advanceStory Scenario.env
      (turnArgs (Hook.context Scenario.started) (Js.lit "go on") None)
    = Fulfilled (Scenario.segment "s1" 100 None None None))
    by reflexivity.
  assert (Hfind :
    Tracker.findActive (GameContext.blueprint (Hook.context Scenario.started))
    = Some (0%nat, Scenario.chapter "c1" active 300 "Mira"))
    by reflexivity.
  destruct (handleChoice_updates_tracked_stats Scenario.env (Js.lit "go on")
              None Scenario.started _ _ _ Hidle Hnext Hfind)
    as [(chapter' & after & H1 & H2 & H3 & _ & H4 & _ & H5) _].
  exists chapter', after.
  split; [exact H1|]. split; [exact H2|]. split; [exact H3|].
  split.
  - apply H4. intros (eventId & Hev & _). discriminate Hev.
  - apply H5. intros (name & ? & ? & ? & ? & Hname & _). discriminate Hname.
Defined.

(** The sample session: the third turn completes the first chapter. *)
Lemma handleChoice_completes_chapter_witness :
  let t2 :=
    handleChoice Scenario.env (Js.lit "go on") None
      (handleChoice Scenario.env (Js.lit "go on") None Scenario.started) in
  let t3 := handleChoice Scenario.env (Js.lit "go on") None t2 in
  (exists chapter',
     GameContext.blueprint (Hook.context t3) !! 0%nat = Some chapter'
     /\ PlotChapter.status chapter' = completed
     /\ PlotChapter.finishedTurnCount chapter' = Some 1)
  /\ (exists next',
        GameContext.blueprint (Hook.context t3) !! 1%nat = Some next'
        /\ PlotChapter.status next' = active).
Proof.
  intros t2 t3.
  assert (Hidle : Hook.isLoading t2 = false) by reflexivity.
  assert (Hnext :
    Env.advanceStory Scenario.env
      (turnArgs (Hook.context t2) (Js.lit "go on") None)
    = Fulfilled (Scenario.segment "s3" 60 None (Some "Captain Mira"%string) None))
    by reflexivity.
  assert (Hfind :
    Tracker.findActive (GameContext.blueprint (Hook.context t2))
    = Some (0%nat,
            PlotChapter.withTrackedStats (TrackedStats.Make 250 1 0)
              (Scenario.chapter "c1" active 300 "Mira")))
    by (vm_compute; reflexivity).
  assert (Hnext1 :
    GameContext.blueprint (Hook.context t2) !! 1%nat
    = Some (Scenario.chapter "c2" pending 400 "Oren"))
    by (vm_compute; reflexivity).
  destruct (handleChoice_completes_chapter Scenario.env (Js.lit "go on")
              None t2 _ _ _ Hidle Hnext Hfind)
    as [(chapter' & H1 & H2 & _ & H3) [Hsucc _]].
  - vm_compute. discriminate.
  - vm_compute. discriminate.
  - vm_compute. discriminate.
  - split.
    + exists chapter'. split; [exact H1|]. split; [exact H2|exact H3].
    + destruct (Hsucc _ Hnext1) as (next' & Hn1 & Hn2 & _).
      exists next'. split; assumption.
Defined.

(** The end-to-end scenario of the specification: target 300, one key
    event, one interaction; turns of 100, 150 and 60 code units, the second
    with a triggered event, the third with a matching active character. The
    chapter is still active after the second turn (250 of 300), and after
    the third it is completed with 310 booked and the next one is active. *)
Example chapter_scenario :
  let t1 := handleChoice Scenario.env (Js.lit "go on") None Scenario.started in
  let t2 := handleChoice Scenario.env (Js.lit "go on") None t1 in
  let t3 := handleChoice Scenario.env (Js.lit "go on") None t2 in
  map PlotChapter.status (GameContext.blueprint (Hook.context t2))
  = [active; pending]
  /\ map PlotChapter.status (GameContext.blueprint (Hook.context t3))
     = [completed; active]
  /\ (PlotChapter.trackedStats
        <$> GameContext.blueprint (Hook.context t3) !! 0%nat)
     = Some (Some (TrackedStats.Make 310 1 1)).
Proof. vm_compute. repeat split. Qed.

(** The sample session after two turns, replayed from the opening. *)
Lemma handleChoice_replays_from_index_witness :
  let t2 :=
    handleChoice Scenario.env (Js.lit "go on") None
      (handleChoice Scenario.env (Js.lit "go on") None Scenario.started) in
  let context' :=
    Hook.context (handleChoice Scenario.env (Js.lit "turn back") (Some 0) t2) in
  length (GameContext.history (Hook.context t2)) = 3%nat
  /\ length (GameContext.history context') = 2%nat
  /\ GameContext.history context' !! 0%nat
     = GameContext.history (Hook.context t2) !! 0%nat
  /\ (StorySegment.causedBy <$> GameContext.currentSegment context')
     = Some (Some (Js.lit "turn back")).
Proof.
  intros t2 context'.
  assert (Hidle : Hook.isLoading t2 = false) by reflexivity.
  assert (Hlen : length (GameContext.history (Hook.context t2)) = 3%nat)
    by reflexivity.
  assert (Hpos : 0 <= 0) by lia.
  assert (Hlt : 0 < Z.of_nat (length (GameContext.history (Hook.context t2)))
                    - 1)
    by (rewrite Hlen; lia).
  assert (Hnext :
    Env.advanceStory Scenario.env
      (turnArgs (Hook.context t2) (Js.lit "turn back") (Some 0))
    = Fulfilled (Scenario.segment "s1" 100 None None None))
    by reflexivity.
  destruct (handleChoice_replays_from_index Scenario.env (Js.lit "turn back")
              0 t2 _ Hidle Hpos Hlt Hnext)
    as (_ & Hcur & _ & Hlen' & Hkeep & _ & _ & Hcause).
  split; [exact Hlen|]. split; [exact Hlen'|].
  split; [apply Hkeep; simpl; lia|].
  unfold context'. rewrite Hcur.
  change (Some (StorySegment.causedBy
                  (segmentWithChoice (Hook.context t2) (Js.lit "turn back")
                     (Scenario.segment "s1" 100 None None None)))
          = Some (Some (Js.lit "turn back"))).
  now rewrite Hcause.
Defined.

(** A negative [fromIndex] is not an index: [slice] then counts from the
    end of the history. *)
Remark baseHistory_negative_index :
  map StorySegment.id
    (baseHistory
       (Hook.context
          (handleChoice Scenario.env (Js.lit "go on") None
             (handleChoice Scenario.env (Js.lit "go on") None
                Scenario.started)))
       (Some (-2)))
  = [Js.lit "s0"; Js.lit "s1"].
Proof. vm_compute. reflexivity. Qed.

End TurnFacts.

(** ** PersistenceCoordinator: auto checkpoints *)

Module CheckpointFacts.
Import Engine.

(** The checkpoints of a list that belong to one [(sessionId, storyId)]. *)
Lemma autoSaveUpdater_skips saveObj prevSaves s :
  s ∈ prevSaves ->
  SavedGame.storyId s = SavedGame.storyId saveObj ->
  SavedGame.sessionId s = SavedGame.sessionId saveObj ->
  autoSaveUpdater saveObj prevSaves = prevSaves.
Proof.
  intros Hin Hstory Hsession. unfold autoSaveUpdater.
  assert (Hex : existsb
                  (fun s0 =>
                     bool_decide
                       (SavedGame.storyId s0 = SavedGame.storyId saveObj)
                     && bool_decide
                          (SavedGame.sessionId s0
                           = SavedGame.sessionId saveObj))
                  prevSaves = true).
  { apply existsb_exists. exists s. split; [now apply list_elem_of_In|].
    rewrite !bool_decide_eq_true_2 by assumption. reflexivity. }
  rewrite Hex. reflexivity.
Qed.

Lemma autoSaveUpdater_inserts saveObj prevSaves :
  (forall s, s ∈ prevSaves ->
             ~ (SavedGame.storyId s = SavedGame.storyId saveObj
                /\ SavedGame.sessionId s = SavedGame.sessionId saveObj)) ->
  autoSaveUpdater saveObj prevSaves = saveObj :: prevSaves.
Proof.
  intros Hnone. unfold autoSaveUpdater.
  destruct (existsb _ prevSaves) eqn:Hex; [|reflexivity].
  apply existsb_exists in Hex as (s & Hin & Hs).
  apply andb_prop in Hs as [H1 H2].
  apply bool_decide_eq_true_1 in H1. apply bool_decide_eq_true_1 in H2.
  exfalso. apply (Hnone s); [now apply list_elem_of_In|auto].
Qed.

Lemma filter_none {A} (P : A -> Prop) `{forall x, Decision (P x)}
    (l : list A) :
  (forall x, x ∈ l -> ~ P x) -> filter P l = [].
Proof.
  induction l as [|x l IH]; intros Hl; [reflexivity|].
  rewrite filter_cons_False by (apply Hl; left).
  apply IH. intros y Hy. apply Hl. now right.
Qed.

Lemma autoCheckpoint_savedGames saveObj h :
  Hook.savedGames (autoCheckpoint saveObj h)
  = autoSaveUpdater saveObj (Hook.savedGames h).
Proof. reflexivity. Qed.

Lemma autoSaveUpdater_has_record saveObj prevSaves :
  exists s,
    s ∈ autoSaveUpdater saveObj prevSaves
    /\ SavedGame.storyId s = SavedGame.storyId saveObj
    /\ SavedGame.sessionId s = SavedGame.sessionId saveObj.
Proof.
  unfold autoSaveUpdater.
  destruct (existsb _ prevSaves) eqn:Hex.
  - apply existsb_exists in Hex as (s & Hin & Hs).
    apply andb_prop in Hs as [H1 H2].
    apply bool_decide_eq_true_1 in H1. apply bool_decide_eq_true_1 in H2.
    exists s. split; [now apply list_elem_of_In|auto].
  - exists saveObj. split; [left|auto].
Qed.

(** The checkpoint list of the hook is deduplicated. Two auto checkpoints
    for one [(sessionId, storyId)]: the second invocation finds a record
    for the pair among the existing checkpoints and skips the insertion;
    when the pair had no record before, the checkpoint list ends with
    exactly one record for it, the first one. *)
Lemma autoCheckpoint_twice_one_record (first second : SavedGame.t)
    (h : Hook.t) :
  SavedGame.sessionId second = SavedGame.sessionId first ->
  SavedGame.storyId second = SavedGame.storyId first ->
  let once := autoCheckpoint first h in
  let twice := autoCheckpoint second once in
  Hook.savedGames twice = Hook.savedGames once
  /\ ((forall s, s ∈ Hook.savedGames h ->
                 ~ (SavedGame.storyId s = SavedGame.storyId first
                    /\ SavedGame.sessionId s = SavedGame.sessionId first)) ->
      Hook.savedGames once = first :: Hook.savedGames h
      /\ filter (fun s => SavedGame.storyId s = SavedGame.storyId first
                          /\ SavedGame.sessionId s
                             = SavedGame.sessionId first)
           (Hook.savedGames twice)
         = [first]).
Proof.
  intros Hsession Hstory once twice.
  assert (Htwice : Hook.savedGames twice = Hook.savedGames once).
  { unfold twice, once. rewrite !autoCheckpoint_savedGames.
    destruct (autoSaveUpdater_has_record first (Hook.savedGames h))
      as (s & Hin & Hs1 & Hs2).
    apply (autoSaveUpdater_skips second _ s Hin); congruence. }
  split; [exact Htwice|].
  intros Hnone.
  assert (Honce : Hook.savedGames once = first :: Hook.savedGames h).
  { unfold once. rewrite autoCheckpoint_savedGames.
    now apply autoSaveUpdater_inserts. }
  split; [exact Honce|].
  rewrite Htwice, Honce, filter_cons_True by auto.
  f_equal. apply filter_none. exact Hnone.
Qed.

(** The storage service is outside the check: the hand-over of line 650 is
    not guarded by [alreadySaved], so each invocation passes its record
    on, whatever the checkpoint list holds. *)
Lemma autoCheckpoint_storage first second h :
  Hook.storageSaves (autoCheckpoint second (autoCheckpoint first h))
  = Hook.storageSaves h ++ [first; second].
Proof. unfold autoCheckpoint. simpl. now rewrite <- app_assoc. Qed.


End CheckpointFacts.

(** ** SegmentVersionStore: regeneration *)

Module RegenerateFacts.
Import Engine.

(** The call that a regeneration of the choices makes to the backend. *)
Lemma handleRegenerate_choices_fulfilled env h lastSegment newSegment :
  last (GameContext.history (Hook.context h)) = Some lastSegment ->
  Env.advanceStory env
    (AdvanceStoryArgs.Make (GameContext.history (Hook.context h)) []
       (GameContext.blueprint (Hook.context h)) Mode.choices)
  = Fulfilled newSegment ->
  let updated :=
    StorySegment.withChoices (StorySegment.choices newSegment) lastSegment in
  GameContext.history (Hook.context (handleRegenerate env Mode.choices h))
  = <[pred (length (GameContext.history (Hook.context h))) := updated]>
      (GameContext.history (Hook.context h))
  /\ GameContext.currentSegment
       (Hook.context (handleRegenerate env Mode.choices h))
     = Some updated.
Proof.
  intros Hlast Hnew updated. unfold handleRegenerate.
  rewrite Hlast. simpl Mode.isChoices. cbn iota. simpl negb. cbn iota.
  rewrite Hnew. simpl. split; [|reflexivity].
  f_equal. lia.
Qed.

(** C8. Regenerating the choices of the last segment replaces its choices
    with the generated ones and leaves its text and visual prompt, and every
    other segment of the history, as they were. *)
Theorem handleRegenerate_choices_frame env h lastSegment newSegment :
  last (GameContext.history (Hook.context h)) = Some lastSegment ->
  Env.advanceStory env
    (AdvanceStoryArgs.Make (GameContext.history (Hook.context h)) []
       (GameContext.blueprint (Hook.context h)) Mode.choices)
  = Fulfilled newSegment ->
  let history := GameContext.history (Hook.context h) in
  let history' :=
    GameContext.history (Hook.context (handleRegenerate env Mode.choices h)) in
  exists updated,
    last history' = Some updated
    /\ StorySegment.choices updated = StorySegment.choices newSegment
    /\ StorySegment.text updated = StorySegment.text lastSegment
    /\ StorySegment.visualPrompt updated
       = StorySegment.visualPrompt lastSegment
    /\ updated
       = StorySegment.withChoices (StorySegment.choices newSegment) lastSegment
    /\ length history' = length history
    /\ (forall j, j <> pred (length history) ->
                  history' !! j = history !! j).
Proof.
  intros Hlast Hnew history history'.
  destruct (handleRegenerate_choices_fulfilled _ _ _ _ Hlast Hnew)
    as [Hhist _].
  unfold history'. rewrite Hhist. fold history.
  exists (StorySegment.withChoices (StorySegment.choices newSegment)
            lastSegment).
  assert (Hpos : (0 < length history)%nat).
  { unfold history.
    destruct (GameContext.history (Hook.context h));
      [discriminate Hlast|simpl; lia]. }
  split.
  - rewrite last_lookup, length_insert.
    apply list_lookup_insert_eq. lia.
  - repeat split.
    + apply length_insert.
    + intros j Hj. apply list_lookup_insert_ne. congruence.
Qed.

Lemma handleRegenerate_choices_frame_witness :
  let h' := handleRegenerate Scenario.env Mode.choices Scenario.started in
  exists updated,
    last (GameContext.history (Hook.context h')) = Some updated
    /\ StorySegment.choices updated
       = [Js.lit "go on from s1"; Js.lit "turn back"]
    /\ StorySegment.text updated = Scenario.prose 40.
Proof.
  intros h'.
  assert (Hlast :
    last (GameContext.history (Hook.context Scenario.started))
    = Some (Scenario.segment "s0" 40 None None None)) by reflexivity.
  assert (Hnew :
    Env.advanceStory Scenario.env
      (AdvanceStoryArgs.Make
         (GameContext.history (Hook.context Scenario.started)) []
         (GameContext.blueprint (Hook.context Scenario.started)) Mode.choices)
    = Fulfilled (Scenario.segment "s1" 100 None None None)) by reflexivity.
  destruct (handleRegenerate_choices_frame Scenario.env Scenario.started
              _ _ Hlast Hnew) as (updated & H1 & H2 & H3 & _).
  exists updated. split; [exact H1|]. split; [exact H2|exact H3].
Defined.

(** C9, as the code has it: in the modes [full] and [text], regenerating a
    segment that is not the opening one and records no cause fails with the
    error for a node that cannot be regenerated; the backend is not called
    and the game context stays as it was. *)
Theorem handleRegenerate_rejects_causeless env mode h lastSegment :
  mode <> Mode.choices ->
  last (GameContext.history (Hook.context h)) = Some lastSegment ->
  (1 < length (GameContext.history (Hook.context h)))%nat ->
  Js.carries (StorySegment.causedBy lastSegment) = false ->
  let h' := handleRegenerate env mode h in
  Hook.error h' = Some CannotRegenerateNode
  /\ Hook.advanceStoryCalls h' = Hook.advanceStoryCalls h
  /\ Hook.context h' = Hook.context h
  /\ h' = Hook.setError (Some CannotRegenerateNode) h.
Proof.
  intros Hmode Hlast Hlen Hcause h'.
  assert (Hh' : h' = Hook.setError (Some CannotRegenerateNode) h).
  { unfold h', handleRegenerate. rewrite Hlast, Hcause.
    destruct mode; [| |contradiction];
      simpl Mode.isChoices; simpl negb;
      (destruct (Z.gtb_spec
                   (Z.of_nat (length (GameContext.history (Hook.context h)))
                    - 1) 0); [reflexivity|lia]). }
  rewrite Hh'. repeat split.
Qed.

Lemma handleRegenerate_rejects_causeless_witness :
  let h' := handleRegenerate Scenario.env Mode.full Scenario.causeless in
  Hook.error h' = Some CannotRegenerateNode
  /\ Hook.advanceStoryCalls h' = []
  /\ Hook.context h' = Hook.context Scenario.causeless.
Proof.
  intros h'.
  assert (Hmode : Mode.full <> Mode.choices) by discriminate.
  assert (Hlast :
    last (GameContext.history (Hook.context Scenario.causeless))
    = Some (Scenario.segment "s1" 100 None None None)) by reflexivity.
  assert (Hlen :
    (1 < length (GameContext.history (Hook.context Scenario.causeless)))%nat)
    by (simpl; lia).
  assert (Hcause :
    Js.carries
      (StorySegment.causedBy (Scenario.segment "s1" 100 None None None))
    = false) by reflexivity.
  destruct (handleRegenerate_rejects_causeless Scenario.env Mode.full
              Scenario.causeless _ Hmode Hlast Hlen Hcause)
    as (H1 & H2 & H3 & _).
  split; [exact H1|]. split; [exact H2|exact H3].
Defined.

(** C9, as stated, fails in the mode [choices]: on a history of two
    segments whose last one records no cause, the regeneration of the
    choices raises no error, calls the backend once and changes the game
    context. *)
Lemma handleRegenerate_choices_skips_guard :
  let h := Scenario.causeless in
  let h' := handleRegenerate Scenario.env Mode.choices h in
  length (GameContext.history (Hook.context h)) = 2%nat
  /\ (StorySegment.causedBy <$> last (GameContext.history (Hook.context h)))
     = Some None
  /\ Hook.error h' = None
  /\ length (Hook.advanceStoryCalls h') = 1%nat
  /\ Hook.advanceStoryCalls h = []
  /\ (StorySegment.choices <$> GameContext.currentSegment (Hook.context h))
     = Some [Js.lit "go on from s1"; Js.lit "turn back"]
  /\ (StorySegment.choices <$> GameContext.currentSegment (Hook.context h'))
     = Some [Js.lit "go on from s2"; Js.lit "turn back"]
  /\ Hook.context h' <> Hook.context h.
Proof.
  intros h h'. repeat split.
  intros Heq.
  apply (f_equal (fun c => StorySegment.choices <$> GameContext.currentSegment c))
    in Heq.
  vm_compute in Heq. discriminate Heq.
Qed.

End RegenerateFacts.

(** ** SegmentVersionStore: switching versions *)

Module VersionFacts.
Import Engine.

(** Replacing the element that [findIndex] found by another one that
    passes the test leaves the index found where it was. *)
Lemma list_find_insert_found {A} (P : A -> Prop) `{forall x, Decision (P x)}
    (l : list A) idx x x' :
  list_find P l = Some (idx, x) ->
  P x' ->
  list_find P (<[idx := x']> l) = Some (idx, x').
Proof.
  intros Hfind Hx'. apply list_find_Some in Hfind as (Hidx & _ & Hfirst).
  apply list_find_Some. split; [|split].
  - apply list_lookup_insert_eq. now apply lookup_lt_Some in Hidx.
  - exact Hx'.
  - intros j y Hj Hlt. rewrite list_lookup_insert_ne in Hj by lia.
    now apply (Hfirst j y).
Qed.

Lemma switchVersion_too_few now segmentId direction context idx seg versions :
  list_find (fun s => StorySegment.id s = segmentId)
    (GameContext.history context) = Some (idx, seg) ->
  StorySegment.versions seg = Some versions ->
  (length versions < 2)%nat ->
  switchVersion now segmentId direction context = context.
Proof.
  intros Hfind Hvs Hlen. unfold switchVersion. rewrite Hfind, Hvs.
  destruct (Z.ltb_spec (Z.of_nat (length versions)) 2); [reflexivity|lia].
Qed.

(** One step from a valid index [i], with two versions or more: forward to
    [i + 1], or to [0] from the last index; backward to [i - 1], or to the
    last index from [0]. The live fields then mirror the version shown. *)
Lemma switchVersion_step now segmentId direction context idx seg versions i :
  list_find (fun s => StorySegment.id s = segmentId)
    (GameContext.history context) = Some (idx, seg) ->
  StorySegment.versions seg = Some versions ->
  StorySegment.currentVersionIndex seg = Some i ->
  (2 <= length versions)%nat ->
  0 <= i < Z.of_nat (length versions) ->
  let len := Z.of_nat (length versions) in
  let newIdx :=
    match direction with
    | next => if i + 1 >=? len then 0 else i + 1
    | prev => if i - 1 <? 0 then len - 1 else i - 1
    end in
  exists seg' v,
    list_find (fun s => StorySegment.id s = segmentId)
      (GameContext.history (switchVersion now segmentId direction context))
    = Some (idx, seg')
    /\ StorySegment.versions seg' = Some versions
    /\ StorySegment.currentVersionIndex seg' = Some newIdx
    /\ 0 <= newIdx < len
    /\ versions !! Z.to_nat newIdx = Some v
    /\ StorySegment.text seg' = Version.text v
    /\ StorySegment.choices seg' = Version.choices v.
Proof.
  intros Hfind Hvs Hi Hlen Hrange len newIdx.
  assert (Hin : 0 <= newIdx < len).
  { unfold newIdx. destruct direction.
    - destruct (Z.ltb_spec (i - 1) 0); lia.
    - rewrite Z.geb_leb. destruct (Z.leb_spec len (i + 1)); lia. }
  assert (Hne : newIdx <> i).
  { unfold newIdx. destruct direction.
    - destruct (Z.ltb_spec (i - 1) 0); lia.
    - rewrite Z.geb_leb. destruct (Z.leb_spec len (i + 1)); lia. }
  destruct (lookup_lt_is_Some_2 versions (Z.to_nat newIdx)) as [v Hv];
    [lia|].
  exists (StorySegment.showVersion versions newIdx v seg), v.
  assert (Hor : Js.orNumOpt (Some i) 0 = i).
  { simpl. unfold Js.orNum. destruct (Z.eqb_spec i 0); congruence. }
  assert (Hcode :
    (let moved := i + match direction with next => 1 | prev => -1 end in
     let wrapped := if moved <? 0 then len - 1 else moved in
     if wrapped >=? len then 0 else wrapped) = newIdx).
  { unfold newIdx. cbv zeta. destruct direction.
    - replace (i + -1) with (i - 1) by lia.
      destruct (Z.ltb_spec (i - 1) 0).
      + rewrite Z.geb_leb. destruct (Z.leb_spec len (len - 1)); lia.
      + rewrite Z.geb_leb. destruct (Z.leb_spec len (i - 1)); lia.
    - destruct (Z.ltb_spec (i + 1) 0); [lia|]. reflexivity. }
  unfold switchVersion. rewrite Hfind, Hvs, Hi. fold len.
  destruct (Z.ltb_spec len 2); [lia|].
  rewrite Hor. cbv zeta in Hcode. rewrite Hcode.
  case_bool_decide as Hd; [congruence|].
  rewrite Hv. cbn [GameContext.history].
  split; [|repeat split; try assumption; lia].
  apply (list_find_insert_found _ _ idx seg); [exact Hfind|].
  apply list_find_Some in Hfind as (_ & Hid & _). exact Hid.
Qed.

Lemma switchVersion_next_step now segmentId context idx seg versions i :
  list_find (fun s => StorySegment.id s = segmentId)
    (GameContext.history context) = Some (idx, seg) ->
  StorySegment.versions seg = Some versions ->
  StorySegment.currentVersionIndex seg = Some i ->
  (2 <= length versions)%nat ->
  0 <= i < Z.of_nat (length versions) ->
  exists seg',
    list_find (fun s => StorySegment.id s = segmentId)
      (GameContext.history (switchVersion now segmentId next context))
    = Some (idx, seg')
    /\ StorySegment.versions seg' = Some versions
    /\ StorySegment.currentVersionIndex seg'
       = Some ((i + 1) mod Z.of_nat (length versions)).
Proof.
  intros Hfind Hvs Hi Hlen Hrange.
  destruct (switchVersion_step now segmentId next context idx seg versions i
              Hfind Hvs Hi Hlen Hrange)
    as (seg' & v & Hfind' & Hvs' & Hi' & _).
  exists seg'. split; [exact Hfind'|]. split; [exact Hvs'|].
  rewrite Hi'. f_equal. rewrite Z.geb_leb.
  destruct (Z.leb_spec (Z.of_nat (length versions)) (i + 1)).
  - replace (i + 1) with (Z.of_nat (length versions)) by lia.
    symmetry. apply Z_mod_same_full.
  - symmetry. apply Z.mod_small. lia.
Qed.

(** [n] steps forward from a valid index [i] end at [(i + n) mod L]. *)
Lemma switchVersion_next_steps segmentId idx versions times :
  (2 <= length versions)%nat ->
  forall context seg i,
    list_find (fun s => StorySegment.id s = segmentId)
      (GameContext.history context) = Some (idx, seg) ->
    StorySegment.versions seg = Some versions ->
    StorySegment.currentVersionIndex seg = Some i ->
    0 <= i < Z.of_nat (length versions) ->
    exists seg',
      list_find (fun s => StorySegment.id s = segmentId)
        (GameContext.history
           (fold_left (fun c now => switchVersion now segmentId next c)
              times context))
      = Some (idx, seg')
      /\ StorySegment.versions seg' = Some versions
      /\ StorySegment.currentVersionIndex seg'
         = Some ((i + Z.of_nat (length times)) mod Z.of_nat (length versions)).
Proof.
  intros Hlen. induction times as [|now times IH];
    intros context seg i Hfind Hvs Hi Hrange.
  - exists seg. simpl. rewrite Z.add_0_r, Z.mod_small by lia. auto.
  - destruct (switchVersion_next_step now segmentId context idx seg versions i
                Hfind Hvs Hi Hlen Hrange) as (seg1 & Hfind1 & Hvs1 & Hi1).
    destruct (IH _ seg1 _ Hfind1 Hvs1 Hi1) as (seg' & Hfind' & Hvs' & Hi').
    { apply Z.mod_pos_bound. lia. }
    exists seg'. split; [exact Hfind'|]. split; [exact Hvs'|].
    rewrite Hi'. f_equal. rewrite Zplus_mod_idemp_l. f_equal.
    simpl length. lia.
Qed.

Lemma handleSwitchVersion_context envs segmentId direction h :
  Hook.context
    (fold_left (fun h env => handleSwitchVersion env segmentId direction h)
       envs h)
  = fold_left (fun c now => switchVersion now segmentId direction c)
      (map (fun env => Env.dateNow env 0) envs) (Hook.context h).
Proof.
  revert h. induction envs as [|env envs IH]; intros h; [reflexivity|].
  simpl. rewrite IH. reflexivity.
Qed.

(** C7. For a segment with [L] versions, [L] calls of [handleSwitchVersion]
    in the direction [next] bring the active index back to where it
    started. One call moves the index by one and wraps: forward from the
    last version to the first, backward from the first to the last; with
    fewer than two versions every call leaves the context as it is. *)
Theorem handleSwitchVersion_next_cycle
    segmentId (envs : list Env.t) h idx seg versions :
  list_find (fun s => StorySegment.id s = segmentId)
    (GameContext.history (Hook.context h)) = Some (idx, seg) ->
  StorySegment.versions seg = Some versions ->
  (length versions < 2)%nat
  \/ (exists i, StorySegment.currentVersionIndex seg = Some i
                /\ 0 <= i < Z.of_nat (length versions)) ->
  length envs = length versions ->
  let len := Z.of_nat (length versions) in
  let h' :=
    fold_left (fun h env => handleSwitchVersion env segmentId next h) envs h in
  (exists seg',
     list_find (fun s => StorySegment.id s = segmentId)
       (GameContext.history (Hook.context h')) = Some (idx, seg')
     /\ StorySegment.currentVersionIndex seg'
        = StorySegment.currentVersionIndex seg
     /\ StorySegment.versions seg' = Some versions)
  /\ (forall env direction i,
        (2 <= length versions)%nat ->
        StorySegment.currentVersionIndex seg = Some i ->
        0 <= i < len ->
        exists seg',
          list_find (fun s => StorySegment.id s = segmentId)
            (GameContext.history
               (Hook.context (handleSwitchVersion env segmentId direction h)))
          = Some (idx, seg')
          /\ StorySegment.currentVersionIndex seg'
             = Some match direction with
                    | next => if i + 1 >=? len then 0 else i + 1
                    | prev => if i - 1 <? 0 then len - 1 else i - 1
                    end)
  /\ (forall env direction,
        (length versions < 2)%nat ->
        Hook.context (handleSwitchVersion env segmentId direction h)
        = Hook.context h).
Proof.
  intros Hfind Hvs Hcase Hlen len h'. split; [|split].
  - unfold h'. rewrite handleSwitchVersion_context.
    destruct (decide (length versions < 2)%nat) as [Hfew|Hmany].
    + exists seg.
      assert (Hsame : forall times,
                fold_left (fun c now => switchVersion now segmentId next c)
                  times (Hook.context h) = Hook.context h).
      { induction times as [|now times IH]; [reflexivity|]. simpl.
        rewrite (switchVersion_too_few _ _ _ _ _ _ _ Hfind Hvs Hfew).
        exact IH. }
      rewrite Hsame. auto.
    + destruct Hcase as [Hfew|(i & Hi & Hrange)]; [contradiction|].
      destruct (switchVersion_next_steps segmentId idx versions
                  (map (fun env => Env.dateNow env 0) envs) ltac:(lia)
                  (Hook.context h) seg i Hfind Hvs Hi Hrange)
        as (seg' & Hfind' & Hvs' & Hi').
      exists seg'. split; [exact Hfind'|]. split; [|exact Hvs'].
      rewrite Hi', Hi. f_equal.
      rewrite length_map, Hlen.
      rewrite <- (Z.mul_1_l (Z.of_nat (length versions))) at 1.
      rewrite Z_mod_plus_full. apply Z.mod_small. exact Hrange.
  - intros env direction i Hmany Hi Hrange.
    destruct (switchVersion_step (Env.dateNow env 0) segmentId direction
                (Hook.context h) idx seg versions i Hfind Hvs Hi Hmany Hrange)
      as (seg' & v & Hfind' & _ & Hi' & _).
    exists seg'. split; [exact Hfind'|exact Hi'].
  - intros env direction Hfew.
    apply (switchVersion_too_few _ _ _ _ _ _ _ Hfind Hvs Hfew).
Qed.

(** Three versions, the second one shown: three steps forward. *)
Lemma handleSwitchVersion_next_cycle_witness :
  let h' :=
    fold_left
      (fun h env => handleSwitchVersion env (Js.lit "s1") next h)
      [Scenario.env; Scenario.env; Scenario.env] Scenario.versioned in
  exists seg',
    list_find (fun s => StorySegment.id s = Js.lit "s1")
      (GameContext.history (Hook.context h')) = Some (1%nat, seg')
    /\ StorySegment.currentVersionIndex seg' = Some 1.
Proof.
  intros h'.
  assert (Hfind :
    list_find (fun s => StorySegment.id s = Js.lit "s1")
      (GameContext.history (Hook.context Scenario.versioned))
    = Some (1%nat,
            StorySegment.showVersion Scenario.versions3 1
              (Version.Make (Scenario.prose 2) [] [] (Js.lit "TENSE") None)
              (Scenario.segment "s1" 2 None None (Some "go on"%string))))
    by (vm_compute; reflexivity).
  destruct (handleSwitchVersion_next_cycle (Js.lit "s1")
              [Scenario.env; Scenario.env; Scenario.env] Scenario.versioned
              1%nat _ Scenario.versions3 Hfind eq_refl)
    as [(seg' & H1 & H2 & _) _].
  - right. exists 1. split; [reflexivity|simpl; lia].
  - reflexivity.
  - exists seg'. split; [exact H1|exact H2].
Defined.

(** One step at a time on the sample segment: 1, 2, 0, 1. *)
Example switchVersion_three_steps :
  let step h := handleSwitchVersion Scenario.env (Js.lit "s1") next h in
  let shown h :=
    StorySegment.currentVersionIndex
      <$> GameContext.history (Hook.context h) !! 1%nat in
  shown Scenario.versioned = Some (Some 1)
  /\ shown (step Scenario.versioned) = Some (Some 2)
  /\ shown (step (step Scenario.versioned)) = Some (Some 0)
  /\ shown (step (step (step Scenario.versioned))) = Some (Some 1).
Proof. vm_compute. repeat split. Qed.

End VersionFacts.

(** ** Sessions: at most one active chapter *)

Module SessionFacts.
Import Engine.

(** What the planner can do to the blueprint. *)
Lemma handleAutoPlanBlueprint_blueprint env config h :
  GameContext.blueprint (Hook.context (handleAutoPlanBlueprint env config h))
  = GameContext.blueprint (Hook.context h)
  \/ exists chapters,
       Forall (fun c => PlotChapter.status c = pending) chapters
       /\ (GameContext.blueprint
             (Hook.context (handleAutoPlanBlueprint env config h))
           = GameContext.blueprint (Hook.context h) ++ chapters
           \/ GameContext.blueprint
                (Hook.context (handleAutoPlanBlueprint env config h))
              = chapters).
Proof.
  unfold handleAutoPlanBlueprint.
  destruct (negb (Js.truthy _)); [left; reflexivity|].
  destruct (negb (Js.truthy _)); [left; reflexivity|].
  destruct (Tracker.autoPlanBlueprint env config)
    as [[chapters newCharacters]|m] eqn:Hplan; [|left; reflexivity].
  right. exists chapters.
  split; [exact (TrackerFacts.autoPlanBlueprint_pending _ _ _ _ Hplan)|].
  unfold GameContext.blueprint. simpl.
  destruct config; [|right; reflexivity].
  destruct (GameContext.plotBlueprint (Hook.context h)) as [[|c cs]|];
    [right|left|right]; reflexivity.
Qed.

(** What a session start can do to the blueprint. *)
Lemma handleStartGame_blueprint env h :
  Hook.context (handleStartGame env h) = Hook.context h
  \/ exists openingSegment,
       GameContext.blueprint (Hook.context (handleStartGame env h))
       = Tracker.trackOpening openingSegment
           (match GameContext.plotBlueprint (Hook.context h) with
            | Some blueprint => Tracker.activateFirst blueprint
            | None => []
            end).
Proof.
  assert (Hfailed : forall m g,
            Hook.context (startFailed m (Hook.setGameState g
                            (Hook.setCurrentLoadedSaveId None
                               (Hook.setError None h))))
            = Hook.context h).
  { intros m g. unfold startFailed. case_bool_decide; reflexivity. }
  unfold handleStartGame.
  destruct (negb _ || negb _); [left; reflexivity|].
  destruct (Env.generateOpening env _) as [opening|m]; [|left; apply Hfailed].
  destruct (Env.aborted env 0); [left; reflexivity|].
  destruct (Env.generateCharacterAvatar env) as [avatarBase64|m];
    [|left; apply Hfailed].
  destruct (Env.generateSceneImage env) as [sceneBase64|m];
    [|left; apply Hfailed].
  destruct (Env.aborted env 1 || Env.aborted env 2); [left; reflexivity|].
  right.
  exists (StorySegment.withIdAndBackground
            (Js.or (StorySegment.id opening) (Env.generateUUID env 1))
            (Some sceneBase64) opening).
  reflexivity.
Qed.

Lemma handleRegenerate_blueprint env mode h :
  GameContext.plotBlueprint (Hook.context (handleRegenerate env mode h))
  = GameContext.plotBlueprint (Hook.context h).
Proof.
  unfold handleRegenerate. repeat case_match; reflexivity.
Qed.

Lemma switchVersion_blueprint now segmentId direction context :
  GameContext.plotBlueprint (switchVersion now segmentId direction context)
  = GameContext.plotBlueprint context.
Proof.
  unfold switchVersion. repeat case_match; reflexivity.
Qed.

Lemma handleChoice_blueprint_cases env choice fromIndex h :
  GameContext.blueprint (Hook.context (handleChoice env choice fromIndex h))
  = GameContext.blueprint (Hook.context h)
  \/ exists nextSegment,
       GameContext.blueprint
         (Hook.context (handleChoice env choice fromIndex h))
       = Tracker.advanceBlueprint nextSegment
           (GameContext.blueprint (Hook.context h)).
Proof.
  unfold handleChoice. destruct (Hook.isLoading h); [left; reflexivity|].
  destruct (Env.advanceStory env _) as [nextSegment|m]; [|left; reflexivity].
  right. exists nextSegment. reflexivity.
Qed.

(** On the setup screen of a new story every chapter is pending. *)
Lemma newSetup_pending h :
  newSetup h ->
  Forall (fun c => PlotChapter.status c = pending)
    (GameContext.blueprint (Hook.context h)).
Proof.
  induction 1 as [h|h context' _ IH Hsame|env config h _ IH|env h _ IH Hsame].
  - constructor.
  - unfold GameContext.blueprint in *. simpl. rewrite Hsame. exact IH.
  - destruct (handleAutoPlanBlueprint_blueprint env config h)
      as [->|(chapters & Hpending & [->| ->])].
    + exact IH.
    + apply Forall_app. split; assumption.
    + exact Hpending.
  - rewrite Hsame. exact IH.
Qed.

(** A start keeps the number of active chapters within one when every
    chapter of the setup is pending. *)
Lemma handleStartGame_activeCount env h :
  Forall (fun c => PlotChapter.status c = pending)
    (GameContext.blueprint (Hook.context h)) ->
  (Tracker.activeCount
     (GameContext.blueprint (Hook.context (handleStartGame env h))) <= 1)%nat.
Proof.
  intros Hpending.
  destruct (handleStartGame_blueprint env h) as [->|(seg & ->)].
  - rewrite (TrackerFacts.pending_activeCount _ Hpending). lia.
  - rewrite TrackerFacts.trackOpening_activeCount.
    unfold GameContext.blueprint in Hpending.
    destruct (GameContext.plotBlueprint (Hook.context h)) as [blueprint|].
    + apply TrackerFacts.activateFirst_activeCount. exact Hpending.
    + cbn. lia.
Qed.

(** Turns, planner calls, regenerations and version switches keep the
    number of active chapters within one. *)
Lemma handlers_activeCount h :
  (Tracker.activeCount (GameContext.blueprint (Hook.context h)) <= 1)%nat ->
  (forall env choice fromIndex,
     (Tracker.activeCount
        (GameContext.blueprint
           (Hook.context (handleChoice env choice fromIndex h))) <= 1)%nat)
  /\ (forall env config,
        (Tracker.activeCount
           (GameContext.blueprint
              (Hook.context (handleAutoPlanBlueprint env config h)))
         <= 1)%nat)
  /\ (forall env mode,
        (Tracker.activeCount
           (GameContext.blueprint (Hook.context (handleRegenerate env mode h)))
         <= 1)%nat)
  /\ (forall env segmentId direction,
        (Tracker.activeCount
           (GameContext.blueprint
              (Hook.context (handleSwitchVersion env segmentId direction h)))
         <= 1)%nat).
Proof.
  intros IH. repeat split.
  - intros env choice fromIndex.
    destruct (handleChoice_blueprint_cases env choice fromIndex h)
      as [->|(seg & ->)]; [exact IH|].
    now apply TrackerFacts.advanceBlueprint_activeCount.
  - intros env config.
    destruct (handleAutoPlanBlueprint_blueprint env config h)
      as [->|(chapters & Hpending & [->| ->])].
    + exact IH.
    + rewrite TrackerFacts.activeCount_app,
        (TrackerFacts.pending_activeCount _ Hpending). lia.
    + rewrite (TrackerFacts.pending_activeCount _ Hpending). lia.
  - intros env mode. unfold GameContext.blueprint in *.
    rewrite handleRegenerate_blueprint. exact IH.
  - intros env segmentId direction.
    unfold GameContext.blueprint, handleSwitchVersion in *. simpl.
    rewrite switchVersion_blueprint. exact IH.
Qed.

(** In a new story (a new setup that is started, then any number of turns,
    of planner calls, of regenerations and of version switches, and no
    checkpoint loaded) the blueprint, whatever its length, holds at most one
    active chapter. *)
Lemma newStory_at_most_one_active h :
  newStory h ->
  let blueprint := GameContext.blueprint (Hook.context h) in
  (Tracker.activeCount blueprint <= 1)%nat
  /\ forall i j ci cj,
       blueprint !! i = Some ci -> blueprint !! j = Some cj ->
       PlotChapter.status ci = active -> PlotChapter.status cj = active ->
       i = j.
Proof.
  intros Hstory blueprint.
  assert (Hcount : (Tracker.activeCount blueprint <= 1)%nat).
  { unfold blueprint. clear blueprint.
    induction Hstory
      as [env h Hsetup
         |env choice fromIndex h _ IH
         |env config h _ IH
         |env mode h _ IH
         |env segmentId direction h _ IH].
    - apply handleStartGame_activeCount. now apply newSetup_pending.
    - apply (handlers_activeCount h IH).
    - apply (handlers_activeCount h IH).
    - apply (handlers_activeCount h IH).
    - apply (handlers_activeCount h IH). }
  split; [exact Hcount|].
  apply TrackerFacts.activeCount_le_1. exact Hcount.
Qed.

(** The sample session is a new story: prepared, started, and played for
    three turns. *)
Example sample_is_new_story :
  let play h := handleChoice Scenario.env (Js.lit "go on") None h in
  let h := play (play (play (handleStartGame Scenario.env Scenario.prepared)))
  in
  newStory h
  /\ (Tracker.activeCount (GameContext.blueprint (Hook.context h)) <= 1)%nat.
Proof.
  intros play h.
  assert (Hsetup : newSetup Scenario.prepared).
  { apply setup_plan, setup_edit; [apply setup_new|reflexivity]. }
  assert (Hstory : newStory h).
  { repeat apply story_turn. apply story_start. exact Hsetup. }
  split; [exact Hstory|].
  exact (proj1 (newStory_at_most_one_active h Hstory)).
Qed.

(** In that session the first chapter is completed by the third turn and
    the second one is the active chapter. *)
Example session_statuses :
  let play h := handleChoice Scenario.env (Js.lit "go on") None h in
  let started := handleStartGame Scenario.env Scenario.prepared in
  map PlotChapter.status (GameContext.blueprint (Hook.context Scenario.prepared))
  = [pending; pending]
  /\ map PlotChapter.status (GameContext.blueprint (Hook.context started))
     = [active; pending]
  /\ map PlotChapter.status
       (GameContext.blueprint (Hook.context (play (play (play started)))))
     = [completed; active].
Proof. vm_compute. repeat split. Qed.

(** C3. The claim fails for a session that is started from a checkpoint
    loaded onto the setup screen. [handleStartGame] sets the first chapter
    active and leaves every other chapter as it is, and [handleLoadGame]
    with [forceSetup] puts the blueprint of a checkpoint on the setup
    screen with the progress booked on it. The sample session is prepared,
    started and played for three turns: its first chapter is completed and
    its second chapter is active, and the auto checkpoint of the third turn
    holds that blueprint. When that checkpoint is loaded onto the setup
    screen and the session is started from it, the session is in play with
    two active chapters; the next turn books on the first of them. *)
Theorem handleStartGame_on_loaded_checkpoint :
  let play h := handleChoice Scenario.env (Js.lit "go on") None h in
  let statuses h :=
    map PlotChapter.status (GameContext.blueprint (Hook.context h)) in
  let t3 := play (play (play (handleStartGame Scenario.env Scenario.prepared)))
  in
  match Hook.savedGames t3 with
  | save :: _ =>
      SavedGame.type save = AUTO
      /\ SavedGame.context save = Hook.context t3
      /\ statuses t3 = [completed; active]
      /\ Hook.gameState (handleLoadGame save true t3) = SETUP_SCREEN
      /\ statuses (handleLoadGame save true t3) = [completed; active]
      /\ let restarted :=
           handleStartGame Scenario.env (handleLoadGame save true t3) in
         Hook.gameState restarted = PLAYING
         /\ Hook.error restarted = None
         /\ length (GameContext.history (Hook.context restarted)) = 1%nat
         /\ statuses restarted = [active; active]
         /\ Tracker.activeCount
              (GameContext.blueprint (Hook.context restarted)) = 2%nat
         /\ (fst <$> Tracker.findActive
                       (GameContext.blueprint (Hook.context restarted)))
            = Some 0%nat
  | [] => False
  end.
Proof. vm_compute. repeat split. Qed.

End SessionFacts.

(** ** Turns: what a call of [handleChoice] commits *)

Module ChoiceFacts.
Import Tracker Engine.

(** The state after a turn whose generation succeeded. *)
Lemma handleChoice_committed env choice fromIndex h nextSegment :
  Hook.isLoading h = false ->
  Env.advanceStory env (turnArgs (Hook.context h) choice fromIndex)
  = Fulfilled nextSegment ->
  let history := baseHistory (Hook.context h) fromIndex in
  let newContext :=
    turnContext env (Hook.context h) history choice nextSegment in
  let segment := segmentWithChoice (Hook.context h) choice nextSegment in
  let saveObj := turnSave env history choice segment newContext in
  handleChoice env choice fromIndex h
  = Hook.Make (Hook.gameState h) newContext
      (autoSaveUpdater saveObj (Hook.savedGames h)) false (Hook.error h)
      (if Js.truthy (StorySegment.id segment)
       then Some (StorySegment.id segment) else None)
      (Hook.currentLoadedSaveId h)
      (Hook.advanceStoryCalls h
       ++ [turnArgs (Hook.context h) choice fromIndex])
      (Hook.storageSaves h ++ [saveObj]).
Proof.
  intros Hidle Hnext. unfold handleChoice. rewrite Hidle, Hnext.
  reflexivity.
Qed.

Lemma segmentWithChoice_id context choice nextSegment :
  StorySegment.id (segmentWithChoice context choice nextSegment)
  = StorySegment.id nextSegment.
Proof. reflexivity. Qed.


(** X2. The checkpoint that a turn hands to the storage service records the
    turn: it is an automatic save of the new segment, its parent is the last
    segment of the history that the turn started from, its turn count is the
    length of the new history, and loading it restores exactly the context
    that the turn produced, in play. *)
Theorem handleChoice_checkpoint_restores (env : Env.t) (choice : Js.str)
    (fromIndex : option Z) (h : Hook.t) (nextSegment : StorySegment.t) :
  Hook.isLoading h = false ->
  Env.advanceStory env (turnArgs (Hook.context h) choice fromIndex)
  = Fulfilled nextSegment ->
  let h' := handleChoice env choice fromIndex h in
  exists save,
    last (Hook.storageSaves h') = Some save
    /\ SavedGame.type save = AUTO
    /\ SavedGame.sessionId save = GameContext.sessionId (Hook.context h')
    /\ SavedGame.storyId save
       = StorySegment.id <$> GameContext.currentSegment (Hook.context h')
    /\ SavedGame.parentId save
       = StorySegment.id <$> last (baseHistory (Hook.context h) fromIndex)
    /\ SavedGame.turnCount save
       = Z.of_nat (length (GameContext.history (Hook.context h')))
    /\ forall h0,
         Hook.context (handleLoadGame save false h0) = Hook.context h'
         /\ Hook.gameState (handleLoadGame save false h0) = PLAYING
         /\ Hook.currentLoadedSaveId (handleLoadGame save false h0)
            = Some (SavedGame.id save).
Proof.
  intros Hidle Hgen h'. subst h'.
  rewrite (handleChoice_committed _ _ _ _ _ Hidle Hgen).
  eexists. cbn [Hook.storageSaves]. rewrite last_snoc.
  split; [reflexivity|]. repeat split.
Qed.

Lemma handleChoice_checkpoint_restores_witness :
  let h' := handleChoice Scenario.env (Js.lit "go on") None Scenario.started in
  exists save,
    last (Hook.storageSaves h') = Some save
    /\ Hook.context (handleLoadGame save false Scenario.blank) = Hook.context h'.
Proof.
  intros h'.
  assert (Hidle : Hook.isLoading Scenario.started = false) by reflexivity.
  assert (Hnext :
    Env.advanceStory Scenario.env
      (turnArgs (Hook.context Scenario.started) (Js.lit "go on") None)
    = Fulfilled (Scenario.segment "s1" 100 None None None))
    by reflexivity.
  destruct (handleChoice_checkpoint_restores Scenario.env (Js.lit "go on")
              None Scenario.started _ Hidle Hnext)
    as (save & Hlast & _ & _ & _ & _ & _ & Hload).
  exists save. split; [exact Hlast | exact (proj1 (Hload Scenario.blank))].
Defined.

(** A turn played without an index, or with an index at or past the
    last segment, keeps the whole history: the backend is given all of it,
    and on success the history is the old one with the new segment appended
    and nothing else changed in it. *)
Lemma handleChoice_appends (env : Env.t) (choice : Js.str)
    (fromIndex : option Z) (h : Hook.t) (nextSegment : StorySegment.t) :
  match fromIndex with
  | Some i => Z.of_nat (length (GameContext.history (Hook.context h))) - 1 <= i
  | None => True
  end ->
  Hook.isLoading h = false ->
  Env.advanceStory env (turnArgs (Hook.context h) choice fromIndex)
  = Fulfilled nextSegment ->
  let h' := handleChoice env choice fromIndex h in
  h' = handleChoice env choice None h
  /\ (AdvanceStoryArgs.history <$> last (Hook.advanceStoryCalls h'))
     = Some (GameContext.history (Hook.context h))
  /\ GameContext.history (Hook.context h')
     = GameContext.history (Hook.context h)
       ++ [segmentWithChoice (Hook.context h) choice nextSegment]
  /\ GameContext.currentSegment (Hook.context h')
     = Some (segmentWithChoice (Hook.context h) choice nextSegment).
Proof.
  intros Hi Hidle Hgen h'.
  assert (Hbase : baseHistory (Hook.context h) fromIndex
                  = GameContext.history (Hook.context h)).
  { destruct fromIndex as [i|]; [|done]. unfold baseHistory.
    destruct (Z.ltb_spec i
                (Z.of_nat (length (GameContext.history (Hook.context h))) - 1));
      [lia | done]. }
  assert (Hargs : turnArgs (Hook.context h) choice fromIndex
                  = turnArgs (Hook.context h) choice None).
  { unfold turnArgs. by rewrite Hbase. }
  subst h'. split.
  - unfold handleChoice. by rewrite Hargs, Hbase.
  - rewrite (handleChoice_committed _ _ _ _ _ Hidle Hgen).
    cbn [Hook.advanceStoryCalls Hook.context]. rewrite last_snoc, Hbase.
    repeat split. simpl. by rewrite Hbase.
Qed.

(** Affinity moves only by the deltas of the generated segment. A turn
    keeps the supporting characters in place with their identity, role,
    initial affinity and avatar; a character whose name has a non-zero delta
    gets that delta added to its affinity (a missing affinity counts as 0),
    and every other character is exactly as before. *)
Lemma handleChoice_affinity (env : Env.t) (choice : Js.str)
    (fromIndex : option Z) (h : Hook.t) (nextSegment : StorySegment.t) :
  Hook.isLoading h = false ->
  Env.advanceStory env (turnArgs (Hook.context h) choice fromIndex)
  = Fulfilled nextSegment ->
  let before := GameContext.supportingCharacters (Hook.context h) in
  let after :=
    GameContext.supportingCharacters
      (Hook.context (handleChoice env choice fromIndex h)) in
  let delta (c : SupportingCharacter.t) : Z :=
    default 0 (changes ← StorySegment.affinityChanges nextSegment;
               changes !! SupportingCharacter.name c) in
  length after = length before
  /\ forall i c,
       before !! i = Some c ->
       exists c',
         after !! i = Some c'
         /\ SupportingCharacter.id c' = SupportingCharacter.id c
         /\ SupportingCharacter.name c' = SupportingCharacter.name c
         /\ SupportingCharacter.role c' = SupportingCharacter.role c
         /\ SupportingCharacter.initialAffinity c'
            = SupportingCharacter.initialAffinity c
         /\ SupportingCharacter.avatar c' = SupportingCharacter.avatar c
         /\ (delta c = 0 -> c' = c)
         /\ (delta c <> 0 ->
             SupportingCharacter.affinity c'
             = Some (default 0 (SupportingCharacter.affinity c) + delta c)).
Proof.
  intros Hidle Hgen before after delta. subst after.
  rewrite (handleChoice_committed _ _ _ _ _ Hidle Hgen).
  cbn [Hook.context]. unfold turnContext.
  cbn [GameContext.supportingCharacters]. fold before.
  unfold applyAffinity, delta.
  destruct (StorySegment.affinityChanges nextSegment) as [changes|]; simpl.
  - split; [by rewrite length_map|]. intros i c Hc.
    rewrite list_lookup_fmap, Hc. simpl.
    destruct (changes !! SupportingCharacter.name c) as [d|]; simpl.
    + destruct (Z.eqb_spec d 0) as [->|Hd].
      * exists c. repeat split; [done..|]. intros Hn. by destruct Hn.
      * eexists. split; [reflexivity|]. repeat split; [congruence|].
        intros _. simpl. f_equal. f_equal.
        unfold Js.orNumOpt, Js.orNum.
        destruct (SupportingCharacter.affinity c) as [a|]; [|done]. simpl.
        by destruct (Z.eqb_spec a 0) as [->|].
    + exists c. repeat split; [done..|]. intros Hn. by destruct Hn.
  - split; [done|]. intros i c Hc. exists c.
    repeat split; [done..|]. intros Hn. by destruct Hn.
Qed.


(** X3. The checkpoints of consecutive turns form a chain. When a turn is
    followed by a turn that is played from the end of the history, the
    second checkpoint names as its parent the story node of the first one,
    and its turn count is one more. *)
Theorem handleChoice_checkpoints_chain (env1 env2 : Env.t)
    (choice1 choice2 : Js.str) (fromIndex : option Z) (h : Hook.t)
    (segment1 segment2 : StorySegment.t) :
  Hook.isLoading h = false ->
  Env.advanceStory env1 (turnArgs (Hook.context h) choice1 fromIndex)
  = Fulfilled segment1 ->
  let h1 := handleChoice env1 choice1 fromIndex h in
  Env.advanceStory env2 (turnArgs (Hook.context h1) choice2 None)
  = Fulfilled segment2 ->
  let h2 := handleChoice env2 choice2 None h1 in
  exists save1 save2,
    Hook.storageSaves h2 = Hook.storageSaves h ++ [save1; save2]
    /\ SavedGame.storyId save1 = Some (StorySegment.id segment1)
    /\ SavedGame.storyId save2 = Some (StorySegment.id segment2)
    /\ SavedGame.parentId save2 = SavedGame.storyId save1
    /\ SavedGame.turnCount save2 = SavedGame.turnCount save1 + 1
    /\ SavedGame.choiceText save2 = Some choice2.
Proof.
  intros Hidle Hgen1 h1 Hgen2 h2.
  assert (Hh1 := handleChoice_committed _ _ _ _ _ Hidle Hgen1).
  fold h1 in Hh1. cbv zeta in Hh1.
  assert (Hidle1 : Hook.isLoading h1 = false) by (by rewrite Hh1).
  assert (Hh2 := handleChoice_committed _ _ _ _ _ Hidle1 Hgen2).
  fold h2 in Hh2. cbv zeta in Hh2.
  eexists. eexists. split.
  { rewrite Hh2. cbn [Hook.storageSaves]. rewrite Hh1 at 1.
    cbn [Hook.storageSaves]. rewrite <- app_assoc. reflexivity. }
  assert (Hhist : GameContext.history (Hook.context h1)
                  = baseHistory (Hook.context h) fromIndex
                    ++ [segmentWithChoice (Hook.context h) choice1 segment1]).
  { by rewrite Hh1. }
  cbn [SavedGame.storyId SavedGame.parentId SavedGame.turnCount
       SavedGame.choiceText turnSave baseHistory turnContext
       GameContext.history].
  rewrite Hhist, last_snoc, !length_app. simpl.
  repeat split. lia.
Qed.

Lemma handleChoice_checkpoints_chain_witness :
  let h1 := handleChoice Scenario.env (Js.lit "go on") None Scenario.started in
  let h2 := handleChoice Scenario.env (Js.lit "turn back") None h1 in
  exists save1 save2,
    Hook.storageSaves h2 = [save1; save2]
    /\ SavedGame.parentId save2 = SavedGame.storyId save1.
Proof.
  intros h1 h2.
  assert (Hidle : Hook.isLoading Scenario.started = false) by reflexivity.
  assert (Hgen1 :
    Env.advanceStory Scenario.env
      (turnArgs (Hook.context Scenario.started) (Js.lit "go on") None)
    = Fulfilled (Scenario.segment "s1" 100 None None None))
    by reflexivity.
  assert (Hgen2 :
    Env.advanceStory Scenario.env
      (turnArgs (Hook.context h1) (Js.lit "turn back") None)
    = Fulfilled (Scenario.segment "s2" 150 (Some "evt-1"%string) None None))
    by reflexivity.
  destruct (handleChoice_checkpoints_chain Scenario.env Scenario.env
              (Js.lit "go on") (Js.lit "turn back") None Scenario.started
              _ _ Hidle Hgen1 Hgen2)
    as (save1 & save2 & Hsaves & _ & _ & Hparent & _).
  exists save1, save2. split; [exact Hsaves | exact Hparent].
Defined.

(** A turn completes the scheduled event that the new segment
    triggers, and does nothing else to the events: none is added or
    dropped, identifier, description and creation turn are kept, an event
    that is completed stays as it is, and an event is completed afterwards
    exactly when it was before or when its non-empty identifier is the one
    triggered. *)
Lemma handleChoice_events (env : Env.t) (choice : Js.str)
    (fromIndex : option Z) (h : Hook.t) (nextSegment : StorySegment.t) :
  Hook.isLoading h = false ->
  Env.advanceStory env (turnArgs (Hook.context h) choice fromIndex)
  = Fulfilled nextSegment ->
  let before := GameContext.events (Hook.context h) in
  let after :=
    GameContext.events (Hook.context (handleChoice env choice fromIndex h)) in
  length after = length before
  /\ forall i e,
       before !! i = Some e ->
       exists e',
         after !! i = Some e'
         /\ ScheduledEvent.id e' = ScheduledEvent.id e
         /\ ScheduledEvent.description e' = ScheduledEvent.description e
         /\ ScheduledEvent.createdTurn e' = ScheduledEvent.createdTurn e
         /\ (ScheduledEvent.status e = ScheduledEvent.completed -> e' = e)
         /\ (ScheduledEvent.status e' = ScheduledEvent.completed
             <-> ScheduledEvent.status e = ScheduledEvent.completed
                 \/ (StorySegment.triggeredEventId nextSegment
                     = Some (ScheduledEvent.id e)
                     /\ ScheduledEvent.id e <> [])).
Proof.
  intros Hidle Hgen before after. subst after.
  rewrite (handleChoice_committed _ _ _ _ _ Hidle Hgen).
  cbn [Hook.context].
  change (GameContext.events (turnContext _ _ _ _ _))
    with (completeEvent (StorySegment.triggeredEventId nextSegment) before).
  unfold completeEvent.
  destruct (Js.carries (StorySegment.triggeredEventId nextSegment)) eqn:Hcar.
  - split; [by rewrite length_map|]. intros i e He.
    rewrite list_lookup_fmap, He. simpl.
    apply TrackerFacts.carries_spec in Hcar as (eventId & Htrig & Hne).
    case_bool_decide as Hid.
    + eexists. split; [reflexivity|]. repeat split.
      * intros Hdone. destruct e. simpl in *. by rewrite Hdone.
      * intros _. right. rewrite <- Hid in Htrig. injection Htrig as <-.
        by rewrite <- Hid.
    + exists e. repeat split; try done.
      * by left.
      * intros [Hdone|[Htr _]]; [done|]. by rewrite Htr in Hid.
  - split; [done|]. intros i e He. exists e. repeat split; try done.
    + by left.
    + intros [Hdone|[Htr Hne]]; [done|].
      rewrite Htr in Hcar. simpl in Hcar. by destruct (ScheduledEvent.id e).
Qed.

End ChoiceFacts.

(** ** Chapters: the order in which a session works through them *)

Module ProgressFacts.
Import Tracker Engine Invariant.

(** The identifier and the status of every chapter after the blueprint
    block of a turn. *)
Lemma advanceBlueprint_status seg blueprint a chapter j c :
  findActive blueprint = Some (a, chapter) ->
  blueprint !! j = Some c ->
  exists c',
    advanceBlueprint seg blueprint !! j = Some c'
    /\ PlotChapter.id c' = PlotChapter.id c
    /\ (j <> a -> j <> (a + 1)%nat -> c' = c)
    /\ PlotChapter.status c'
       = if goalsReached chapter (trackSegment chapter seg)
         then if decide (j = a) then completed
              else if decide (j = (a + 1)%nat) then active
              else PlotChapter.status c
         else PlotChapter.status c.
Proof.
  intros Hfind Hj.
  pose proof (TrackerFacts.findActive_Some _ _ _ Hfind) as (Ha & _ & _).
  pose proof (lookup_lt_Some _ _ _ Hj) as Hlt.
  rewrite (TrackerFacts.advanceBlueprint_found _ _ _ _ Hfind).
  destruct (goalsReached chapter (trackSegment chapter seg)).
  - destruct (decide (j = a)) as [->|Hja].
    + assert (c = chapter) as -> by congruence.
      eexists. split.
      * apply list_lookup_insert_eq.
        destruct (blueprint !! (a + 1)%nat); [by rewrite length_insert|done].
      * repeat split. intros Hn. by destruct Hn.
    + rewrite list_lookup_insert_ne by done.
      destruct (decide (j = (a + 1)%nat)) as [->|Hja1].
      * rewrite Hj. eexists. split.
        { by apply list_lookup_insert_eq. }
        repeat split. intros _ Hn. by destruct Hn.
      * destruct (blueprint !! (a + 1)%nat).
        { rewrite list_lookup_insert_ne by done. by exists c. }
        by exists c.
  - destruct (decide (j = a)) as [->|Hja].
    + assert (c = chapter) as -> by congruence.
      eexists. split; [by apply list_lookup_insert_eq|].
      repeat split. intros Hn. by destruct Hn.
    + rewrite list_lookup_insert_ne by done. by exists c.
Qed.

Lemma advanceBlueprint_inactive seg blueprint :
  activeCount blueprint = 0%nat ->
  advanceBlueprint seg blueprint = blueprint.
Proof.
  intros Hzero. unfold advanceBlueprint.
  destruct (findActive blueprint) as [[a chapter]|] eqn:Hfind; [|done].
  apply TrackerFacts.findActive_Some in Hfind as (Ha & Hactive & _).
  pose proof (TrackerFacts.activeCount_lookup _ _ _ Ha Hactive). lia.
Qed.

Lemma advanceBlueprint_ordered seg blueprint :
  ordered blueprint -> ordered (advanceBlueprint seg blueprint).
Proof.
  intros Hord.
  destruct (findActive blueprint) as [[a chapter]|] eqn:Hfind.
  2:{ unfold advanceBlueprint. by rewrite Hfind. }
  pose proof (TrackerFacts.findActive_Some _ _ _ Hfind) as (Ha & Hactive & _).
  intros i j ci' cj' Hi Hj Hij.
  assert (exists ci, blueprint !! i = Some ci) as [ci Hci].
  { apply lookup_lt_is_Some. apply lookup_lt_Some in Hi.
    by rewrite TrackerFacts.advanceBlueprint_length in Hi. }
  assert (exists cj, blueprint !! j = Some cj) as [cj Hcj].
  { apply lookup_lt_is_Some. apply lookup_lt_Some in Hj.
    by rewrite TrackerFacts.advanceBlueprint_length in Hj. }
  destruct (advanceBlueprint_status seg _ _ _ _ _ Hfind Hci)
    as (x & Hx & _ & _ & Hsi).
  destruct (advanceBlueprint_status seg _ _ _ _ _ Hfind Hcj)
    as (y & Hy & _ & _ & Hsj).
  assert (x = ci') as -> by congruence.
  assert (y = cj') as -> by congruence.
  rewrite Hsi, Hsj.
  destruct (goalsReached chapter (trackSegment chapter seg));
    [|by apply (Hord i j)].
  destruct (decide (i = a)) as [->|Hia]; [by left|].
  destruct (decide (j = a)) as [->|Hja].
  { destruct (Hord i a ci chapter Hci Ha Hij) as [Hc|Hp]; [|congruence].
    left. by destruct (decide (i = (a + 1)%nat)); [lia|]. }
  destruct (decide (i = (a + 1)%nat)) as [->|Hia1].
  { right. destruct (decide (j = (a + 1)%nat)); [lia|].
    destruct (Hord a j chapter cj Ha Hcj ltac:(lia)); [congruence|done]. }
  destruct (decide (j = (a + 1)%nat)) as [->|Hja1]; [|by apply (Hord i j)].
  left. destruct (Hord i a ci chapter Hci Ha ltac:(lia)); [done|congruence].
Qed.

Lemma pending_ordered blueprint chapters :
  ordered blueprint ->
  Forall (fun c => PlotChapter.status c = pending) chapters ->
  ordered (blueprint ++ chapters).
Proof.
  intros Hord Hpend i j ci cj Hi Hj Hij.
  apply lookup_app_Some in Hj as [Hj|[Hlen Hj]].
  - apply lookup_app_Some in Hi as [Hi|[Hlen' _]].
    + by apply (Hord i j).
    + apply lookup_lt_Some in Hj. lia.
  - right. rewrite Forall_lookup in Hpend. by eapply Hpend.
Qed.

Lemma ordered_nil : ordered [].
Proof. intros i j ci cj Hi. by rewrite lookup_nil in Hi. Qed.

Lemma trackOpening_activateFirst_status seg blueprint j c' :
  trackOpening seg (activateFirst blueprint) !! j = Some c' ->
  exists c,
    blueprint !! j = Some c
    /\ PlotChapter.status c'
       = if (j =? 0)%nat then active else PlotChapter.status c.
Proof.
  unfold trackOpening, activateFirst.
  change (map ?f ?l) with (f <$> l).
  rewrite list_lookup_fmap, list_lookup_imap.
  destruct (blueprint !! j) as [c|]; [|done]. simpl.
  intros [= <-]. exists c. split; [done|].
  destruct (j =? 0)%nat; by case_bool_decide.
Qed.

Lemma started_ordered seg blueprint :
  Forall (fun c => PlotChapter.status c = pending) blueprint ->
  ordered (trackOpening seg (activateFirst blueprint)).
Proof.
  intros Hpend i j ci cj Hi Hj Hij. right.
  apply trackOpening_activateFirst_status in Hj as (c & Hc & ->).
  destruct (Nat.eqb_spec j 0); [lia|].
  rewrite Forall_lookup in Hpend. by eapply Hpend.
Qed.

Lemma handleStartGame_ordered env h :
  Forall (fun c => PlotChapter.status c = pending)
    (GameContext.blueprint (Hook.context h)) ->
  ordered (GameContext.blueprint (Hook.context (handleStartGame env h))).
Proof.
  intros Hpend.
  destruct (SessionFacts.handleStartGame_blueprint env h) as [->|[seg ->]].
  - intros i j ci cj _ Hj _. right.
    rewrite Forall_lookup in Hpend. by eapply Hpend.
  - unfold GameContext.blueprint in Hpend.
    destruct (GameContext.plotBlueprint (Hook.context h)) as [bp|].
    + by apply started_ordered.
    + apply ordered_nil.
Qed.

Lemma handleChoice_ordered env choice fromIndex h :
  ordered (GameContext.blueprint (Hook.context h)) ->
  ordered
    (GameContext.blueprint (Hook.context (handleChoice env choice fromIndex h))).
Proof.
  intros Hord.
  destruct (SessionFacts.handleChoice_blueprint_cases env choice fromIndex h)
    as [->|[seg ->]]; [done|]. by apply advanceBlueprint_ordered.
Qed.

Lemma handleAutoPlanBlueprint_ordered env config h :
  ordered (GameContext.blueprint (Hook.context h)) ->
  ordered
    (GameContext.blueprint
       (Hook.context (handleAutoPlanBlueprint env config h))).
Proof.
  intros Hord.
  destruct (SessionFacts.handleAutoPlanBlueprint_blueprint env config h)
    as [->|(chapters & Hpend & [->| ->])]; [done| |].
  - by apply pending_ordered.
  - apply (pending_ordered [] chapters ordered_nil Hpend).
Qed.

(** A blueprint whose first chapter is completed or whose second chapter
    waits, and that has no third chapter, is in order. *)
Lemma ordered_two (first second : PlotChapter.t) :
  PlotChapter.status first = completed
  \/ PlotChapter.status second = pending ->
  ordered [first; second].
Proof.
  intros Hor i j ci cj Hi Hj Hij.
  destruct i as [|i]; destruct j as [|[|j]]; try lia; try done.
  simpl in Hi, Hj. injection Hi as <-. injection Hj as <-. exact Hor.
Qed.

(** In a new story the chapters are in order. *)
Lemma newStory_ordered h :
  newStory h -> ordered (GameContext.blueprint (Hook.context h)).
Proof.
  induction 1 as [env h Hsetup|env choice fromIndex h _ IH|env config h _ IH
                 |env mode h _ IH|env segmentId direction h _ IH].
  - apply handleStartGame_ordered. by apply SessionFacts.newSetup_pending.
  - by apply handleChoice_ordered.
  - by apply handleAutoPlanBlueprint_ordered.
  - unfold GameContext.blueprint.
    by rewrite SessionFacts.handleRegenerate_blueprint.
  - unfold GameContext.blueprint, handleSwitchVersion.
    cbn [Hook.context Hook.setContext].
    by rewrite SessionFacts.switchVersion_blueprint.
Qed.

(** X4. The handlers of a story in play keep the chapters in order. The
    chapters are in order when, of any two of them, the earlier one is
    completed or the later one waits: nothing but completed chapters comes
    before a chapter that is active or completed. When that holds before a
    call of [handleChoice], [handleAutoPlanBlueprint], [handleRegenerate]
    or [handleSwitchVersion], it holds after the call, whatever the
    collaborators answer: no chapter is skipped and none is taken up again.
    [handleStartGame] puts the chapters in order when every chapter of the
    setup waits; it need not when the setup holds progress. *)
Theorem handlers_keep_chapters_in_order (h : Hook.t) :
  ordered (GameContext.blueprint (Hook.context h)) ->
  (forall env choice fromIndex,
     ordered
       (GameContext.blueprint
          (Hook.context (handleChoice env choice fromIndex h))))
  /\ (forall env config,
        ordered
          (GameContext.blueprint
             (Hook.context (handleAutoPlanBlueprint env config h))))
  /\ (forall env mode,
        GameContext.blueprint (Hook.context (handleRegenerate env mode h))
        = GameContext.blueprint (Hook.context h))
  /\ (forall env segmentId direction,
        GameContext.blueprint
          (Hook.context (handleSwitchVersion env segmentId direction h))
        = GameContext.blueprint (Hook.context h))
  /\ (forall env,
        Forall (fun c => PlotChapter.status c = pending)
          (GameContext.blueprint (Hook.context h)) ->
        ordered
          (GameContext.blueprint (Hook.context (handleStartGame env h)))).
Proof.
  intros Hord. repeat split.
  - intros env choice fromIndex. by apply handleChoice_ordered.
  - intros env config. by apply handleAutoPlanBlueprint_ordered.
  - intros env mode. unfold GameContext.blueprint.
    by rewrite SessionFacts.handleRegenerate_blueprint.
  - intros env segmentId direction.
    unfold GameContext.blueprint, handleSwitchVersion.
    cbn [Hook.context Hook.setContext].
    by rewrite SessionFacts.switchVersion_blueprint.
  - intros env. apply handleStartGame_ordered.
Qed.

(** The sample session after its third turn, with the first chapter
    completed and the second one active: the chapters are in order, and
    they are after a fourth turn. *)
Lemma handlers_keep_chapters_in_order_witness :
  let play h := handleChoice Scenario.env (Js.lit "go on") None h in
  let h := play (play (play (handleStartGame Scenario.env Scenario.prepared)))
  in
  map PlotChapter.status (GameContext.blueprint (Hook.context h))
  = [completed; active]
  /\ ordered (GameContext.blueprint (Hook.context h))
  /\ ordered (GameContext.blueprint (Hook.context (play h))).
Proof.
  intros play h.
  assert (Hord : ordered (GameContext.blueprint (Hook.context h))).
  { destruct (GameContext.blueprint (Hook.context h))
      as [|first [|second [|third rest]]] eqn:Hbp;
      try (vm_compute in Hbp; discriminate Hbp).
    apply ordered_two. left.
    apply (f_equal (fun l => PlotChapter.status <$> head l)) in Hbp.
    vm_compute in Hbp. injection Hbp as Hfirst. symmetry. exact Hfirst. }
  split; [reflexivity|]. split; [exact Hord|].
  exact (proj1 (handlers_keep_chapters_in_order h Hord) Scenario.env
           (Js.lit "go on") None).
Defined.

(** X5. A completed chapter is final as long as the chapters are in order:
    a call of [handleChoice] then leaves every completed chapter exactly as
    it is, with its status, the statistics booked on it and its turn
    count. Whatever the order of the chapters, a call changes a completed
    chapter in one case only: the chapter that stands right behind the
    first active chapter is set active, and is otherwise as it was. *)
Theorem handleChoice_keeps_completed_chapters (env : Env.t) (choice : Js.str)
    (fromIndex : option Z) (h : Hook.t) (j : nat) (c : PlotChapter.t) :
  GameContext.blueprint (Hook.context h) !! j = Some c ->
  PlotChapter.status c = completed ->
  let after :=
    GameContext.blueprint (Hook.context (handleChoice env choice fromIndex h))
  in
  (after !! j = Some c
   \/ (exists a chapter,
         findActive (GameContext.blueprint (Hook.context h))
         = Some (a, chapter)
         /\ j = (a + 1)%nat
         /\ after !! j = Some (PlotChapter.withStatus active c)))
  /\ (ordered (GameContext.blueprint (Hook.context h)) ->
      after !! j = Some c).
Proof.
  intros Hj Hdone after. subst after.
  destruct (SessionFacts.handleChoice_blueprint_cases env choice fromIndex h)
    as [->|[seg ->]]; [by split; [left|]|].
  destruct (findActive (GameContext.blueprint (Hook.context h)))
    as [[a chapter]|] eqn:Hfind.
  2:{ unfold advanceBlueprint. rewrite Hfind. by split; [left|]. }
  pose proof (TrackerFacts.findActive_Some _ _ _ Hfind) as (Ha & Hactive & _).
  destruct (advanceBlueprint_status seg _ _ _ _ _ Hfind Hj)
    as (c' & Hc' & _ & Hsame & _).
  assert (Hja : j <> a) by (intros ->; congruence).
  destruct (decide (j = (a + 1)%nat)) as [->|Hja1].
  - split.
    + rewrite (TrackerFacts.advanceBlueprint_found _ _ _ _ Hfind).
      destruct (goalsReached _ _).
      * right. exists a, chapter. repeat split.
        rewrite list_lookup_insert_ne by done. rewrite Hj.
        apply list_lookup_insert_eq. by eapply lookup_lt_Some.
      * left. by rewrite list_lookup_insert_ne.
    + intros Hord.
      destruct (Hord a (a + 1)%nat chapter c Ha Hj ltac:(lia)); congruence.
  - assert (c' = c) as -> by by apply Hsame.
    by split; [left|].
Qed.

(** The sample session after its third turn: the first chapter is
    completed, and a fourth turn leaves it as it is. *)
Lemma handleChoice_keeps_completed_chapters_witness :
  let play h := handleChoice Scenario.env (Js.lit "go on") None h in
  let h := play (play (play (handleStartGame Scenario.env Scenario.prepared)))
  in
  (PlotChapter.status
     <$> GameContext.blueprint (Hook.context h) !! 0%nat) = Some completed
  /\ GameContext.blueprint (Hook.context (play h)) !! 0%nat
     = GameContext.blueprint (Hook.context h) !! 0%nat.
Proof.
  intros play h.
  assert (Hord : ordered (GameContext.blueprint (Hook.context h))).
  { destruct (GameContext.blueprint (Hook.context h))
      as [|first [|second [|third rest]]] eqn:Hbp;
      try (vm_compute in Hbp; discriminate Hbp).
    apply ordered_two. left.
    apply (f_equal (fun l => PlotChapter.status <$> head l)) in Hbp.
    vm_compute in Hbp. injection Hbp as Hfirst. symmetry. exact Hfirst. }
  destruct (GameContext.blueprint (Hook.context h) !! 0%nat) as [c|] eqn:Hc;
    [|vm_compute in Hc; discriminate].
  assert (Hdone : PlotChapter.status c = completed).
  { vm_compute in Hc. by injection Hc as <-. }
  split; [simpl; by rewrite Hdone|].
  exact (proj2 (handleChoice_keeps_completed_chapters Scenario.env
                  (Js.lit "go on") None h 0%nat c Hc Hdone) Hord).
Defined.

(** Without the order a completed chapter is taken up again. A setup whose
    two chapters are both completed is started: the first chapter becomes
    active in front of a completed one, and the turn that completes it once
    more sets the second chapter active. *)
Example handleChoice_reopens_completed_chapter :
  let blueprint :=
    [Scenario.chapter "c1" completed 100 "Mira";
     Scenario.chapter "c2" completed 100 "Oren"] in
  let loaded :=
    Hook.setContext
      (GameContext.Make (Js.lit "session-1") None (Js.lit "FANTASY")
         Scenario.protagonist [] [] None 0 DEFAULT_MEMORY (Some [])
         (Some blueprint))
      Scenario.blank in
  let play env h := handleChoice env (Js.lit "go on") None h in
  map PlotChapter.status
    (GameContext.blueprint
       (Hook.context
          (play Scenario.env
             (play Scenario.env
                (play Scenario.env (handleStartGame Scenario.env loaded))))))
  = [completed; active].
Proof. vm_compute. reflexivity. Qed.

(** X6. Once no chapter is active, turns never start one: whatever the
    turns bring, the blueprint stays as it is. Chapters that the planner
    appends behind a completed last chapter therefore never begin. *)
Theorem turns_without_active_chapter (ts : list Play.turn) (h : Hook.t) :
  activeCount (GameContext.blueprint (Hook.context h)) = 0%nat ->
  GameContext.blueprint (Hook.context (Play.turns ts h))
  = GameContext.blueprint (Hook.context h).
Proof.
  revert h. induction ts as [|[[env choice] fromIndex] ts IH]; intros h Hzero;
    [done|].
  unfold Play.turns. simpl. fold (Play.turns ts).
  assert (Hstep :
    GameContext.blueprint (Hook.context (handleChoice env choice fromIndex h))
    = GameContext.blueprint (Hook.context h)).
  { destruct (SessionFacts.handleChoice_blueprint_cases env choice fromIndex h)
      as [->|[seg ->]]; [done|]. by apply advanceBlueprint_inactive. }
  rewrite IH; rewrite Hstep; done.
Qed.

Lemma turns_without_active_chapter_witness :
  map PlotChapter.status
    (GameContext.blueprint
       (Hook.context
          (Play.turns
             [(Samples.fond, Js.lit "go on", None);
              (Scenario.env, Js.lit "turn back", None)]
             Samples.stalled)))
  = [completed; pending].
Proof.
  assert (Hzero :
    activeCount (GameContext.blueprint (Hook.context Samples.stalled)) = 0%nat)
    by reflexivity.
  rewrite (turns_without_active_chapter
             [(Samples.fond, Js.lit "go on", None);
              (Scenario.env, Js.lit "turn back", None)]
             Samples.stalled Hzero).
  reflexivity.
Defined.


(** X7. The segment of a turn is attributed to the chapter that was active
    when the turn began, also when the turn completes that chapter, and to
    no chapter when none was active; the chapter that the backend names is
    overwritten. The segment records the choice as its cause, and its other
    fields are those that the backend returned. *)
Theorem handleChoice_attributes_segment (env : Env.t) (choice : Js.str)
    (fromIndex : option Z) (h : Hook.t) (nextSegment : StorySegment.t) :
  Hook.isLoading h = false ->
  Env.advanceStory env (turnArgs (Hook.context h) choice fromIndex)
  = Fulfilled nextSegment ->
  let c' := Hook.context (handleChoice env choice fromIndex h) in
  exists segment,
    GameContext.currentSegment c' = Some segment
    /\ last (GameContext.history c') = Some segment
    /\ StorySegment.causedBy segment = Some choice
    /\ StorySegment.chapterId segment
       = (fun found => PlotChapter.id found.2)
           <$> findActive (GameContext.blueprint (Hook.context h))
    /\ StorySegment.withCause (StorySegment.causedBy nextSegment)
         (StorySegment.chapterId nextSegment) segment
       = nextSegment.
Proof.
  intros Hidle Hgen c'. subst c'.
  rewrite (ChoiceFacts.handleChoice_committed _ _ _ _ _ Hidle Hgen).
  cbn [Hook.context]. unfold turnContext.
  cbn [GameContext.currentSegment GameContext.history].
  eexists. split; [reflexivity|]. split; [by rewrite last_snoc|].
  split; [done|]. split; [|by destruct nextSegment].
  unfold segmentWithChoice. cbn [StorySegment.chapterId StorySegment.withCause].
  destruct (findActive (GameContext.blueprint (Hook.context h)))
    as [[a chapter]|] eqn:Hfind; [|done].
  pose proof (TrackerFacts.findActive_Some _ _ _ Hfind) as (Ha & _ & _).
  destruct (advanceBlueprint_status nextSegment _ _ _ _ _ Hfind Ha)
    as (c' & Hc' & Hid & _).
  simpl. rewrite Hc'. simpl. by rewrite Hid.
Qed.

Lemma handleChoice_attributes_segment_witness :
  (StorySegment.chapterId
     <$> GameContext.currentSegment
           (Hook.context
              (handleChoice Samples.fond (Js.lit "go on") None
                 Samples.stalled)))
  = Some None.
Proof.
  assert (Hidle : Hook.isLoading Samples.stalled = false) by reflexivity.
  assert (Hnext :
    Env.advanceStory Samples.fond
      (turnArgs (Hook.context Samples.stalled) (Js.lit "go on") None)
    = Fulfilled Samples.meeting)
    by reflexivity.
  destruct (handleChoice_attributes_segment Samples.fond (Js.lit "go on")
              None Samples.stalled _ Hidle Hnext)
    as (segment & Hcur & _ & _ & Hchapter & _).
  rewrite Hcur. simpl. rewrite Hchapter. reflexivity.
Defined.


(** X8. The progress booked on a chapter never decreases. A turn keeps
    every chapter in place with its identifier and its target, and the word
    count, the number of triggered events and the number of key interactions
    booked on it are afterwards at least what they were (nothing booked
    counts as zero); only the chapter that was active can gain. *)
Theorem handleChoice_progress_never_decreases (env : Env.t) (choice : Js.str)
    (fromIndex : option Z) (h : Hook.t) (j : nat) (c : PlotChapter.t) :
  GameContext.blueprint (Hook.context h) !! j = Some c ->
  exists c',
    GameContext.blueprint (Hook.context (handleChoice env choice fromIndex h))
      !! j = Some c'
    /\ PlotChapter.id c' = PlotChapter.id c
    /\ PlotChapter.targetWordCount c' = PlotChapter.targetWordCount c
    /\ (PlotChapter.status c <> active ->
        PlotChapter.trackedStats c' = PlotChapter.trackedStats c)
    /\ let booked x := default TrackedStats.zero (PlotChapter.trackedStats x) in
       TrackedStats.currentWordCount (booked c)
       <= TrackedStats.currentWordCount (booked c')
       /\ TrackedStats.eventsTriggered (booked c)
          <= TrackedStats.eventsTriggered (booked c')
       /\ TrackedStats.interactionsCount (booked c)
          <= TrackedStats.interactionsCount (booked c').
Proof.
  intros Hj.
  destruct (SessionFacts.handleChoice_blueprint_cases env choice fromIndex h)
    as [->|[seg ->]].
  { exists c. repeat split; try done; lia. }
  destruct (findActive (GameContext.blueprint (Hook.context h)))
    as [[a chapter]|] eqn:Hfind.
  2:{ unfold advanceBlueprint. rewrite Hfind. exists c.
      repeat split; try done; lia. }
  pose proof (TrackerFacts.findActive_Some _ _ _ Hfind) as (Ha & Hactive & _).
  destruct (decide (j = a)) as [->|Hja].
  - assert (c = chapter) as -> by congruence.
    assert (Hgain :
      let booked x := default TrackedStats.zero (PlotChapter.trackedStats x) in
      TrackedStats.currentWordCount (booked chapter)
      <= TrackedStats.currentWordCount (trackSegment chapter seg)
      /\ TrackedStats.eventsTriggered (booked chapter)
         <= TrackedStats.eventsTriggered (trackSegment chapter seg)
      /\ TrackedStats.interactionsCount (booked chapter)
         <= TrackedStats.interactionsCount (trackSegment chapter seg)).
    { unfold trackSegment. cbn.
      destruct (Js.carries _), (isKeyInteraction _ _); repeat split; lia. }
    rewrite (TrackerFacts.advanceBlueprint_found _ _ _ _ Hfind).
    pose proof (lookup_lt_Some _ _ _ Ha) as Hlt.
    destruct (goalsReached chapter (trackSegment chapter seg)).
    + eexists. split.
      * apply list_lookup_insert_eq.
        destruct (_ !! (a + 1)%nat); [by rewrite length_insert|done].
      * repeat split; try done; apply Hgain.
    + eexists. split; [by apply list_lookup_insert_eq|].
      repeat split; try done; apply Hgain.
  - destruct (lookup_lt_is_Some_2 (advanceBlueprint seg
                (GameContext.blueprint (Hook.context h))) j) as [c' Hc'].
    { rewrite TrackerFacts.advanceBlueprint_length.
      by apply lookup_lt_Some in Hj. }
    destruct (TrackerFacts.advanceBlueprint_others _ _ _ _ _ _ Hfind Hja Hc')
      as (c0 & Hc0 & Hsame & Hstats).
    assert (c0 = c) as -> by congruence.
    exists c'. split; [done|].
    destruct Hsame as [->| ->]; repeat split; try done; cbn; lia.
Qed.

Lemma handleChoice_progress_never_decreases_witness :
  exists c',
    GameContext.blueprint
      (Hook.context
         (handleChoice Scenario.env (Js.lit "go on") None Scenario.started))
      !! 0%nat = Some c'
    /\ PlotChapter.targetWordCount c' = 300.
Proof.
  destruct (handleChoice_progress_never_decreases Scenario.env
              (Js.lit "go on") None Scenario.started 0%nat _ eq_refl)
    as (c' & Hc' & _ & Htarget & _).
  exists c'. split; [exact Hc' | exact Htarget].
Defined.

End ProgressFacts.

(** ** Regeneration and versions *)

Module RevisionFacts.
Import Engine Invariant.

Lemma last_insert_last {A} (l : list A) (x : A) :
  l <> [] -> last (<[pred (length l) := x]> l) = Some x.
Proof.
  intros Hne. rewrite last_lookup, length_insert.
  apply list_lookup_insert_eq. destruct l; [done | simpl; lia].
Qed.

Lemma lastIdx_pred {A} (l : list A) :
  Z.to_nat (Z.of_nat (length l) - 1) = pred (length l).
Proof. lia. Qed.


(** The state after a [full] or [text] regeneration that went through. *)
Lemma handleRegenerate_pushed env mode h lastSegment newSegment :
  mode <> Mode.choices ->
  last (GameContext.history (Hook.context h)) = Some lastSegment ->
  (length (GameContext.history (Hook.context h)) <= 1)%nat
  \/ Js.carries (StorySegment.causedBy lastSegment) = true ->
  Env.advanceStory env
    (AdvanceStoryArgs.Make
       (slice0 (GameContext.history (Hook.context h))
          (Z.of_nat (length (GameContext.history (Hook.context h))) - 1))
       (Js.orOpt (StorySegment.causedBy lastSegment) [])
       (GameContext.blueprint (Hook.context h)) mode)
  = Fulfilled newSegment ->
  GameContext.history (Hook.context (handleRegenerate env mode h))
  = <[pred (length (GameContext.history (Hook.context h)))
      := pushVersion newSegment lastSegment]>
      (GameContext.history (Hook.context h))
  /\ GameContext.currentSegment (Hook.context (handleRegenerate env mode h))
     = Some (pushVersion newSegment lastSegment)
  /\ GameContext.memories (Hook.context (handleRegenerate env mode h))
     = default (GameContext.memories (Hook.context h))
         (StorySegment.newMemories newSegment)
  /\ Hook.error (handleRegenerate env mode h) = None
  /\ Hook.isLoading (handleRegenerate env mode h) = false.
Proof.
  intros Hmode Hlast Hguard Hgen. unfold handleRegenerate. rewrite Hlast.
  assert (Hpass :
    negb (Mode.isChoices mode)
    && (Z.of_nat (length (GameContext.history (Hook.context h))) - 1 >? 0)
    && negb (Js.carries (StorySegment.causedBy lastSegment)) = false).
  { destruct Hguard as [Hlen| ->].
    - destruct (Z.gtb_spec
                  (Z.of_nat (length (GameContext.history (Hook.context h))) - 1)
                  0); [lia|]. by rewrite andb_false_r.
    - by rewrite andb_false_r. }
  rewrite Hpass.
  assert (Mode.isChoices mode = false) as -> by (by destruct mode).
  rewrite Hgen, lastIdx_pred. repeat split.
Qed.

(** X10. A [full] or [text] regeneration keeps every rendering. The new
    rendering is appended to the versions of the last segment and shown; on
    the first regeneration the rendering that is replaced becomes version 0,
    without its location. Afterwards the live fields of the segment are
    those of the version under its index, which is the last one. *)
Theorem handleRegenerate_pushes_version (env : Env.t) (mode : Mode.t)
    (h : Hook.t) (lastSegment newSegment : StorySegment.t) :
  mode <> Mode.choices ->
  last (GameContext.history (Hook.context h)) = Some lastSegment ->
  (length (GameContext.history (Hook.context h)) <= 1)%nat
  \/ Js.carries (StorySegment.causedBy lastSegment) = true ->
  Env.advanceStory env
    (AdvanceStoryArgs.Make
       (slice0 (GameContext.history (Hook.context h))
          (Z.of_nat (length (GameContext.history (Hook.context h))) - 1))
       (Js.orOpt (StorySegment.causedBy lastSegment) [])
       (GameContext.blueprint (Hook.context h)) mode)
  = Fulfilled newSegment ->
  let c' := Hook.context (handleRegenerate env mode h) in
  let earlier :=
    match StorySegment.versions lastSegment with
    | Some versions => versions
    | None =>
        [Version.Make (StorySegment.text lastSegment)
           (StorySegment.choices lastSegment)
           (StorySegment.visualPrompt lastSegment)
           (StorySegment.mood lastSegment) None]
    end in
  exists seg',
    GameContext.currentSegment c' = Some seg'
    /\ last (GameContext.history c') = Some seg'
    /\ StorySegment.versions seg' = Some (earlier ++ [shown newSegment])
    /\ StorySegment.currentVersionIndex seg'
       = Some (Z.of_nat (length earlier))
    /\ shown seg' = shown newSegment
    /\ mirrors seg'.
Proof.
  intros Hmode Hlast Hguard Hgen c' earlier.
  destruct (handleRegenerate_pushed env mode h lastSegment newSegment
              Hmode Hlast Hguard Hgen) as (Hhist & Hcur & _).
  subst c'. rewrite Hhist, Hcur.
  assert (Hne : GameContext.history (Hook.context h) <> []).
  { intros Hnil. by rewrite Hnil in Hlast. }
  exists (pushVersion newSegment lastSegment).
  split; [done|]. split; [by apply last_insert_last|].
  unfold pushVersion. fold earlier. fold (shown newSegment).
  cbn [StorySegment.versions StorySegment.currentVersionIndex
       StorySegment.showVersion].
  rewrite length_app. simpl length.
  replace (Z.of_nat (length earlier + 1) - 1) with (Z.of_nat (length earlier))
    by lia.
  repeat split.
  exists (earlier ++ [shown newSegment]), (Z.of_nat (length earlier)).
  cbn [StorySegment.versions StorySegment.currentVersionIndex].
  repeat split; [lia|].
  rewrite Nat2Z.id. apply list_lookup_middle. done.
Qed.


Lemma handleRegenerate_pushes_version_witness :
  exists seg',
    GameContext.currentSegment
      (Hook.context (handleRegenerate Scenario.env Mode.full Scenario.started))
    = Some seg'
    /\ StorySegment.currentVersionIndex seg' = Some 1.
Proof.
  assert (Hmode : Mode.full <> Mode.choices) by discriminate.
  assert (Hlast : last (GameContext.history (Hook.context Scenario.started))
                  = Some (Scenario.segment "s0" 40 None None None))
    by reflexivity.
  assert (Hguard :
    (length (GameContext.history (Hook.context Scenario.started)) <= 1)%nat
    \/ Js.carries
         (StorySegment.causedBy (Scenario.segment "s0" 40 None None None))
       = true)
    by (left; simpl; lia).
  destruct (handleRegenerate_pushes_version Scenario.env Mode.full
              Scenario.started _
              (Scenario.segment "s3" 60 None (Some "Captain Mira"%string) None)
              Hmode Hlast Hguard eq_refl)
    as (seg' & Hcur & _ & _ & Hidx & _).
  exists seg'. split; [exact Hcur | exact Hidx].
Defined.

Lemma identifies_find segmentId (history : list StorySegment.t) i a :
  identifies segmentId history ->
  history !! i = Some a ->
  StorySegment.id a = segmentId ->
  list_find (fun s => StorySegment.id s = segmentId) history = Some (i, a).
Proof.
  intros Hone Hi Ha. apply list_find_Some. repeat split; [done..|].
  intros j y Hj Hlt Hy. pose proof (Hone j i y a Hj Hi Hy Ha). lia.
Qed.

(** The context after a switch that moves. *)
Lemma switchVersion_shows now segmentId direction context idx seg versions i :
  list_find (fun s => StorySegment.id s = segmentId)
    (GameContext.history context) = Some (idx, seg) ->
  StorySegment.versions seg = Some versions ->
  StorySegment.currentVersionIndex seg = Some i ->
  (2 <= length versions)%nat ->
  0 <= i < Z.of_nat (length versions) ->
  let len := Z.of_nat (length versions) in
  let newIdx :=
    match direction with
    | next => if i + 1 >=? len then 0 else i + 1
    | prev => if i - 1 <? 0 then len - 1 else i - 1
    end in
  exists v,
    versions !! Z.to_nat newIdx = Some v
    /\ 0 <= newIdx < len
    /\ GameContext.history (switchVersion now segmentId direction context)
       = <[idx := StorySegment.showVersion versions newIdx v seg]>
           (GameContext.history context)
    /\ GameContext.currentSegment
         (switchVersion now segmentId direction context)
       = if bool_decide
              (StorySegment.id <$> GameContext.currentSegment context
               = Some segmentId)
         then Some (StorySegment.showVersion versions newIdx v seg)
         else GameContext.currentSegment context.
Proof.
  intros Hfind Hvs Hi Hlen Hrange len newIdx.
  assert (Hin : 0 <= newIdx < len).
  { unfold newIdx. destruct direction.
    - destruct (Z.ltb_spec (i - 1) 0); lia.
    - rewrite Z.geb_leb. destruct (Z.leb_spec len (i + 1)); lia. }
  assert (Hne : newIdx <> i).
  { unfold newIdx. destruct direction.
    - destruct (Z.ltb_spec (i - 1) 0); lia.
    - rewrite Z.geb_leb. destruct (Z.leb_spec len (i + 1)); lia. }
  destruct (lookup_lt_is_Some_2 versions (Z.to_nat newIdx)) as [v Hv];
    [lia|].
  exists v.
  assert (Hor : Js.orNumOpt (Some i) 0 = i).
  { simpl. unfold Js.orNum. destruct (Z.eqb_spec i 0); congruence. }
  assert (Hcode :
    (let moved := i + match direction with next => 1 | prev => -1 end in
     let wrapped := if moved <? 0 then len - 1 else moved in
     if wrapped >=? len then 0 else wrapped) = newIdx).
  { unfold newIdx. cbv zeta. destruct direction.
    - replace (i + -1) with (i - 1) by lia.
      destruct (Z.ltb_spec (i - 1) 0).
      + rewrite Z.geb_leb. destruct (Z.leb_spec len (len - 1)); lia.
      + rewrite Z.geb_leb. destruct (Z.leb_spec len (i - 1)); lia.
    - destruct (Z.ltb_spec (i + 1) 0); [lia|]. reflexivity. }
  unfold switchVersion. rewrite Hfind, Hvs, Hi. fold len.
  destruct (Z.ltb_spec len 2); [lia|].
  rewrite Hor. cbv zeta in Hcode. rewrite Hcode.
  case_bool_decide as Hd; [congruence|].
  rewrite Hv. cbn [GameContext.history GameContext.currentSegment].
  repeat split; try done; lia.
Qed.

(** X11. Going back after the first regeneration restores the replaced
    rendering, except for its location. When the last segment has no
    versions yet and its identifier is its own, a [full] or [text]
    regeneration followed by a switch to the previous version shows the
    text, choices, visual prompt and mood that the segment had before; the
    location of the segment is gone, since version 0 is recorded without
    it. *)
Theorem handleRegenerate_then_switch_back (env env' : Env.t) (mode : Mode.t)
    (h : Hook.t) (lastSegment newSegment : StorySegment.t) :
  mode <> Mode.choices ->
  last (GameContext.history (Hook.context h)) = Some lastSegment ->
  StorySegment.versions lastSegment = None ->
  identifies (StorySegment.id lastSegment)
    (GameContext.history (Hook.context h)) ->
  (length (GameContext.history (Hook.context h)) <= 1)%nat
  \/ Js.carries (StorySegment.causedBy lastSegment) = true ->
  Env.advanceStory env
    (AdvanceStoryArgs.Make
       (slice0 (GameContext.history (Hook.context h))
          (Z.of_nat (length (GameContext.history (Hook.context h))) - 1))
       (Js.orOpt (StorySegment.causedBy lastSegment) [])
       (GameContext.blueprint (Hook.context h)) mode)
  = Fulfilled newSegment ->
  let h' :=
    handleSwitchVersion env' (StorySegment.id lastSegment) prev
      (handleRegenerate env mode h) in
  exists seg,
    GameContext.currentSegment (Hook.context h') = Some seg
    /\ last (GameContext.history (Hook.context h')) = Some seg
    /\ StorySegment.text seg = StorySegment.text lastSegment
    /\ StorySegment.choices seg = StorySegment.choices lastSegment
    /\ StorySegment.visualPrompt seg = StorySegment.visualPrompt lastSegment
    /\ StorySegment.mood seg = StorySegment.mood lastSegment
    /\ StorySegment.location seg = None
    /\ StorySegment.currentVersionIndex seg = Some 0
    /\ (length <$> StorySegment.versions seg) = Some 2%nat.
Proof.
  intros Hmode Hlast Hnone Hone Hguard Hgen h'.
  destruct (handleRegenerate_pushed env mode h lastSegment newSegment
              Hmode Hlast Hguard Hgen) as (Hhist & Hcur & _).
  set (history := GameContext.history (Hook.context h)) in *.
  set (pushed := pushVersion newSegment lastSegment) in *.
  assert (Hne : history <> []).
  { intros Hnil. by rewrite Hnil in Hlast. }
  assert (Hat : history !! pred (length history) = Some lastSegment).
  { by rewrite <- last_lookup. }
  pose proof (identifies_find _ _ _ _ Hone Hat eq_refl) as Hfind.
  assert (Hfind' :
    list_find (fun s => StorySegment.id s = StorySegment.id lastSegment)
      (GameContext.history (Hook.context (handleRegenerate env mode h)))
    = Some (pred (length history), pushed)).
  { rewrite Hhist.
    by apply (VersionFacts.list_find_insert_found _ _ _ lastSegment). }
  set (v0 := Version.Make (StorySegment.text lastSegment)
               (StorySegment.choices lastSegment)
               (StorySegment.visualPrompt lastSegment)
               (StorySegment.mood lastSegment) None).
  assert (Hvs : StorySegment.versions pushed = Some [v0; shown newSegment]).
  { unfold pushed, pushVersion. by rewrite Hnone. }
  assert (Hidx : StorySegment.currentVersionIndex pushed = Some 1).
  { unfold pushed, pushVersion. by rewrite Hnone. }
  destruct (switchVersion_shows (Env.dateNow env' 0)
              (StorySegment.id lastSegment) prev
              (Hook.context (handleRegenerate env mode h))
              _ _ _ _ Hfind' Hvs Hidx)
    as (v & Hv & _ & Hhist' & Hcur'); [simpl; lia..|].
  simpl in Hv. injection Hv as <-.
  subst h'. unfold handleSwitchVersion. cbn [Hook.context Hook.setContext].
  rewrite Hhist', Hcur', Hcur, Hhist. simpl.
  rewrite bool_decide_eq_true_2 by done.
  eexists. split; [reflexivity|]. split.
  - rewrite list_insert_insert_eq. by apply last_insert_last.
  - repeat split.
Qed.

Lemma handleRegenerate_then_switch_back_witness :
  exists seg,
    GameContext.currentSegment
      (Hook.context
         (handleSwitchVersion Scenario.env (Js.lit "s0") prev
            (handleRegenerate Scenario.env Mode.full Scenario.started)))
    = Some seg
    /\ StorySegment.text seg = Scenario.prose 40.
Proof.
  assert (Hmode : Mode.full <> Mode.choices) by discriminate.
  assert (Hlast : last (GameContext.history (Hook.context Scenario.started))
                  = Some (Scenario.segment "s0" 40 None None None))
    by reflexivity.
  assert (Hone : identifies (Js.lit "s0")
                   (GameContext.history (Hook.context Scenario.started))).
  { intros [|i] [|j] a b Hi Hj _ _; try done; simpl in *;
      rewrite ?lookup_nil in *; done. }
  assert (Hguard :
    (length (GameContext.history (Hook.context Scenario.started)) <= 1)%nat
    \/ Js.carries
         (StorySegment.causedBy (Scenario.segment "s0" 40 None None None))
       = true)
    by (left; simpl; lia).
  destruct (handleRegenerate_then_switch_back Scenario.env Scenario.env
              Mode.full Scenario.started _
              (Scenario.segment "s3" 60 None (Some "Captain Mira"%string) None)
              Hmode Hlast eq_refl Hone Hguard eq_refl)
    as (seg & Hcur & _ & Htext & _).
  exists seg. split; [exact Hcur | exact Htext].
Defined.

Lemma wrap_back (len i : Z) :
  2 <= len -> 0 <= i < len ->
  (if (if i - 1 <? 0 then len - 1 else i - 1) + 1 >=? len then 0
   else (if i - 1 <? 0 then len - 1 else i - 1) + 1) = i
  /\ (if (if i + 1 >=? len then 0 else i + 1) - 1 <? 0 then len - 1
      else (if i + 1 >=? len then 0 else i + 1) - 1) = i.
Proof.
  intros Hlen Hi. rewrite !Z.geb_leb. split.
  - destruct (Z.ltb_spec (i - 1) 0).
    + destruct (Z.leb_spec len (len - 1 + 1)); lia.
    + destruct (Z.leb_spec len (i - 1 + 1)); lia.
  - destruct (Z.leb_spec len (i + 1)).
    + destruct (Z.ltb_spec (0 - 1) 0); lia.
    + destruct (Z.ltb_spec (i + 1 - 1) 0); lia.
Qed.

(** X12. Switching a version forth and back changes nothing in the history.
    When the live fields of the segment are those of the version under its
    index (or the segment has no versions), a switch in one direction
    followed by a switch in the other leaves every segment as it was,
    whatever the number of versions. *)
Theorem handleSwitchVersion_forth_and_back (env env' : Env.t)
    (segmentId : Js.str) (direction : Direction) (h : Hook.t) :
  (forall idx seg,
     list_find (fun s => StorySegment.id s = segmentId)
       (GameContext.history (Hook.context h)) = Some (idx, seg) ->
     StorySegment.versions seg = None \/ mirrors seg) ->
  let back := match direction with next => prev | prev => next end in
  GameContext.history
    (Hook.context
       (handleSwitchVersion env' segmentId back
          (handleSwitchVersion env segmentId direction h)))
  = GameContext.history (Hook.context h).
Proof.
  intros Hseg back. unfold handleSwitchVersion.
  cbn [Hook.context Hook.setContext].
  set (c := Hook.context h) in *.
  destruct (list_find (fun s => StorySegment.id s = segmentId)
              (GameContext.history c)) as [[idx seg]|] eqn:Hfind.
  2:{ assert (Hnop : forall now d, switchVersion now segmentId d c = c).
      { intros now d. unfold switchVersion. by rewrite Hfind. }
      by rewrite !Hnop. }
  destruct (Hseg idx seg eq_refl) as [Hnone|(versions & i & Hvs & Hi & Hpos & Hv)].
  { assert (Hnop : forall now d, switchVersion now segmentId d c = c).
    { intros now d. unfold switchVersion. by rewrite Hfind, Hnone. }
    by rewrite !Hnop. }
  destruct (decide (length versions < 2)%nat) as [Hfew|Hmany].
  { rewrite !(VersionFacts.switchVersion_too_few _ _ _ c idx seg versions);
      done. }
  assert (Hrange : 0 <= i < Z.of_nat (length versions)).
  { apply lookup_lt_Some in Hv. lia. }
  destruct (switchVersion_shows (Env.dateNow env 0) segmentId direction c
              idx seg versions i Hfind Hvs Hi ltac:(lia) Hrange)
    as (v1 & Hv1 & Hin1 & Hhist1 & _).
  set (c1 := switchVersion (Env.dateNow env 0) segmentId direction c) in *.
  set (i1 := match direction with
             | next => if i + 1 >=? Z.of_nat (length versions) then 0 else i + 1
             | prev => if i - 1 <? 0 then Z.of_nat (length versions) - 1
                       else i - 1
             end) in *.
  set (seg1 := StorySegment.showVersion versions i1 v1 seg) in *.
  assert (Hfind1 :
    list_find (fun s => StorySegment.id s = segmentId) (GameContext.history c1)
    = Some (idx, seg1)).
  { rewrite Hhist1. apply (VersionFacts.list_find_insert_found _ _ idx seg);
      [done|]. by apply list_find_Some in Hfind as (_ & Hid & _). }
  destruct (switchVersion_shows (Env.dateNow env' 0) segmentId back c1
              idx seg1 versions i1 Hfind1 eq_refl eq_refl ltac:(lia) Hin1)
    as (v2 & Hv2 & _ & Hhist2 & _).
  assert (Hback :
    match back with
    | next => if i1 + 1 >=? Z.of_nat (length versions) then 0 else i1 + 1
    | prev => if i1 - 1 <? 0 then Z.of_nat (length versions) - 1 else i1 - 1
    end = i).
  { subst back i1. destruct direction;
      [apply (proj1 (wrap_back (Z.of_nat (length versions)) i ltac:(lia) Hrange)) | apply (proj2 (wrap_back (Z.of_nat (length versions)) i ltac:(lia) Hrange))]. }
  rewrite Hback in Hv2, Hhist2. rewrite Hv in Hv2. injection Hv2 as <-.
  rewrite Hhist2, Hhist1, list_insert_insert_eq.
  apply list_insert_id.
  apply list_find_Some in Hfind as (Hidx & _ & _). rewrite Hidx. f_equal.
  destruct seg. simpl in *. by rewrite Hvs, Hi.
Qed.

Lemma handleSwitchVersion_forth_and_back_witness :
  GameContext.history
    (Hook.context
       (handleSwitchVersion Scenario.env (Js.lit "s1") prev
          (handleSwitchVersion Scenario.env (Js.lit "s1") next
             Scenario.versioned)))
  = GameContext.history (Hook.context Scenario.versioned).
Proof.
  apply (handleSwitchVersion_forth_and_back Scenario.env Scenario.env
           (Js.lit "s1") next Scenario.versioned).
  intros idx seg Hfind. right. vm_compute in Hfind. injection Hfind as <- <-.
  exists Scenario.versions3, 1. repeat split; try reflexivity; lia.
Defined.

End RevisionFacts.

(** ** Starting a session *)

Module StartFacts.
Import Tracker Engine Invariant.

(** X13. A start goes through completely or leaves the setup untouched.
    Either the context, the checkpoint list and the storage are as before
    (a blank name or trait is reported and nothing else happens; a failed
    generation returns to the setup screen; an abort stays silent), or the
    session is in play with a history of exactly the opening segment, and
    one automatic checkpoint without parent has been put in front of the
    list and handed to the storage service; loading that checkpoint
    restores the context of the start. *)
Theorem handleStartGame_all_or_nothing (env : Env.t) (h : Hook.t) :
  let h' := handleStartGame env h in
  (Hook.context h' = Hook.context h
   /\ Hook.savedGames h' = Hook.savedGames h
   /\ Hook.storageSaves h' = Hook.storageSaves h
   /\ (h' = Hook.setError (Some NameAndTraitRequired) h
       \/ Hook.gameState h' = SETUP_SCREEN /\ is_Some (Hook.error h')
       \/ Hook.gameState h' = LOADING /\ Hook.error h' = None))
  \/ exists openingSegment save,
       Hook.gameState h' = PLAYING
       /\ Hook.error h' = None
       /\ GameContext.history (Hook.context h') = [openingSegment]
       /\ GameContext.currentSegment (Hook.context h') = Some openingSegment
       /\ Hook.savedGames h' = save :: Hook.savedGames h
       /\ Hook.storageSaves h' = Hook.storageSaves h ++ [save]
       /\ SavedGame.type save = AUTO
       /\ SavedGame.parentId save = None
       /\ SavedGame.storyId save = Some (StorySegment.id openingSegment)
       /\ SavedGame.sessionId save = GameContext.sessionId (Hook.context h')
       /\ SavedGame.turnCount save = 1
       /\ forall h0,
            Hook.context (handleLoadGame save false h0) = Hook.context h'.
Proof.
  intros h'. subst h'.
  assert (Hfailed : forall m,
    let h1 := startFailed m (Hook.setGameState LOADING
                (Hook.setCurrentLoadedSaveId None (Hook.setError None h))) in
    Hook.context h1 = Hook.context h
    /\ Hook.savedGames h1 = Hook.savedGames h
    /\ Hook.storageSaves h1 = Hook.storageSaves h
    /\ (h1 = Hook.setError (Some NameAndTraitRequired) h
        \/ Hook.gameState h1 = SETUP_SCREEN /\ is_Some (Hook.error h1)
        \/ Hook.gameState h1 = LOADING /\ Hook.error h1 = None)).
  { intros m. unfold startFailed. case_bool_decide; simpl.
    - repeat split. right. right. done.
    - repeat split. right. left. split; [done | by eexists]. }
  unfold handleStartGame.
  destruct (negb _ || negb _); [left; repeat split; by left|].
  destruct (Env.generateOpening env _) as [opening|m]; [|left; apply Hfailed].
  destruct (Env.aborted env 0).
  { left. repeat split. right. right. done. }
  destruct (Env.generateCharacterAvatar env) as [avatarBase64|m];
    [|left; apply Hfailed].
  destruct (Env.generateSceneImage env) as [sceneBase64|m];
    [|left; apply Hfailed].
  destruct (Env.aborted env 1 || Env.aborted env 2).
  { left. repeat split. right. right. done. }
  right. eexists. eexists.
  cbn [Hook.gameState Hook.error Hook.context Hook.savedGames
       Hook.storageSaves Hook.saveGame Hook.setSavedGames Hook.setGameState
       Hook.setContext Hook.setCurrentLoadedSaveId Hook.setError].
  repeat split.
Qed.

End StartFacts.

(** ** Planning the blueprint *)

Module PlanFacts.
Import Tracker Engine.

(** X14. The planning call returns one chapter per chapter of the reply, in
    order: the chapter at an index carries the title, the summary, the key
    events and the key characters of the reply chapter at that index, its
    pacing or ["standard"] when the reply gives none, and its target word
    count, or [3000] when the reply gives none, brought into the configured
    range. Every chapter returned is a fresh one: it has the identifier
    drawn for its index, it waits, nothing is booked on it, its criteria are
    one key event and one interaction, it has no prerequisites, its pacing
    is set, and its target word count is at least the lower bound of the
    range and, when the range is not empty, at most its upper bound. *)
Theorem autoPlanBlueprint_fresh_chapters (env : Env.t)
    (config : option PlanConfig.t) (chapters : list PlotChapter.t)
    (newCharacters : list RawCharacter.t) :
  autoPlanBlueprint env config = Fulfilled (chapters, newCharacters) ->
  let range := PlanConfig.wordCountRange (default PlanConfig.default config) in
  exists raw,
    let replied :=
      match raw with
      | RawArray cs => cs
      | RawObject cs _ => default [] cs
      end in
    Env.planReply env = Fulfilled raw
    /\ length chapters = length replied
    /\ (forall i rc,
          replied !! i = Some rc ->
          exists c, chapters !! i = Some c)
    /\ forall i c,
         chapters !! i = Some c ->
         (exists rc,
            replied !! i = Some rc
            /\ PlotChapter.title c = RawChapter.title rc
            /\ PlotChapter.summary c = RawChapter.summary rc
            /\ PlotChapter.keyEvents c = RawChapter.keyEvents rc
            /\ PlotChapter.keyCharacters c = RawChapter.keyCharacters rc
            /\ PlotChapter.pacing c
               = match RawChapter.pacing rc with
                 | Some (x :: p) => x :: p
                 | _ => Js.lit "standard"
                 end
            /\ PlotChapter.targetWordCount c
               = Z.max range.1
                   (Z.min
                      match RawChapter.targetWordCount rc with
                      | Some n => if n =? 0 then 3000 else n
                      | None => 3000
                      end
                      range.2))
         /\ PlotChapter.id c = Env.generateUUID env i
         /\ PlotChapter.status c = pending
         /\ PlotChapter.trackedStats c = Some TrackedStats.zero
         /\ PlotChapter.completionCriteria c = Some CompletionCriteria.one
         /\ PlotChapter.prerequisites c = []
         /\ PlotChapter.pacing c <> []
         /\ range.1 <= PlotChapter.targetWordCount c
         /\ (range.1 <= range.2 -> PlotChapter.targetWordCount c <= range.2).
Proof.
  intros Hplan range. unfold autoPlanBlueprint in Hplan.
  destruct (Env.planReply env) as [raw|m]; [|done].
  injection Hplan as <- _. exists raw. intros replied.
  split; [done|]. split; [by rewrite length_imap|]. split.
  { intros i rc Hrc. rewrite list_lookup_imap. fold replied.
    rewrite Hrc. by eexists. }
  intros i c Hc. rewrite list_lookup_imap in Hc. fold replied in Hc.
  destruct (replied !! i) as [rc|] eqn:Hrc; [|done]. injection Hc as <-.
  unfold processChapter. cbn. fold range.
  split.
  { exists rc. repeat split.
    unfold Js.orOpt, Js.or. by destruct (RawChapter.pacing rc) as [[|x p]|]. }
  repeat split; try lia.
  unfold Js.orOpt, Js.or.
  destruct (RawChapter.pacing rc) as [[|x p]|]; done.
Qed.

(** The plan of the sample session: the second chapter is the chapter
    ["Arrival"] of the reply, and its target of 400 lies within the
    configured range. *)
Lemma autoPlanBlueprint_fresh_chapters_witness :
  exists c,
    GameContext.blueprint (Hook.context Scenario.prepared) !! 1%nat = Some c
    /\ PlotChapter.title c = Js.lit "Arrival"
    /\ PlotChapter.keyCharacters c = Some [Js.lit "Oren"]
    /\ PlotChapter.targetWordCount c = 400
    /\ 100 <= PlotChapter.targetWordCount c <= 1000.
Proof.
  destruct (autoPlanBlueprint_fresh_chapters Scenario.env
              (Some (PlanConfig.Make 2 (100, 1000) 0 0 None))
              _ _ eq_refl) as (raw & Hraw & _ & _ & Hall).
  injection Hraw as <-.
  eexists. split; [reflexivity|].
  destruct (Hall 1%nat _ eq_refl)
    as ((rc & Hrc & Htitle & _ & _ & Hwho & _ & Htarget)
        & _ & _ & _ & _ & _ & _ & Hlo & Hhi).
  injection Hrc as <-.
  split; [exact Htitle|]. split; [exact Hwho|]. split; [exact Htarget|].
  split; [exact Hlo | apply Hhi; simpl; lia].
Defined.

(** The planner leaves the story alone. *)
Lemma handleAutoPlanBlueprint_story env config h :
  GameContext.history (Hook.context (handleAutoPlanBlueprint env config h))
  = GameContext.history (Hook.context h)
  /\ GameContext.currentSegment
       (Hook.context (handleAutoPlanBlueprint env config h))
     = GameContext.currentSegment (Hook.context h)
  /\ GameContext.scheduledEvents
       (Hook.context (handleAutoPlanBlueprint env config h))
     = GameContext.scheduledEvents (Hook.context h).
Proof.
  unfold handleAutoPlanBlueprint.
  destruct (negb (Js.truthy _)); [done|].
  destruct (negb (Js.truthy _)); [done|].
  by destruct (autoPlanBlueprint env config) as [[chapters newCharacters]|m].
Qed.

(** X15. The planner only adds supporting characters. Whatever the planning
    call returns, the characters that exist stay in place and unchanged,
    and every character added behind them has a name that no existing
    character bears, no avatar, and an affinity equal to its initial
    affinity, which lies in [-10, 10] when the random draws lie in
    [0, 20]. The history, the current segment and the scheduled events are
    not touched. *)
Theorem handleAutoPlanBlueprint_adds_characters (env : Env.t)
    (config : option PlanConfig.t) (h : Hook.t) :
  let c := Hook.context h in
  let c' := Hook.context (handleAutoPlanBlueprint env config h) in
  (GameContext.history c' = GameContext.history c
   /\ GameContext.currentSegment c' = GameContext.currentSegment c
   /\ GameContext.scheduledEvents c' = GameContext.scheduledEvents c)
  /\ exists added,
       GameContext.supportingCharacters c'
       = GameContext.supportingCharacters c ++ added
       /\ forall nc,
            nc ∈ added ->
            (SupportingCharacter.name nc
               ∉ map SupportingCharacter.name
                   (GameContext.supportingCharacters c))
            /\ SupportingCharacter.avatar nc = None
            /\ exists a,
                 SupportingCharacter.affinity nc = Some a
                 /\ SupportingCharacter.initialAffinity nc = Some a
                 /\ ((forall k, 0 <= Env.randomBelow21 env k <= 20) ->
                     -10 <= a <= 10).
Proof.
  intros c c'. subst c'. unfold handleAutoPlanBlueprint. fold c.
  assert (Hsame : forall c0 : GameContext.t,
    c0 = c ->
    (GameContext.history c0 = GameContext.history c
     /\ GameContext.currentSegment c0 = GameContext.currentSegment c
     /\ GameContext.scheduledEvents c0 = GameContext.scheduledEvents c)
    /\ exists added : list SupportingCharacter.t,
         GameContext.supportingCharacters c0
         = GameContext.supportingCharacters c ++ added
         /\ forall nc,
              nc ∈ added ->
              (SupportingCharacter.name nc
                 ∉ map SupportingCharacter.name
                     (GameContext.supportingCharacters c))
              /\ SupportingCharacter.avatar nc = None
              /\ exists a,
                   SupportingCharacter.affinity nc = Some a
                   /\ SupportingCharacter.initialAffinity nc = Some a
                   /\ ((forall k, 0 <= Env.randomBelow21 env k <= 20) ->
                       -10 <= a <= 10)).
  { intros c0 ->. split; [done|]. exists []. rewrite app_nil_r.
    split; [done|]. intros nc Hnc. by apply elem_of_nil in Hnc. }
  destruct (negb (Js.truthy _)); [by apply Hsame|].
  destruct (negb (Js.truthy _)); [by apply Hsame|].
  destruct (autoPlanBlueprint env config) as [[chapters newCharacters]|m];
    [|by apply Hsame].
  cbn [Hook.context Hook.setContext Hook.setIsLoading Hook.setError
       GameContext.history GameContext.currentSegment
       GameContext.scheduledEvents GameContext.supportingCharacters].
  split; [done|]. eexists. split; [reflexivity|].
  intros nc Hnc. apply list_elem_of_In, filter_In in Hnc as [Hin Hnew].
  apply list_elem_of_In, list_elem_of_lookup in Hin as [i Hi].
  unfold mapNewCharacters in Hi. rewrite list_lookup_imap in Hi.
  destruct (newCharacters !! i) as [rc|]; [|done]. injection Hi as <-.
  cbn. repeat split.
  - intros Hname. apply negb_true_iff in Hnew.
    apply list_elem_of_fmap in Hname as (ec & Hec & Hin).
    assert (existsb
              (fun ec0 => bool_decide
                 (SupportingCharacter.name ec0 = RawCharacter.name rc))
              (GameContext.supportingCharacters c) = true) as Hex.
    { apply existsb_exists. exists ec. split; [by apply list_elem_of_In|].
      by apply bool_decide_eq_true. }
    cbn in Hnew. congruence.
  - eexists. repeat split; pose proof (H i); lia.
Qed.

(** With a configuration the planner extends the blueprint: the
    chapters that exist are kept as they are, in place, and the planned
    chapters, all waiting, come behind them. Without a configuration a
    successful planning call replaces the blueprint by the planned
    chapters. *)
Lemma handleAutoPlanBlueprint_extends (env : Env.t) (h : Hook.t) :
  (forall config,
     exists chapters,
       Forall (fun c => PlotChapter.status c = pending) chapters
       /\ GameContext.blueprint
            (Hook.context (handleAutoPlanBlueprint env (Some config) h))
          = GameContext.blueprint (Hook.context h) ++ chapters)
  /\ (forall chapters newCharacters,
        Js.truthy (Character.name (GameContext.character (Hook.context h)))
        = true ->
        Js.truthy (GameContext.genre (Hook.context h)) = true ->
        autoPlanBlueprint env None = Fulfilled (chapters, newCharacters) ->
        GameContext.blueprint
          (Hook.context (handleAutoPlanBlueprint env None h))
        = chapters).
Proof.
  split.
  - intros config. unfold handleAutoPlanBlueprint.
    assert (Hsame :
      exists chapters : list PlotChapter.t,
        Forall (fun c => PlotChapter.status c = pending) chapters
        /\ GameContext.blueprint (Hook.context h)
           = GameContext.blueprint (Hook.context h) ++ chapters).
    { exists []. by rewrite app_nil_r. }
    destruct (negb (Js.truthy _)); [done|].
    destruct (negb (Js.truthy _)); [done|].
    destruct (autoPlanBlueprint env (Some config))
      as [[chapters newCharacters]|m] eqn:Hplan; [|done].
    exists chapters. split.
    + by apply (TrackerFacts.autoPlanBlueprint_pending env (Some config)
                  chapters newCharacters).
    + cbn [Hook.context Hook.setContext Hook.setIsLoading Hook.setError
           GameContext.blueprint GameContext.plotBlueprint].
      unfold GameContext.blueprint.
      destruct (GameContext.plotBlueprint (Hook.context h)) as [[|c cs]|];
        done.
  - intros chapters newCharacters Hname Hgenre Hplan.
    unfold handleAutoPlanBlueprint. rewrite Hname, Hgenre, Hplan. done.
Qed.

End PlanFacts.

(** ** ResponseNormalizer: the shape of what [cleanJson] returns *)

Module EnvelopeFacts.
Import Normalizer Envelope.

Lemma brackets_plain opener closer :
  brackets opener closer ->
  Js.isWhiteSpace opener = false /\ Js.isWhiteSpace closer = false
  /\ isControl opener = false /\ isControl closer = false
  /\ opener <> backtick /\ closer <> backtick /\ opener <> closer.
Proof. intros [[-> ->]|[-> ->]]; repeat split; done. Qed.

Lemma indexOf_range c s :
  -1 <= Js.indexOf c s < Z.of_nat (length s).
Proof.
  induction s as [|x r IH]; simpl; [lia|].
  destruct (x =? c)%N; [lia|].
  destruct (Z.ltb_spec (Js.indexOf c r) 0); lia.
Qed.

Lemma indexOf_lookup c s :
  0 <= Js.indexOf c s -> s !! Z.to_nat (Js.indexOf c s) = Some c.
Proof.
  intros Hk. destruct (NormalizerFacts.indexOf_found c s) as [Hn|[_ H]];
    [lia|done].
Qed.

Lemma lastIndexOf_range c s :
  -1 <= Js.lastIndexOf c s < Z.of_nat (length s).
Proof.
  induction s as [|x r IH]; simpl; [lia|].
  destruct (Z.leb_spec 0 (Js.lastIndexOf c r)); [lia|].
  destruct (x =? c)%N; lia.
Qed.

Lemma lastIndexOf_lookup c s :
  0 <= Js.lastIndexOf c s -> s !! Z.to_nat (Js.lastIndexOf c s) = Some c.
Proof.
  induction s as [|x r IH]; simpl; [lia|].
  destruct (Z.leb_spec 0 (Js.lastIndexOf c r)) as [Hr|Hr].
  - intros _. replace (Z.to_nat (Js.lastIndexOf c r + 1))
      with (S (Z.to_nat (Js.lastIndexOf c r))) by lia.
    simpl. by apply IH.
  - destruct (N.eqb_spec x c) as [->|]; [done | lia].
Qed.

Lemma lastIndexOf_snoc c l :
  Js.lastIndexOf c (l ++ [c]) = Z.of_nat (length l).
Proof.
  induction l as [|x r IH]; simpl.
  - by rewrite N.eqb_refl.
  - rewrite IH. destruct (Z.leb_spec 0 (Z.of_nat (length r))); lia.
Qed.

(** The extract between two positions that hold [opener] and [closer]. *)
Lemma substring_between (s : Js.str) (a b : Z) opener closer :
  0 <= a -> a < b ->
  s !! Z.to_nat a = Some opener ->
  s !! Z.to_nat b = Some closer ->
  exists body, Js.substring s a (b + 1) = opener :: body ++ [closer].
Proof.
  intros Ha Hab Hopen Hclose.
  pose proof (lookup_lt_Some _ _ _ Hclose) as Hlen.
  unfold Js.substring.
  replace (Z.min (Z.max a 0) (Z.of_nat (length s))) with a by lia.
  replace (Z.min (Z.max (b + 1) 0) (Z.of_nat (length s))) with (b + 1) by lia.
  replace (Z.min a (b + 1)) with a by lia.
  replace (Z.max a (b + 1)) with (b + 1) by lia.
  rewrite (drop_S _ _ _ Hopen).
  replace (Z.to_nat (b + 1 - a)) with (S (S (Z.to_nat (b - a - 1)))) by lia.
  rewrite firstn_cons.
  exists (take (Z.to_nat (b - a - 1)) (drop (S (Z.to_nat a)) s)).
  f_equal. apply take_S_r. rewrite lookup_drop.
  by replace (S (Z.to_nat a) + Z.to_nat (b - a - 1))%nat with (Z.to_nat b)
    by lia.
Qed.

Lemma trimStart_head c r :
  Js.isWhiteSpace c = false -> Js.trimStart (c :: r) = c :: r.
Proof. intros Hc. simpl. by rewrite Hc. Qed.

Lemma trimStart_blank w s :
  Forall (fun c => Js.isWhiteSpace c = true) w ->
  Js.trimStart (w ++ s) = Js.trimStart s.
Proof.
  induction 1 as [|c w Hc _ IH]; [done|]. simpl. by rewrite Hc.
Qed.

(** Trimming a bracketed text followed by white space gives the text. *)
Lemma trim_bracketed opener closer body w :
  Js.isWhiteSpace opener = false ->
  Js.isWhiteSpace closer = false ->
  Forall (fun c => Js.isWhiteSpace c = true) w ->
  Js.trim ((opener :: body ++ [closer]) ++ w) = opener :: body ++ [closer].
Proof.
  intros Ho Hc Hw. unfold Js.trim, Js.trimEnd.
  assert (H1 : Js.trimStart ((opener :: body ++ [closer]) ++ w)
               = (opener :: body ++ [closer]) ++ w)
    by (simpl; by rewrite Ho).
  rewrite H1, rev_app_distr, trimStart_blank.
  2:{ apply Forall_forall. intros x Hx. apply list_elem_of_In, in_rev in Hx.
      rewrite Forall_forall in Hw. by apply Hw, list_elem_of_In. }
  assert (H2 : rev (opener :: body ++ [closer])
               = closer :: rev body ++ [opener]).
  { simpl. by rewrite rev_app_distr. }
  rewrite H2, trimStart_head by done.
  by rewrite <- H2, rev_involutive.
Qed.

Lemma stripControl_bracketed opener closer body :
  isControl opener = false -> isControl closer = false ->
  stripControl (opener :: body ++ [closer])
  = opener :: stripControl body ++ [closer].
Proof.
  intros Ho Hc. unfold stripControl. simpl. rewrite Ho. simpl. f_equal.
  rewrite List.filter_app. simpl. by rewrite Hc.
Qed.

Lemma stripControl_plain s :
  Forall (fun c => isControl c = false) s -> stripControl s = s.
Proof.
  induction 1 as [|c s Hc _ IH]; [done|].
  unfold stripControl in *. simpl. rewrite Hc. simpl. by rewrite IH.
Qed.

Lemma stripControl_Forall s :
  Forall (fun c => isControl c = false) (stripControl s).
Proof.
  apply Forall_forall. intros x Hx.
  apply list_elem_of_In, filter_In in Hx as [_ Hx].
  by apply negb_true_iff in Hx.
Qed.

(** What [locate] finds when the guard of the extraction holds. *)
Lemma located_brackets cleaned startIndex endIndex isArray :
  locate cleaned = (startIndex, endIndex, isArray) ->
  located startIndex endIndex = true ->
  exists opener closer,
    brackets opener closer
    /\ (isArray = true <-> opener = lbracket)
    /\ 0 <= startIndex < endIndex
    /\ cleaned !! Z.to_nat startIndex = Some opener
    /\ cleaned !! Z.to_nat endIndex = Some closer.
Proof.
  unfold locate, located. intros Hloc Hguard.
  apply andb_prop in Hguard as [Hguard Hle].
  apply andb_prop in Hguard as [Hs He].
  apply negb_true_iff, Z.eqb_neq in Hs, He.
  rewrite Z.geb_leb in Hle. apply Z.leb_le in Hle.
  assert (Hgen : forall opener closer,
    opener <> closer ->
    startIndex = Js.indexOf opener cleaned ->
    endIndex = Js.lastIndexOf closer cleaned ->
    0 <= startIndex < endIndex
    /\ cleaned !! Z.to_nat startIndex = Some opener
    /\ cleaned !! Z.to_nat endIndex = Some closer).
  { intros opener closer Hoc -> ->.
    pose proof (indexOf_range opener cleaned).
    pose proof (lastIndexOf_range closer cleaned).
    pose proof (indexOf_lookup opener cleaned ltac:(lia)) as Ho.
    pose proof (lastIndexOf_lookup closer cleaned ltac:(lia)) as Hc.
    repeat split; try done; try lia.
    destruct (decide (Js.indexOf opener cleaned
                      = Js.lastIndexOf closer cleaned)) as [Heq|]; [|lia].
    rewrite Heq in Ho. congruence. }
  destruct (negb (Js.indexOf lbrace cleaned =? -1) && _).
  - injection Hloc as <- <- <-. exists lbrace, rbrace.
    split; [by left|]. split; [done|]. by apply Hgen.
  - destruct (negb (Js.indexOf lbracket cleaned =? -1)).
    + injection Hloc as <- <- <-. exists lbracket, rbracket.
      split; [by right|]. split; [done|]. by apply Hgen.
    + injection Hloc as <- <- <-. done.
Qed.

(** X16. [cleanJson] always returns a bracketed text: the result starts
    with an opening brace and ends with a closing brace, or starts with an
    opening bracket and ends with a closing bracket, and it holds no control
    character of the stripped class. In particular it is never empty and
    carries no white space around it. *)
Theorem cleanJson_envelope (text : Js.str) :
  exists opener closer body,
    cleanJson text = opener :: body ++ [closer]
    /\ brackets opener closer
    /\ Forall (fun c => isControl c = false) (cleanJson text).
Proof.
  assert (Hempty : exists opener closer body,
            Js.lit "{}" = opener :: body ++ [closer]
            /\ brackets opener closer
            /\ Forall (fun c => isControl c = false) (Js.lit "{}")).
  { exists lbrace, rbrace, []. split; [done|]. split; [by left|].
    by repeat constructor. }
  unfold cleanJson. destruct (negb (Js.truthy text)); [done|].
  destruct (locate (Js.trim (stripFences text)))
    as [[startIndex endIndex] isArray] eqn:Hloc.
  destruct (located startIndex endIndex) eqn:Hguard; [|done].
  destruct (located_brackets _ _ _ _ Hloc Hguard)
    as (opener & closer & Hb & _ & Hrange & Hopen & Hclose).
  destruct (substring_between (Js.trim (stripFences text)) startIndex endIndex
              opener closer ltac:(lia) ltac:(lia) Hopen Hclose)
    as [body ->].
  destruct (brackets_plain _ _ Hb) as (Hwo & Hwc & Hco & Hcc & _).
  rewrite stripControl_bracketed by done.
  pose proof (trim_bracketed opener closer (stripControl body) []
                Hwo Hwc ltac:(constructor)) as Htrim.
  rewrite app_nil_r in Htrim. rewrite Htrim.
  exists opener, closer, (stripControl body). split; [done|]. split; [done|].
  simpl. constructor; [done|]. apply Forall_app. split.
  - apply stripControl_Forall.
  - by constructor.
Qed.


Lemma indexOf_app_found c pre rest :
  c ∉ pre -> Js.indexOf c (pre ++ c :: rest) = Z.of_nat (length pre).
Proof.
  induction pre as [|x pre IH]; intros Hnot; simpl.
  - by rewrite N.eqb_refl.
  - apply not_elem_of_cons in Hnot as [Hx Hnot].
    destruct (N.eqb_spec x c) as [->|_]; [done|].
    rewrite IH by done.
    destruct (Z.ltb_spec (Z.of_nat (length pre)) 0); lia.
Qed.

Lemma indexOf_app_later c pre rest :
  c ∉ pre ->
  Js.indexOf c (pre ++ rest) = -1
  \/ Z.of_nat (length pre) <= Js.indexOf c (pre ++ rest).
Proof.
  induction pre as [|x pre IH]; intros Hnot; simpl.
  - pose proof (indexOf_range c rest). lia.
  - apply not_elem_of_cons in Hnot as [Hx Hnot].
    destruct (N.eqb_spec x c) as [->|_]; [done|].
    destruct (IH Hnot) as [->|Hle]; [by left|].
    destruct (Z.ltb_spec (Js.indexOf c (pre ++ rest)) 0); lia.
Qed.

Lemma lastIndexOf_app_found c l post :
  c ∉ post -> Js.lastIndexOf c (l ++ c :: post) = Z.of_nat (length l).
Proof.
  intros Hnot.
  assert (Hpost : Js.lastIndexOf c post = -1).
  { induction post as [|x post IH]; [done|]. simpl.
    apply not_elem_of_cons in Hnot as [Hx Hnot]. rewrite IH by done. simpl.
    destruct (N.eqb_spec x c) as [->|_]; done. }
  induction l as [|x l IH]; simpl.
  - rewrite Hpost. simpl. by rewrite N.eqb_refl.
  - rewrite IH. destruct (Z.leb_spec 0 (Z.of_nat (length l))); lia.
Qed.

Lemma trimStart_suffix s : exists w, s = w ++ Js.trimStart s.
Proof.
  induction s as [|c s [w IH]]; [by exists []|]. simpl.
  destruct (Js.isWhiteSpace c).
  - exists (c :: w). simpl. by rewrite <- IH.
  - by exists [].
Qed.

(** Trimming a text around a bracketed part keeps that part and cuts
    only the text before and after it. *)
Lemma trim_around pre opener closer body post :
  Js.isWhiteSpace opener = false ->
  Js.isWhiteSpace closer = false ->
  exists pre0 pre' post' post0,
    pre = pre0 ++ pre' /\ post = post' ++ post0
    /\ Js.trim (pre ++ (opener :: body ++ [closer]) ++ post)
       = pre' ++ (opener :: body ++ [closer]) ++ post'.
Proof.
  intros Ho Hc. unfold Js.trim, Js.trimEnd.
  assert (Hstart : forall rest,
    exists pre0 pre', pre = pre0 ++ pre'
      /\ Js.trimStart (pre ++ opener :: rest) = pre' ++ opener :: rest).
  { intros rest. induction pre as [|x pre (pre0 & pre' & -> & IH)].
    - exists [], []. split; [done|]. by apply trimStart_head.
    - simpl. destruct (Js.isWhiteSpace x).
      + exists (x :: pre0), pre'. by rewrite IH.
      + by exists [], (x :: pre0 ++ pre'). }
  change ((opener :: body ++ [closer]) ++ post)
    with (opener :: (body ++ [closer]) ++ post).
  destruct (Hstart ((body ++ [closer]) ++ post)) as (pre0 & pre' & -> & ->).
  assert (Hrev :
    rev (pre' ++ opener :: (body ++ [closer]) ++ post)
    = rev post ++ closer :: rev (pre' ++ opener :: body)).
  { replace (pre' ++ opener :: (body ++ [closer]) ++ post)
      with ((pre' ++ opener :: body) ++ closer :: post)
      by (repeat (rewrite <- ?app_assoc; simpl); done).
    rewrite rev_app_distr. simpl. by rewrite <- app_assoc. }
  rewrite Hrev.
  assert (Hend : forall q rest,
    exists post' post0, q = post' ++ post0
      /\ rev (Js.trimStart (rev q ++ closer :: rest))
         = rev rest ++ closer :: post').
  { intros q rest. induction q as [|x q IH] using rev_ind.
    - exists [], []. split; [done|]. simpl. by rewrite Hc.
    - rewrite rev_app_distr. simpl. destruct (Js.isWhiteSpace x).
      + destruct IH as (post' & post0 & -> & ->).
        exists post', (post0 ++ [x]). by rewrite app_assoc.
      + exists (q ++ [x]), []. rewrite app_nil_r. split; [done|].
        simpl. rewrite rev_app_distr. simpl. rewrite rev_involutive.
        rewrite <- !app_assoc. done. }
  destruct (Hend post (rev (pre' ++ opener :: body)))
    as (post' & post0 & -> & ->).
  exists pre0, pre', post', post0. repeat split.
  rewrite rev_involutive, <- !app_assoc. simpl. by rewrite <- !app_assoc.
Qed.

(** The extraction, from the text that is left when the fences are
    stripped. *)
Lemma cleanJson_of_stripped text pre opener closer body post :
  text <> [] ->
  brackets opener closer ->
  stripFences text = pre ++ (opener :: body ++ [closer]) ++ post ->
  lbrace ∉ pre -> lbracket ∉ pre -> closer ∉ post ->
  cleanJson text = opener :: stripControl body ++ [closer].
Proof.
  intros Hne Hb Hstrip Hbrace Hbracket Hpost.
  destruct (brackets_plain _ _ Hb) as (Hwo & Hwc & Hco & Hcc & _ & _ & Hoc).
  destruct (trim_around pre opener closer body post Hwo Hwc)
    as (pre0 & pre' & post' & post0 & -> & -> & Htrim).
  rewrite not_elem_of_app in Hbrace, Hbracket, Hpost.
  destruct Hbrace as [_ Hbrace]. destruct Hbracket as [_ Hbracket].
  destruct Hpost as [Hpost _].
  set (json := opener :: body ++ [closer]) in *.
  set (cleaned := pre' ++ json ++ post') in *.
  assert (Hloc : locate cleaned
                 = (Z.of_nat (length pre'),
                    Z.of_nat (length (pre' ++ opener :: body)),
                    bool_decide (opener = lbracket))).
  { unfold locate.
    assert (Hlast : Js.lastIndexOf closer cleaned
                    = Z.of_nat (length (pre' ++ opener :: body))).
    { subst cleaned json.
      replace (pre' ++ (opener :: body ++ [closer]) ++ post')
        with ((pre' ++ opener :: body) ++ closer :: post')
        by (rewrite <- !app_assoc; simpl; by rewrite <- !app_assoc).
      by apply lastIndexOf_app_found. }
    assert (Hfirst : Js.indexOf opener cleaned = Z.of_nat (length pre')).
    { destruct Hb as [[-> ->]|[-> ->]].
      - exact (indexOf_app_found lbrace pre' ((body ++ [rbrace]) ++ post')
                 Hbrace).
      - exact (indexOf_app_found lbracket pre' ((body ++ [rbracket]) ++ post')
                 Hbracket). }
    destruct Hb as [[-> ->]|[-> ->]].
    - rewrite Hfirst.
      pose proof (indexOf_app_later lbracket pre' (json ++ post') Hbracket)
        as Hlater.
      change (pre' ++ json ++ post') with cleaned in Hlater.
      destruct Hlater as [Hn|Hle].
      + rewrite Hn, Hlast. simpl.
        destruct (Z.eqb_spec (Z.of_nat (length pre')) (-1)); [lia|done].
      + assert (Hlt : Z.of_nat (length pre') < Js.indexOf lbracket cleaned).
        { destruct (decide (Js.indexOf lbracket cleaned
                            = Z.of_nat (length pre'))) as [Heq|]; [|lia].
          pose proof (indexOf_lookup lbracket cleaned ltac:(lia)) as Hl.
          rewrite Heq, Nat2Z.id in Hl. subst cleaned json.
          rewrite lookup_app_r, Nat.sub_diag in Hl by lia. done. }
        rewrite Hlast.
        destruct (Z.eqb_spec (Z.of_nat (length pre')) (-1)); [lia|].
        destruct (Z.ltb_spec (Z.of_nat (length pre'))
                    (Js.indexOf lbracket cleaned)); [|lia].
        by rewrite orb_true_r.
    - rewrite Hfirst.
      pose proof (indexOf_app_later lbrace pre' (json ++ post') Hbrace)
        as Hlater.
      change (pre' ++ json ++ post') with cleaned in Hlater.
      destruct Hlater as [Hn|Hle].
      + rewrite Hn, Hlast. simpl.
        destruct (Z.eqb_spec (Z.of_nat (length pre')) (-1)); [lia|done].
      + rewrite Hlast.
        destruct (Z.eqb_spec (Js.indexOf lbrace cleaned) (-1)); [lia|].
        destruct (Z.eqb_spec (Z.of_nat (length pre')) (-1)); [lia|].
        destruct (Z.ltb_spec (Js.indexOf lbrace cleaned)
                    (Z.of_nat (length pre'))); [lia|].
        simpl. destruct (Z.eqb_spec (Z.of_nat (length pre')) (-1)); [lia|done]. }
  unfold cleanJson.
  assert (Js.truthy text = true) as -> by (by destruct text).
  simpl negb. cbv iota. rewrite Hstrip, Htrim. fold json. fold cleaned.
  rewrite Hloc.
  assert (Hguard :
    located (Z.of_nat (length pre'))
      (Z.of_nat (length (pre' ++ opener :: body))) = true).
  { unfold located. rewrite length_app. simpl length.
    destruct (Z.eqb_spec (Z.of_nat (length pre')) (-1)); [lia|].
    destruct (Z.eqb_spec (Z.of_nat (length pre' + S (length body))) (-1));
      [lia|].
    rewrite Z.geb_leb. simpl. apply Z.leb_le. lia. }
  rewrite Hguard.
  assert (Hsub :
    Js.substring cleaned (Z.of_nat (length pre'))
      (Z.of_nat (length (pre' ++ opener :: body)) + 1) = json).
  { unfold Js.substring. subst cleaned json.
    rewrite !length_app. simpl length. rewrite !length_app. simpl length.
    replace (Z.min (Z.max (Z.of_nat (length pre')) 0) _)
      with (Z.of_nat (length pre')) by lia.
    replace (Z.min (Z.max (Z.of_nat (length pre' + S (length body)) + 1) 0) _)
      with (Z.of_nat (length pre' + S (length body)) + 1) by lia.
    rewrite Z.min_l, Z.max_r by lia. rewrite Nat2Z.id, drop_app_length.
    replace (Z.to_nat _) with (length (opener :: body ++ [closer]))
      by (simpl; rewrite length_app; simpl; lia).
    by rewrite take_app_length. }
  rewrite Hsub. subst json. rewrite stripControl_bracketed by done.
  pose proof (trim_bracketed opener closer (stripControl body) []
                Hwo Hwc ltac:(constructor)) as Hid.
  rewrite app_nil_r in Hid. by rewrite Hid.
Qed.

Lemma fenceMatchLength_plain c r :
  c <> backtick -> fenceMatchLength (c :: r) = 0%nat.
Proof.
  intros Hc. unfold fenceMatchLength.
  destruct r as [|b2 [|b3 r]]; try done.
  by destruct (N.eqb_spec c backtick).
Qed.

Lemma stripFencesFrom_plain s t :
  Forall (fun c => c <> backtick) s ->
  stripFencesFrom 0 (s ++ t) = s ++ stripFencesFrom 0 t.
Proof.
  induction 1 as [|c s Hc _ IH]; [done|].
  change ((c :: s) ++ t) with (c :: s ++ t).
  cbn [stripFencesFrom]. rewrite (fenceMatchLength_plain c (s ++ t) Hc).
  by rewrite IH.
Qed.

Lemma stripFencesFrom_skip w t :
  stripFencesFrom (length w) (w ++ t) = stripFencesFrom 0 t.
Proof. induction w as [|c w IH]; [by destruct t|]. simpl. apply IH. Qed.

Lemma leadingWhiteSpace_blank w c r :
  blank w -> Js.isWhiteSpace c = false ->
  leadingWhiteSpace (w ++ c :: r) = length w.
Proof.
  induction 1 as [|x w Hx _ IH]; intros Hc; simpl.
  - by rewrite Hc.
  - by rewrite Hx, IH.
Qed.

(** X17. [cleanJson] extracts the text from the first opening bracket to
    the last matching closing bracket. For a text without backticks that
    holds a bracketed part with no brace or bracket before it and no
    matching closer behind it, the result is that part with the control
    characters of the stripped class removed, whatever surrounds it. *)
Theorem cleanJson_extracts (pre post body : Js.str) (opener closer : N) :
  brackets opener closer ->
  lbrace ∉ pre -> lbracket ∉ pre -> closer ∉ post ->
  Forall (fun c => c <> backtick) (pre ++ body ++ post) ->
  cleanJson (pre ++ (opener :: body ++ [closer]) ++ post)
  = opener :: stripControl body ++ [closer].
Proof.
  intros Hb Hbrace Hbracket Hpost Hplain.
  destruct (brackets_plain _ _ Hb) as (_ & _ & _ & _ & Hto & Htc & _).
  apply (cleanJson_of_stripped _ pre opener closer body post); try done.
  - by destruct pre.
  - unfold stripFences.
    rewrite <- (app_nil_r (pre ++ (opener :: body ++ [closer]) ++ post)) at 1.
    rewrite stripFencesFrom_plain; [by rewrite app_nil_r|].
    apply Forall_app in Hplain as [Hpre Hrest].
    apply Forall_app in Hrest as [Hbody Hpost'].
    apply Forall_app. split; [done|]. apply Forall_app. split; [|done].
    constructor; [done|]. apply Forall_app. split; [done|]. by constructor.
Qed.

Lemma cleanJson_extracts_witness :
  cleanJson (Js.lit "Sure! {1} ok") = Js.lit "{1}".
Proof.
  apply (cleanJson_extracts (Js.lit "Sure! ") (Js.lit " ok") (Js.lit "1")
           lbrace rbrace).
  - left. split; reflexivity.
  - intros Hin. apply list_elem_of_In in Hin. vm_compute in Hin.
    intuition discriminate.
  - intros Hin. apply list_elem_of_In in Hin. vm_compute in Hin.
    intuition discriminate.
  - intros Hin. apply list_elem_of_In in Hin. vm_compute in Hin.
    intuition discriminate.
  - vm_compute. repeat constructor; discriminate.
Defined.

(** X18. [cleanJson] unwraps a fenced reply. For a bracketed text without
    backticks, wrapped in a [json] fence with any white space after the
    opening fence and before the closing one, the result is the bracketed
    text with the control characters of the stripped class removed. *)
Theorem cleanJson_unwraps_fence (ws ws' body : Js.str) (opener closer : N) :
  brackets opener closer ->
  blank ws -> blank ws' ->
  Forall (fun c => c <> backtick) body ->
  cleanJson (Js.lit "```json" ++ ws ++ (opener :: body ++ [closer]) ++ ws'
             ++ Js.lit "```")
  = opener :: stripControl body ++ [closer].
Proof.
  intros Hb Hws Hws' Hplain.
  destruct (brackets_plain _ _ Hb) as (Hwo & Hwc & _ & _ & Hto & Htc & _).
  apply (cleanJson_of_stripped _ [] opener closer body ws'); try done.
  - unfold stripFences.
    change (Js.lit "```json" ++ ?r)
      with (backtick :: (Js.lit "``json" ++ r)).
    cbn [stripFencesFrom].
    assert (Hmatch :
      fenceMatchLength
        (backtick :: Js.lit "``json" ++ ws ++ (opener :: body ++ [closer])
           ++ ws' ++ Js.lit "```")
      = S (length (Js.lit "``json" ++ ws))).
    { rewrite length_app. simpl.
      change ((opener :: body ++ [closer]) ++ ws' ++ Js.lit "```")
        with (opener :: (body ++ [closer]) ++ ws' ++ Js.lit "```").
      by rewrite leadingWhiteSpace_blank. }
    rewrite Hmatch.
    rewrite (app_assoc (Js.lit "``json") ws), stripFencesFrom_skip.
    rewrite (app_assoc _ ws'), stripFencesFrom_plain.
    + simpl stripFencesFrom. by rewrite app_nil_r.
    + apply Forall_app. split.
      * constructor; [done|]. apply Forall_app. split; [done|].
        by constructor.
      * eapply Forall_impl; [exact Hws'|]. intros x Hx ->. done.
  - apply not_elem_of_nil.
  - apply not_elem_of_nil.
  - intros Hin. unfold blank in Hws'. rewrite Forall_forall in Hws'.
    apply Hws' in Hin. congruence.
Qed.

Lemma cleanJson_unwraps_fence_witness :
  cleanJson (Js.lit "```json" ++ [10%N] ++ Js.lit "[1]" ++ [10%N]
             ++ Js.lit "```")
  = Js.lit "[1]".
Proof.
  apply (cleanJson_unwraps_fence [10%N] [10%N] (Js.lit "1") lbracket rbracket).
  - right. split; reflexivity.
  - repeat constructor.
  - repeat constructor.
  - repeat constructor; discriminate.
Defined.

End EnvelopeFacts.

(** ** FallbackInvoker: the calls of a run *)

Module AttemptFacts.
Import Fallback.

(** X19. A run of the invoker makes the calls of the specification over a
    non-empty prefix of the candidate sequence and no others: the operation
    is called with each candidate of the prefix, in order and once, each
    call on the world that the call before left, and the world of the run
    is the world after the last of them. All calls but the last were
    rejected. If the last call succeeded, the run resolves to its result
    and no later candidate is called; if it was rejected, every candidate
    was called and the run is rejected with that error, or with the
    synthetic error when the value is falsy. When there is no candidate
    sequence (the preferred model bears an inherited name and the table has
    no entry of its own for it), no call is made, the world is as before and
    the run is rejected with the [TypeError] of the spread. *)
Theorem withModelFallback_stops_at_first_success
    {T E W : Type} (truthy : E -> bool) (allModelsFailed : Js.str -> E)
    (notIterable : E)
    (primaryModel : Js.str) (fallbacksMap : gmap Js.str (list Js.str))
    (op : operation T E W) (w : W) :
  let r := withModelFallback truthy allModelsFailed notIterable primaryModel
             fallbacksMap op w in
  match modelsToTry primaryModel fallbacksMap with
  | None =>
      attempts r = [] /\ world r = w /\ settled r = Rejected notIterable
  | Some models =>
      exists called failed final,
        called `prefix_of` models
        /\ callEach op called w = (attempts r, world r)
        /\ map fst (attempts r) = called
        /\ attempts r = failed ++ [final]
        /\ Forall (fun a => exists e, a.2 = Rejected e) failed
        /\ match final.2 with
           | Resolved t => settled r = Resolved t
           | Rejected e =>
               called = models
               /\ settled r
                  = Rejected
                      (if truthy e then e else allModelsFailed primaryModel)
           end
  end.
Proof.
  intros r. subst r. unfold withModelFallback.
  destruct (modelsToTry primaryModel fallbacksMap) as [models|] eqn:Hmodels;
    [|done].
  pose proof (FallbackFacts.tryModels_calls op models None w) as Hcalls.
  destruct (tryModels op models None w) as [[[t|le] att] w'].
  - destruct Hcalls as (failed & m & later & -> & -> & Hfailed & Hcalls).
    exists (map fst failed ++ [m]), failed, (m, Resolved t).
    cbn [attempts world settled]. repeat split; try done.
    + exists later. by rewrite <- app_assoc.
    + by rewrite map_app.
  - destruct Hcalls as (Hall & Hcalls & ->).
    destruct (FallbackFacts.modelsToTry_Some _ _ _ Hmodels)
      as (fallbacks & -> & _).
    pose proof (FallbackFacts.callEach_models op (primaryModel :: fallbacks) w)
      as Hnames.
    rewrite Hcalls in Hnames. simpl in Hnames.
    destruct att as [|a att] using rev_ind; [done|].
    clear IHatt. exists (primaryModel :: fallbacks), att, a.
    cbn [attempts world settled].
    apply Forall_app in Hall as [Hfailed Hlast].
    apply Forall_singleton in Hlast as [e He].
    rewrite last_snoc. destruct a as [m o]. simpl in He. subst o.
    repeat split; done.
Qed.

(** X20. When there is a candidate sequence, the operation fails for its
    first candidates and succeeds for the next one, the run resolves to the
    result of that candidate and makes the calls of the specification over
    the candidates up to it and no others: each of them is called once, in
    order, each call on the world the call before left, no failing
    candidate is called again and none of the candidates behind it is
    called. The world of the run is the world after these calls. *)
Theorem withModelFallback_first_success
    {T E W : Type} (truthy : E -> bool) (allModelsFailed : Js.str -> E)
    (notIterable : E)
    (primaryModel : Js.str) (fallbacksMap : gmap Js.str (list Js.str))
    (op : operation T E W) (w : W)
    (failing : list Js.str) (model : Js.str) (later : list Js.str) (t : T) :
  modelsToTry primaryModel fallbacksMap = Some (failing ++ model :: later) ->
  (forall m w0, m ∈ failing -> exists e w1, op m w0 = (Rejected e, w1)) ->
  (forall w0, exists w1, op model w0 = (Resolved t, w1)) ->
  let r := withModelFallback truthy allModelsFailed notIterable primaryModel
             fallbacksMap op w in
  settled r = Resolved t
  /\ callEach op (failing ++ [model]) w = (attempts r, world r)
  /\ map fst (attempts r) = failing ++ [model]
  /\ length (attempts r) = S (length failing).
Proof.
  intros Hcand Hfail Hok r. subst r. unfold withModelFallback.
  rewrite Hcand.
  assert (Hrun : forall lastError w0,
    exists att w1,
      tryModels op (failing ++ model :: later) lastError w0
      = (inl t, att, w1)
      /\ callEach op (failing ++ [model]) w0 = (att, w1)).
  { clear Hcand. induction failing as [|m failing IH]; intros lastError w0.
    - simpl. destruct (Hok w0) as [w1 ->]. by exists [(model, Resolved t)], w1.
    - simpl. destruct (Hfail m w0) as (e & w1 & ->); [left|].
      destruct (IH (fun m' w' Hm => Hfail m' w' (list_elem_of_further _ _ _ Hm))
                  (Some e) w1) as (att & w2 & -> & ->).
      by exists ((m, Rejected e) :: att), w2. }
  destruct (Hrun None w) as (att & w1 & -> & Hcalls).
  cbn [settled attempts world].
  pose proof (FallbackFacts.callEach_models op (failing ++ [model]) w)
    as Hnames.
  rewrite Hcalls in Hnames. simpl in Hnames.
  repeat split; [done|done|].
  rewrite <- (length_map fst), Hnames, length_app. simpl. lia.
Qed.

(** With the table of the text models: the preferred model is out of
    quota, its substitute answers. The operation was called twice, with
    the preferred model and then with the substitute. *)
Lemma withModelFallback_first_success_witness :
  let r := withModelFallback Js.truthy ALL_MODELS_FAILED NOT_ITERABLE
             (Js.lit "gemini-2.5-pro") TEXT_MODEL_FALLBACKS proOutOfQuota []
  in
  settled r = Resolved (Js.lit "gemini-2.5-flash")
  /\ map fst (attempts r)
     = [Js.lit "gemini-2.5-pro"; Js.lit "gemini-2.5-flash"]
  /\ world r = [Js.lit "gemini-2.5-pro"; Js.lit "gemini-2.5-flash"].
Proof.
  intros r.
  destruct (withModelFallback_first_success Js.truthy ALL_MODELS_FAILED
              NOT_ITERABLE (Js.lit "gemini-2.5-pro")
              TEXT_MODEL_FALLBACKS proOutOfQuota [] [Js.lit "gemini-2.5-pro"]
              (Js.lit "gemini-2.5-flash") [] (Js.lit "gemini-2.5-flash"))
    as (Hsettled & Hcalls & Hnames & _).
  - reflexivity.
  - intros m w0 Hm. apply list_elem_of_singleton in Hm as ->.
    by exists (Js.lit "429"), (w0 ++ [Js.lit "gemini-2.5-pro"]).
  - intros w0. by exists (w0 ++ [Js.lit "gemini-2.5-flash"]).
  - fold r in Hsettled, Hcalls, Hnames.
    split; [exact Hsettled|]. split; [exact Hnames|].
    apply (f_equal snd) in Hcalls. simpl in Hcalls. rewrite <- Hcalls.
    reflexivity.
Defined.

End AttemptFacts.

(** ** The checkpoint library *)

Module LibraryFacts.
Import Library.

Lemma find_Some_filter (id : Js.str) (l : list SavedGame.t) x :
  List.find (fun y => bool_decide (SavedGame.id y = id)) l = Some x ->
  SavedGame.id x = id /\ x ∈ l.
Proof.
  intros H. apply find_some in H as [Hin Hb].
  apply bool_decide_eq_true in Hb. split; [done|].
  by apply list_elem_of_In.
Qed.

Lemma find_is_Some (id : Js.str) (l : list SavedGame.t) x :
  x ∈ l -> SavedGame.id x = id ->
  is_Some (List.find (fun y => bool_decide (SavedGame.id y = id)) l).
Proof.
  intros Hin Hid.
  destruct (List.find _ l) eqn:E; [by eexists|].
  exfalso. pose proof (find_none _ _ E x (proj1 (list_elem_of_In _ _) Hin)) as Hb.
  simpl in Hb. by apply bool_decide_eq_false in Hb.
Qed.

Lemma slice0_drop_last {A} (l : list A) (x : A) :
  Engine.slice0 (l ++ [x]) (-1) = l.
Proof.
  unfold Engine.slice0. rewrite length_app. simpl.
  replace (Z.to_nat _) with (length l) by lia.
  by rewrite take_app_length.
Qed.

(** With unique identifiers, the records that carry [id] are the one that
    [find] returns. *)
Lemma filter_unique_id (id : Js.str) (l : list SavedGame.t) x :
  NoDup (map SavedGame.id l) ->
  List.find (fun y => bool_decide (SavedGame.id y = id)) l = Some x ->
  filter (fun y => ¬ SavedGame.id y <> id) l = [x].
Proof.
  induction l as [|a l IH]; [done|].
  simpl. intros Hnd Hfind. apply NoDup_cons in Hnd as [Hnotin Hnd].
  case_bool_decide as Ha.
  - injection Hfind as ->. rewrite filter_cons_True by (intros Hc; by apply Hc).
    f_equal. clear IH. induction l as [|b l IH]; [done|].
    rewrite filter_cons_False.
    + apply IH.
      * intros Hin. apply Hnotin. simpl. by apply list_elem_of_further.
      * simpl in Hnd. by apply NoDup_cons in Hnd as [_ ?].
    + intros Hb. apply Hb. intros Hbid. apply Hnotin. simpl.
      rewrite Ha, <- Hbid. apply list_elem_of_here.
  - rewrite filter_cons_False by (intros Hc; by apply Hc). by apply IH.
Qed.

(** X21. Deleting a session and undoing the deletion gives back every
    checkpoint, verbatim: the checkpoints of the session are moved to the end
    of the list, the undo stack is as before, and the storage service has
    seen the deletion of exactly the identifiers that it is then given back
    as records. *)
Theorem deleteSession_then_undo (sessionId : Js.str) (s : Library.t) :
  (exists x, x ∈ Hook.savedGames (hook s)
             /\ SavedGame.sessionId x = sessionId) ->
  let saved := Hook.savedGames (hook s) in
  let mine := filter (fun x => SavedGame.sessionId x = sessionId) saved in
  let s' := handleUndoDelete (deleteSession sessionId s) in
  Hook.savedGames (hook s')
  = filter (fun x => SavedGame.sessionId x <> sessionId) saved ++ mine
  /\ Hook.savedGames (hook s') ≡ₚ saved
  /\ deletedSavesStack s' = deletedSavesStack s
  /\ storageCalls s'
     = storageCalls s ++ [DeleteGames (map SavedGame.id mine); SaveGames mine].
Proof.
  intros [x [Hin Hx]] saved mine s'.
  assert (Hlen : (0 <? length mine)%nat = true).
  { apply Nat.ltb_lt. assert (x ∈ mine) as Hm by (by apply list_elem_of_filter).
    destruct mine; [by apply elem_of_nil in Hm | simpl; lia]. }
  assert (Hs' : s' = Make
            (Hook.setSavedGames
               (fun _ => filter (fun x => SavedGame.sessionId x <> sessionId)
                           saved ++ mine) (hook s))
            (deletedSavesStack s)
            (storageCalls s
             ++ [DeleteGames (map SavedGame.id mine); SaveGames mine])
            (modals s)).
  { subst s'. unfold deleteSession. fold saved. fold mine. rewrite Hlen.
    unfold handleUndoDelete, callStorage, setHook, setDeletedSavesStack.
    cbn [deletedSavesStack hook storageCalls modals].
    rewrite last_snoc, slice0_drop_last, <- app_assoc. done. }
  rewrite Hs'. cbn [hook deletedSavesStack storageCalls Hook.savedGames
                         Hook.setSavedGames].
  repeat split; try done.
  rewrite (Permutation_app_comm _ mine). subst mine.
  apply (filter_app_complement (fun x => SavedGame.sessionId x = sessionId)).
Qed.

Lemma deleteSession_then_undo_witness :
  let s := Library.Make Samples.shelf [] [] ∅ in
  Hook.savedGames (hook (handleUndoDelete (deleteSession (Js.lit "session-1") s)))
  ≡ₚ Hook.savedGames (hook s).
Proof.
  intros s.
  refine (proj1 (proj2 (deleteSession_then_undo (Js.lit "session-1") s _))).
  exists (Samples.checkpoint "a" "session-1" "s0").
  split; [vm_compute; apply list_elem_of_here | reflexivity].
Defined.


(** X22. Deleting one checkpoint and undoing the deletion gives the record
    back, verbatim, at the end of the list: with unique identifiers the list
    holds the same checkpoints as before, the undo stack is as before, and
    the storage service is asked to delete the identifier and then to store
    the record again. *)
Theorem deleteSaveGame_then_undo (s : Library.t) (x : SavedGame.t) :
  NoDup (map SavedGame.id (Hook.savedGames (hook s))) ->
  x ∈ Hook.savedGames (hook s) ->
  let saved := Hook.savedGames (hook s) in
  let id := SavedGame.id x in
  let s' := handleUndoDelete (deleteSaveGame id s) in
  Hook.savedGames (hook s')
  = filter (fun y => SavedGame.id y <> id) saved ++ [x]
  /\ Hook.savedGames (hook s') ≡ₚ saved
  /\ deletedSavesStack s' = deletedSavesStack s
  /\ storageCalls s' = storageCalls s ++ [DeleteGame id; SaveGames [x]].
Proof.
  intros Hnd Hin saved id s'.
  destruct (find_is_Some id saved x Hin eq_refl) as [y Hfind].
  pose proof (filter_unique_id id saved y Hnd Hfind) as Honly.
  assert (x = y) as <-.
  { assert (x ∈ filter (fun y => ¬ SavedGame.id y <> id) saved) as Hx.
    { apply list_elem_of_filter. split; [|done]. intros Hc. by apply Hc. }
    rewrite Honly in Hx. by apply list_elem_of_singleton in Hx. }
  assert (Hs' : s' = Make
            (Hook.setSavedGames
               (fun _ => filter (fun y => SavedGame.id y <> id) saved ++ [x])
               (hook s))
            (deletedSavesStack s)
            (storageCalls s ++ [DeleteGame id; SaveGames [x]])
            (modals s)).
  { subst s'. unfold deleteSaveGame. fold saved. rewrite Hfind.
    unfold handleUndoDelete, callStorage, setHook, setDeletedSavesStack.
    cbn [deletedSavesStack hook storageCalls modals].
    rewrite last_snoc, slice0_drop_last, <- app_assoc. done. }
  rewrite Hs'. cbn [hook deletedSavesStack storageCalls Hook.savedGames
                         Hook.setSavedGames].
  repeat split; try done.
  rewrite <- Honly.
  apply (filter_app_complement (fun y => SavedGame.id y <> id)).
Qed.

Lemma deleteSaveGame_then_undo_witness :
  let s := Library.Make Samples.shelf [] [] ∅ in
  Hook.savedGames (hook (handleUndoDelete (deleteSaveGame (Js.lit "b") s)))
  ≡ₚ Hook.savedGames (hook s).
Proof.
  intros s.
  refine (proj1 (proj2 (deleteSaveGame_then_undo s
                          (Samples.checkpoint "b" "session-2" "s0") _ _))).
  - vm_compute. repeat constructor; rewrite ?list_elem_of_In; simpl;
      intuition discriminate.
  - vm_compute. apply list_elem_of_further, list_elem_of_here.
Defined.

Lemma hasId_spec (x : SavedGame.t) (l : list SavedGame.t) :
  existsb (fun exist => bool_decide (SavedGame.id exist = SavedGame.id x)) l
  = true
  <-> SavedGame.id x ∈ map SavedGame.id l.
Proof.
  rewrite existsb_exists, list_elem_of_fmap. split.
  - intros (y & Hin & Hy). apply bool_decide_eq_true in Hy.
    exists y. split; [done | by apply list_elem_of_In].
  - intros (y & Hy & Hin). exists y. split; [by apply list_elem_of_In|].
    by apply bool_decide_eq_true.
Qed.

(** The loop of [importSaveGame] appends the records whose identifier is
    not on the list yet, each identifier once. *)
Lemma importOne_fold (toImport newSaves savesToAdd : list SavedGame.t)
    (count : Z) :
  exists added,
    fold_left importOne toImport (newSaves, savesToAdd, count)
    = (newSaves ++ added, savesToAdd ++ added,
       count + Z.of_nat (length added))
    /\ sublist added toImport
    /\ (NoDup (map SavedGame.id newSaves) ->
        NoDup (map SavedGame.id (newSaves ++ added)))
    /\ (forall x, x ∈ toImport ->
        SavedGame.id x ∈ map SavedGame.id (newSaves ++ added)).
Proof.
  revert newSaves savesToAdd count.
  induction toImport as [|x l IH]; intros newSaves savesToAdd count.
  - exists []. rewrite !app_nil_r, Z.add_0_r. repeat split; try done.
    intros x Hx. by apply elem_of_nil in Hx.
  - simpl. destruct (existsb _ newSaves) eqn:Hex; simpl.
    + destruct (IH newSaves savesToAdd count) as (added & Hf & Hsub & Hnd & Hall).
      exists added. rewrite Hf. repeat split; try done.
      * by apply sublist_cons.
      * intros y Hy. apply elem_of_cons in Hy as [->|Hy]; [|by apply Hall].
        rewrite fmap_app. apply elem_of_app. left. by apply hasId_spec.
    + destruct (IH (newSaves ++ [x]) (savesToAdd ++ [x]) (count + 1))
        as (added & Hf & Hsub & Hnd & Hall).
      assert (Hassoc : forall l : list SavedGame.t,
                 l ++ x :: added = (l ++ [x]) ++ added)
        by (intros; by rewrite <- app_assoc).
      exists (x :: added). rewrite Hf, !Hassoc.
      repeat split.
      * f_equal. simpl length. lia.
      * by apply sublist_skip.
      * intros Hnew. apply Hnd. rewrite fmap_app. simpl. apply NoDup_app.
        repeat split; [done| |apply NoDup_singleton].
        intros i Hi Hi'. apply list_elem_of_singleton in Hi' as ->.
        apply hasId_spec in Hi. congruence.
      * intros y Hy.
        apply elem_of_cons in Hy as [->|Hy]; [|by apply Hall].
        rewrite !fmap_app. simpl. apply elem_of_app. left.
        apply elem_of_app. right. apply list_elem_of_here.
Qed.

Lemma importOne_fold_present (toImport newSaves savesToAdd : list SavedGame.t)
    (count : Z) :
  (forall x, x ∈ toImport -> SavedGame.id x ∈ map SavedGame.id newSaves) ->
  fold_left importOne toImport (newSaves, savesToAdd, count)
  = (newSaves, savesToAdd, count).
Proof.
  induction toImport as [|x l IH]; [done|]. intros Hall. simpl.
  rewrite (proj2 (hasId_spec x newSaves)) by (apply Hall, list_elem_of_here).
  simpl. apply IH. intros y Hy. by apply Hall, list_elem_of_further.
Qed.

Lemma importSaveGame_savedGames toImport s :
  exists added,
    Hook.savedGames (hook (importSaveGame toImport s).2)
    = Hook.savedGames (hook s) ++ added
    /\ (importSaveGame toImport s).1 = Z.of_nat (length added)
    /\ sublist added toImport
    /\ (NoDup (map SavedGame.id (Hook.savedGames (hook s))) ->
        NoDup (map SavedGame.id (Hook.savedGames (hook s) ++ added)))
    /\ (forall x, x ∈ toImport ->
        SavedGame.id x ∈ map SavedGame.id (Hook.savedGames (hook s) ++ added)).
Proof.
  unfold importSaveGame.
  destruct (importOne_fold toImport (Hook.savedGames (hook s)) [] 0)
    as (added & -> & Hsub & Hnd & Hall).
  exists added. destruct (0 + Z.of_nat (length added) >? 0) eqn:Hpos; simpl.
  - repeat split; try done.
  - assert (added = []) as ->.
    { destruct added; [done|]. exfalso. simpl length in Hpos.
      destruct (Z.gtb_spec (0 + Z.of_nat (S (length added))) 0); [done | lia]. }
    rewrite app_nil_r in *. repeat split; try done.
Qed.


(** X24. Importing the same checkpoints a second time is a no-op: the call
    returns [0], the checkpoint list is unchanged and the storage service is
    not called again. *)
Theorem importSaveGame_twice (toImport : list SavedGame.t) (s : Library.t) :
  let once := (importSaveGame toImport s).2 in
  importSaveGame toImport once = (0, once).
Proof.
  intros once.
  destruct (importSaveGame_savedGames toImport s)
    as (added & Hs & _ & _ & _ & Hall).
  fold once in Hs. unfold importSaveGame at 1.
  rewrite importOne_fold_present; [done|].
  intros x Hx. rewrite Hs. by apply Hall.
Qed.


(** X25. Right after a turn there is nothing left to save by hand. The
    turn has put a checkpoint for the new segment on the list (or found
    one), so a manual save that follows it writes no record, calls the
    storage service for nothing and raises the notice that the save
    exists. *)
Theorem handleManualSave_after_turn (env env' : Env.t) (choice : Js.str)
    (fromIndex : option Z) (s : Library.t) (nextSegment : StorySegment.t) :
  Hook.isLoading (hook s) = false ->
  Env.advanceStory env
    (Engine.turnArgs (Hook.context (hook s)) choice fromIndex)
  = Fulfilled nextSegment ->
  let played := setHook (Engine.handleChoice env choice fromIndex) s in
  let s' := handleManualSave env' played in
  hook s' = hook played
  /\ storageCalls s' = storageCalls played
  /\ modals s' !! SAVE_EXISTING_NOTIFICATION = Some true.
Proof.
  intros Hidle Hgen played s'.
  set (c1 := Engine.turnContext env (Hook.context (hook s))
               (Engine.baseHistory (Hook.context (hook s)) fromIndex)
               choice nextSegment).
  set (segment := Engine.segmentWithChoice (Hook.context (hook s)) choice
                    nextSegment).
  set (saveObj := Engine.turnSave env
                    (Engine.baseHistory (Hook.context (hook s)) fromIndex)
                    choice segment c1).
  assert (Hctx : Hook.context (hook played) = c1).
  { unfold played, setHook. cbn [hook].
    by rewrite (ChoiceFacts.handleChoice_committed _ _ _ _ _ Hidle Hgen). }
  assert (Hsaved : Hook.savedGames (hook played)
                   = Engine.autoSaveUpdater saveObj (Hook.savedGames (hook s))).
  { unfold played, setHook. cbn [hook].
    by rewrite (ChoiceFacts.handleChoice_committed _ _ _ _ _ Hidle Hgen). }
  destruct (CheckpointFacts.autoSaveUpdater_has_record saveObj
              (Hook.savedGames (hook s))) as (x & Hin & Hstory & Hsession).
  assert (Hplayed : s' = toggleModal SAVE_EXISTING_NOTIFICATION true played).
  { subst s'. unfold handleManualSave. rewrite Hctx, Hsaved.
    assert (Hcur : GameContext.currentSegment c1 = Some segment)
      by reflexivity.
    rewrite Hcur.
    assert (Hex :
      existsb
        (fun x =>
           bool_decide (SavedGame.sessionId x = GameContext.sessionId c1)
           && bool_decide
                (SavedGame.storyId x = Some (StorySegment.id segment)))
        (Engine.autoSaveUpdater saveObj (Hook.savedGames (hook s))) = true).
    { apply existsb_exists. exists x. split; [by apply list_elem_of_In|].
      apply andb_true_intro. split; apply bool_decide_eq_true.
      - by rewrite Hsession.
      - by rewrite Hstory. }
    by rewrite Hex. }
  rewrite Hplayed. unfold toggleModal. cbn [hook storageCalls modals].
  repeat split. apply lookup_insert_eq.
Qed.

Lemma handleManualSave_after_turn_witness :
  let played :=
    setHook (Engine.handleChoice Scenario.env (Js.lit "go on") None)
      (Library.Make Scenario.started [] [] ∅) in
  hook (handleManualSave Scenario.env played) = hook played.
Proof.
  intros played.
  assert (Hidle : Hook.isLoading Scenario.started = false) by reflexivity.
  assert (Hnext :
    Env.advanceStory Scenario.env
      (Engine.turnArgs (Hook.context Scenario.started) (Js.lit "go on") None)
    = Fulfilled (Scenario.segment "s1" 100 None None None))
    by reflexivity.
  exact (proj1 (handleManualSave_after_turn Scenario.env Scenario.env
                  (Js.lit "go on") None
                  (Library.Make Scenario.started [] [] ∅) _ Hidle Hnext)).
Defined.

(** X26. A manual save is taken once per story node. When the session has
    a current segment, a manual save ends with a checkpoint for that segment
    on the list, and a second manual save, whatever identifier and time it
    would use, adds no record and hands nothing to the storage service. *)
Theorem handleManualSave_twice (env env' : Env.t) (s : Library.t)
    (currentSegment : StorySegment.t) :
  GameContext.currentSegment (Hook.context (hook s)) = Some currentSegment ->
  let once := handleManualSave env s in
  let twice := handleManualSave env' once in
  (exists x,
     x ∈ Hook.savedGames (hook once)
     /\ SavedGame.sessionId x = GameContext.sessionId (Hook.context (hook s))
     /\ SavedGame.storyId x = Some (StorySegment.id currentSegment))
  /\ hook twice = hook once
  /\ (length (Hook.savedGames (hook once))
      <= S (length (Hook.savedGames (hook s))))%nat.
Proof.
  intros Hcur once twice.
  set (saved x :=
    bool_decide
      (SavedGame.sessionId x = GameContext.sessionId (Hook.context (hook s)))
    && bool_decide
         (SavedGame.storyId x = Some (StorySegment.id currentSegment))).
  assert (Honce :
    Hook.context (hook once) = Hook.context (hook s)
    /\ existsb saved (Hook.savedGames (hook once)) = true
    /\ (length (Hook.savedGames (hook once))
        <= S (length (Hook.savedGames (hook s))))%nat).
  { subst once. unfold handleManualSave. rewrite Hcur. fold saved.
    destruct (existsb saved (Hook.savedGames (hook s))) eqn:Hex.
    - unfold toggleModal. cbn [hook]. repeat split; [done|lia].
    - unfold toggleModal, setHook. cbn [hook Hook.context Hook.savedGames
        Hook.setSavedGames Hook.saveGame].
      repeat split; [|simpl; lia].
      simpl. unfold saved at 1. cbn [SavedGame.sessionId SavedGame.storyId].
      by rewrite !bool_decide_eq_true_2. }
  destruct Honce as (Hctx & Hex & Hlen).
  split; [|split; [|done]].
  - apply existsb_exists in Hex as (x & Hin & Hx).
    apply andb_prop in Hx as [H1 H2].
    apply bool_decide_eq_true in H1, H2.
    exists x. split; [by apply list_elem_of_In | done].
  - subst twice. unfold handleManualSave. rewrite Hctx, Hcur. fold saved.
    by rewrite Hex.
Qed.

Lemma handleManualSave_twice_witness :
  let once :=
    handleManualSave Scenario.env (Library.Make Scenario.started [] [] ∅) in
  hook (handleManualSave Samples.fond once) = hook once.
Proof.
  intros once.
  exact (proj1 (proj2 (handleManualSave_twice Scenario.env Samples.fond
                         (Library.Make Scenario.started [] [] ∅)
                         _ eq_refl))).
Defined.

End LibraryFacts.

(** ** Editing in place *)

Module EditorFacts.
Import Engine Editor Invariant.

Lemma inStep_insert_last (history : list StorySegment.t) seg :
  history <> [] ->
  last (<[pred (length history) := seg]> history) = Some seg.
Proof.
  intros Hne. rewrite last_lookup, length_insert.
  apply list_lookup_insert_eq. destruct history; [done | simpl; lia].
Qed.

Lemma handleChoice_inStep env choice fromIndex h :
  inStep (Hook.context h) ->
  inStep (Hook.context (handleChoice env choice fromIndex h)).
Proof.
  intros Hstep. unfold handleChoice.
  destruct (Hook.isLoading h); [done|].
  destruct (Env.advanceStory env _) as [seg|m]; [|done].
  unfold inStep. cbn [Hook.context Hook.setContext Hook.setIsLoading
    autoCheckpoint Hook.saveGame Hook.setLastAutoSaveId Hook.setSavedGames].
  unfold turnContext. cbn [GameContext.currentSegment GameContext.history].
  by rewrite last_snoc.
Qed.

Lemma handleRegenerate_inStep env mode h :
  inStep (Hook.context h) ->
  inStep (Hook.context (handleRegenerate env mode h)).
Proof.
  intros Hstep. unfold handleRegenerate.
  destruct (last (GameContext.history (Hook.context h)))
    as [lastSegment|] eqn:Hlast; [|done].
  assert (Hne : GameContext.history (Hook.context h) <> []).
  { intros Hnil. by rewrite Hnil in Hlast. }
  replace (Z.to_nat (Z.of_nat (length (GameContext.history (Hook.context h)))
                     - 1))
    with (pred (length (GameContext.history (Hook.context h)))) by lia.
  destruct (negb (Mode.isChoices mode) && _ && _); [done|].
  destruct (Mode.isChoices mode);
    (destruct (Env.advanceStory env _) as [newSegment|m]; [|done]);
    unfold inStep; simpl; by rewrite inStep_insert_last.
Qed.

Lemma switchVersion_inStep now segmentId direction context :
  identifies segmentId (GameContext.history context) ->
  inStep context ->
  inStep (switchVersion now segmentId direction context).
Proof.
  intros Hone Hstep. unfold switchVersion.
  destruct (list_find _ (GameContext.history context))
    as [[idx seg]|] eqn:Hfind; [|done].
  destruct (StorySegment.versions seg) as [versions|]; [|done].
  destruct (_ <? 2); [done|].
  case_bool_decide; [done|].
  destruct (versions !! _) as [v|]; [|done].
  apply list_find_Some in Hfind as (Hidx & Hid & _).
  unfold inStep in *. cbn [GameContext.currentSegment GameContext.history].
  pose proof (lookup_lt_Some _ _ _ Hidx) as Hlt.
  rewrite last_lookup, length_insert.
  case_bool_decide as Hcur.
  - rewrite Hstep, last_lookup in Hcur.
    destruct (GameContext.history context
                !! pred (length (GameContext.history context)))
      as [lastSegment|] eqn:Hl; [|done].
    injection Hcur as Hcur.
    rewrite (Hone _ _ _ _ Hl Hidx Hcur Hid).
    symmetry. by apply list_lookup_insert_eq.
  - rewrite Hstep, last_lookup.
    destruct (decide (idx = pred (length (GameContext.history context))))
      as [->|Hne].
    + rewrite Hstep, last_lookup, Hidx in Hcur. simpl in Hcur. congruence.
    + symmetry. by apply list_lookup_insert_ne.
Qed.

Lemma replaceContext_inStep now find replacement context :
  inStep context ->
  inStep (Replace.replaceContext now find replacement context).
Proof.
  unfold inStep, Replace.replaceContext, Replace.recent.
  cbn [GameContext.currentSegment GameContext.history].
  intros ->. set (history := GameContext.history context).
  set (n := (length history - 5)%nat).
  rewrite <- (take_drop n history) at 1.
  rewrite !last_app.
  change (map ?f ?l) with (f <$> l). rewrite fmap_last.
  destruct (last (drop n history)) as [seg|] eqn:Hlast; [done|].
  apply last_None in Hlast.
  assert (history = []) as ->.
  { destruct history as [|x l]; [done|].
    apply (f_equal length) in Hlast. rewrite length_drop in Hlast.
    subst n. simpl in Hlast. lia. }
  done.
Qed.

(** X27. The current segment stays the last segment of the history. When it
    is, it still is after a turn, after a regeneration, after the text of a
    segment is edited, after a text is replaced everywhere, after the
    planner has run, and after a version is switched on an identifier that
    at most one segment bears; whether the call goes through or not. *)
Theorem current_segment_stays_last (h : Hook.t) :
  inStep (Hook.context h) ->
  (forall env choice fromIndex,
     inStep (Hook.context (handleChoice env choice fromIndex h)))
  /\ (forall env mode, inStep (Hook.context (handleRegenerate env mode h)))
  /\ (forall env segmentId newText,
        inStep (Hook.context (handleUpdateSegmentText env segmentId newText h)))
  /\ (forall env findText replaceText,
        inStep (Hook.context
                  (Replace.handleGlobalReplace env findText replaceText h).2))
  /\ (forall env config,
        inStep (Hook.context (handleAutoPlanBlueprint env config h)))
  /\ (forall env segmentId direction,
        identifies segmentId (GameContext.history (Hook.context h)) ->
        inStep (Hook.context (handleSwitchVersion env segmentId direction h))).
Proof.
  intros Hstep. repeat split.
  - intros. by apply handleChoice_inStep.
  - intros. by apply handleRegenerate_inStep.
  - intros env segmentId newText. unfold inStep in *.
    cbn [handleUpdateSegmentText updateSegmentText Hook.context
         Hook.setContext GameContext.currentSegment GameContext.history].
    rewrite Hstep. symmetry. apply (fmap_last (retext segmentId newText)).
  - intros env findText replaceText. unfold Replace.handleGlobalReplace.
    destruct (negb _ || negb _); [done|].
    destruct (_ =? 0); [done|].
    by apply replaceContext_inStep.
  - intros env config.
    destruct (PlanFacts.handleAutoPlanBlueprint_story env config h)
      as (Hhist & Hcur & _).
    unfold inStep in *. by rewrite Hhist, Hcur.
  - intros env segmentId direction Hone. by apply switchVersion_inStep.
Qed.

Lemma current_segment_stays_last_witness :
  inStep (Hook.context
            (handleUpdateSegmentText Scenario.env (Js.lit "s0")
               (Js.lit "It rained.") Scenario.started)).
Proof.
  assert (Hstep : inStep (Hook.context Scenario.started)) by reflexivity.
  exact (proj1 (proj2 (proj2 (current_segment_stays_last Scenario.started
                                Hstep)))
           Scenario.env (Js.lit "s0") (Js.lit "It rained.")).
Defined.


Lemma filter_all {A} (P : A -> Prop) `{forall x, Decision (P x)}
    (l : list A) :
  (forall x, x ∈ l -> P x) -> filter P l = l.
Proof.
  induction l as [|x l IH]; intros Hall; [done|].
  rewrite filter_cons_True by (apply Hall; left).
  f_equal. apply IH. intros y Hy. apply Hall. by right.
Qed.

(** X28. An event that is added and then deleted leaves no trace. The
    added event comes last, waits, and records the length of the history
    as its creation turn; when no earlier event bears its identifier,
    deleting that identifier gives back the events as they were, and
    neither call touches anything else in the context. *)
Theorem handleDeleteScheduledEvent_after_add (env : Env.t)
    (description : Js.str) (h : Hook.t) :
  (forall e, e ∈ GameContext.events (Hook.context h) ->
             ScheduledEvent.id e <> Env.generateUUID env 0) ->
  let added := handleAddScheduledEvent env description h in
  let deleted := handleDeleteScheduledEvent (Env.generateUUID env 0) added in
  GameContext.events (Hook.context added)
  = GameContext.events (Hook.context h)
    ++ [ScheduledEvent.Make (Env.generateUUID env 0) description
          ScheduledEvent.pending
          (Z.of_nat (length (GameContext.history (Hook.context h))))]
  /\ GameContext.events (Hook.context deleted)
     = GameContext.events (Hook.context h)
  /\ Hook.context deleted
     = withScheduledEvents (GameContext.events (Hook.context h))
         (Hook.context h).
Proof.
  intros Hfresh added deleted.
  set (newEvent :=
    ScheduledEvent.Make (Env.generateUUID env 0) description
      ScheduledEvent.pending
      (Z.of_nat (length (GameContext.history (Hook.context h))))).
  assert (Hadded : GameContext.events (Hook.context added)
                   = GameContext.events (Hook.context h) ++ [newEvent])
    by reflexivity.
  assert (Hfilter :
    filter (fun e => ScheduledEvent.id e <> Env.generateUUID env 0)
      (GameContext.events (Hook.context added))
    = GameContext.events (Hook.context h)).
  { rewrite Hadded, filter_app, filter_cons_False, filter_nil, app_nil_r
      by (intros Hc; by apply Hc).
    by apply filter_all. }
  split; [done|].
  assert (Hdeleted :
    Hook.context deleted
    = withScheduledEvents
        (filter (fun e => ScheduledEvent.id e <> Env.generateUUID env 0)
           (GameContext.events (Hook.context added)))
        (Hook.context h))
    by reflexivity.
  rewrite Hdeleted, Hfilter. done.
Qed.

Lemma handleDeleteScheduledEvent_after_add_witness :
  GameContext.events
    (Hook.context
       (handleDeleteScheduledEvent (Env.generateUUID Scenario.env 0)
          (handleAddScheduledEvent Scenario.env (Js.lit "an eclipse")
             Samples.stalled)))
  = GameContext.events (Hook.context Samples.stalled).
Proof.
  refine (proj1 (proj2 (handleDeleteScheduledEvent_after_add Scenario.env
                          (Js.lit "an eclipse") Samples.stalled _))).
  intros e He. vm_compute in He. apply list_elem_of_singleton in He as ->.
  discriminate.
Defined.

End EditorFacts.

(** ** Replacing a text everywhere *)

Module ReplaceFacts.
Import Replace.














(** In the sample session the text occurs 41 times: 40 times in the opening
    segment and once in its second choice. *)
Example handleGlobalReplace_sample :
  (handleGlobalReplace Scenario.env (Js.lit "a") (Js.lit "the ")
     Scenario.started).1 = 41.
Proof. reflexivity. Qed.

End ReplaceFacts.

(** ** Listing models: the endpoint that is asked *)

Module ModelsFacts.
Import Models.

Lemma endsWith_app s suffix : endsWith suffix (s ++ suffix) = true.
Proof.
  unfold endsWith. rewrite rev_app_distr.
  generalize (rev suffix) (rev s). intros p t.
  induction p as [|c p IH]; [done|]. simpl. by rewrite N.eqb_refl.
Qed.

Lemma endsWith_split suffix s :
  endsWith suffix s = true ->
  s = dropEnd (length suffix) s ++ suffix.
Proof.
  unfold endsWith, dropEnd. intros Hends.
  assert (Hpre : forall p t, Js.startsWith p t = true ->
                             t = p ++ drop (length p) t).
  { induction p as [|c p IH]; intros [|x t] Hp; try done.
    simpl in Hp. apply andb_prop in Hp as [Hc Hp].
    apply N.eqb_eq in Hc as ->. simpl. f_equal. by apply IH. }
  apply Hpre in Hends. rewrite length_rev in Hends.
  apply (f_equal (@rev N)) in Hends.
  rewrite rev_involutive, rev_app_distr, rev_involutive in Hends.
  rewrite Hends at 1. f_equal.
  change (drop (length suffix) (rev s)) with (skipn (length suffix) (rev s)).
  by rewrite skipn_rev, rev_involutive.
Qed.

Lemma dropEnd_app s suffix : dropEnd (length suffix) (s ++ suffix) = s.
Proof.
  unfold dropEnd. rewrite length_app.
  replace (length s + length suffix - length suffix)%nat with (length s)
    by lia.
  apply take_app_length.
Qed.

(** The head of a trimmed text is no white space. *)
Lemma trim_head s c r :
  Js.trim s = c :: r -> Js.isWhiteSpace c = false.
Proof.
  unfold Js.trim, Js.trimEnd.
  assert (Hstart : forall t x u, Js.trimStart t = x :: u ->
                                 Js.isWhiteSpace x = false).
  { induction t as [|y t IH]; intros x u; [done|]. simpl.
    destruct (Js.isWhiteSpace y) eqn:Hy; [apply IH|].
    by intros [= <- _]. }
  destruct (Js.trimStart s) as [|x t] eqn:Ht; [done|].
  pose proof (Hstart _ _ _ Ht) as Hx.
  destruct (EnvelopeFacts.trimStart_suffix (rev (x :: t))) as [w Hw].
  intros Hrev. apply (f_equal (@rev N)) in Hw.
  rewrite rev_involutive, rev_app_distr, Hrev in Hw. simpl in Hw.
  by injection Hw as <- _.
Qed.

(** A text that begins and ends with no white space is trimmed already. *)
Lemma trim_tight c body d :
  Js.isWhiteSpace c = false -> Js.isWhiteSpace d = false ->
  Js.trim (c :: body ++ [d]) = c :: body ++ [d].
Proof.
  intros Hc Hd.
  pose proof (EnvelopeFacts.trim_bracketed c d body [] Hc Hd) as Ht.
  rewrite app_nil_r in Ht. apply Ht. constructor.
Qed.

(** The endpoint: a text that takes no white space from the address and
    ends with the route of the model list. *)
Lemma endpointUrl_shape url :
  exists stem,
    endpointUrl url = stem ++ Js.lit "/v1/models"
    /\ forall c r, stem = c :: r -> Js.isWhiteSpace c = false.
Proof.
  unfold endpointUrl.
  assert (Hbase : forall c r, baseUrl url = c :: r ->
                              Js.isWhiteSpace c = false).
  { unfold baseUrl. intros c r.
    assert (Hcut : forall n t r0, dropEnd n t = c :: r0 ->
                                  exists r', t = c :: r').
    { unfold dropEnd. intros n [|x t] r0; [by rewrite take_nil|].
      destruct (length (x :: t) - n)%nat; [done|]. simpl.
      intros [= -> _]. by eexists. }
    assert (Hslash : forall t r0, stripSlash t = c :: r0 ->
                                  exists r', t = c :: r').
    { unfold stripSlash. intros t r0. destruct (endsWith _ t); [apply Hcut|].
      intros ->. by eexists. }
    assert (Hroute : forall t r0, stripRoute t = c :: r0 ->
                                  exists r', t = c :: r').
    { unfold stripRoute. intros t r0.
      repeat (destruct (endsWith _ t); [apply Hcut|]).
      intros ->. by eexists. }
    intros H. apply Hroute in H as [r1 H]. apply Hslash in H as [r2 H].
    by apply trim_head in H. }
  destruct (endsWith (Js.lit "/v1") (baseUrl url)) eqn:Hv1.
  - apply endsWith_split in Hv1.
    exists (dropEnd (length (Js.lit "/v1")) (baseUrl url)). split.
    + rewrite Hv1 at 1. by rewrite <- app_assoc.
    + intros c r Hstem. rewrite Hstem in Hv1. by apply (Hbase c _ Hv1).
  - exists (baseUrl url). split; [done | apply Hbase].
Qed.

Lemma endpointUrl_fixed url : endpointUrl (endpointUrl url) = endpointUrl url.
Proof.
  destruct (endpointUrl_shape url) as (stem & -> & Hstem).
  set (route := Js.lit "/v1/models").
  assert (Htrim : Js.trim (stem ++ route) = stem ++ route).
  { destruct stem as [|c r].
    - by vm_compute.
    - replace ((c :: r) ++ route)
        with (c :: (r ++ Js.lit "/v1/model") ++ [115%N])
        by (simpl; by rewrite <- app_assoc).
      apply trim_tight; [by apply (Hstem c r) | done]. }
  assert (Hrev : rev (stem ++ route) = rev route ++ rev stem)
    by apply rev_app_distr.
  assert (Hslash : stripSlash (stem ++ route) = stem ++ route).
  { unfold stripSlash, endsWith. by rewrite Hrev. }
  assert (Hroute : stripRoute (stem ++ route) = stem ++ Js.lit "/v1").
  { unfold stripRoute, endsWith. rewrite Hrev. simpl Js.startsWith.
    cbv iota. change route with (Js.lit "/v1" ++ Js.lit "/models").
    by rewrite app_assoc, dropEnd_app. }
  unfold endpointUrl, baseUrl. rewrite Htrim, Hslash, Hroute.
  rewrite endsWith_app, <- app_assoc. done.
Qed.

(** X30. The address of the model list is normalised. Whatever address is
    configured, the endpoint that is asked ends with [/v1/models], and it
    is a fixed point: configuring the endpoint itself as the address asks
    the same endpoint and so gives the same answer. *)
Theorem fetchOpenAICompatibleModels_normalised (fetch : Js.str -> Reply)
    (url : Js.str) :
  endsWith (Js.lit "/v1/models") (endpointUrl url) = true
  /\ endpointUrl (endpointUrl url) = endpointUrl url
  /\ fetchOpenAICompatibleModels fetch (endpointUrl url)
     = fetchOpenAICompatibleModels fetch url.
Proof.
  split; [|split].
  - destruct (endpointUrl_shape url) as (stem & -> & _). apply endsWith_app.
  - apply endpointUrl_fixed.
  - unfold fetchOpenAICompatibleModels. by rewrite endpointUrl_fixed.
Qed.

End ModelsFacts.
